(** * The local Wikidata loader: chunked triple encoding and upload

    A shallow embedding of [scripts/local-wikidata-loader.py]: the ULID
    generator, the JSON based GraphCol encoder, the chunk accumulator of
    [load_subset] with its manifest, and the multi-dataset driver [main].

    Conventions of the embedding.
    - A Python [int] is a [Z].
    - A Python [str] is the list of its code points ([pystr]); comparison
      of two [str] is the lexicographic comparison of the code points.
    - A Python [bytes] is a list of numbers below 256 ([bytes]).
    - The clock, the entropy source, the dataset collaborator and the
      [wrangler] subprocess are inputs of the run, gathered in [RunEnv].
    - Calls of [print] only write to the terminal and are left out. *)

From Stdlib Require Import String Ascii.
From Stdlib Require Import List ZArith NArith Lia Bool Sorted.
Import ListNotations.
Open Scope Z_scope.

(** ** Python strings *)

Module Py.

Abbreviation pystr := (list N) (only parsing).
Abbreviation bytes := (list N) (only parsing).

(** A string literal of the source. *)
Definition str (s : string) : pystr :=
  map N_of_ascii (list_ascii_of_string s).
Arguments str s%_string.

(** [len(x)] *)
Definition len {A : Type} (l : list A) : Z := Z.of_nat (length l).

(** [s[i]] for an index inside the string (the source only indexes
    [ENCODING] with a value in [0, 31]). *)
Definition str_get (s : pystr) (i : Z) : N := nth (Z.to_nat i) s 0%N.

(** [a < b] on [str]: code point by code point, a proper prefix first. *)
Fixpoint str_compare (a b : pystr) : comparison :=
  match a, b with
  | [], [] => Eq
  | [], _ :: _ => Lt
  | _ :: _, [] => Gt
  | x :: a', y :: b' =>
      match (x ?= y)%N with
      | Eq => str_compare a' b'
      | c => c
      end
  end.

Definition str_lt (a b : pystr) : Prop := str_compare a b = Lt.

(** [a == b] on [str] *)
Fixpoint str_eqb (a b : pystr) : bool :=
  match a, b with
  | [], [] => true
  | x :: a', y :: b' => (x =? y)%N && str_eqb a' b'
  | _, _ => false
  end.

(** Decimal digits of a natural number, most significant first, as
    [str(n)] and the [d] format write them. *)
Fixpoint digits_aux (fuel : nat) (n : N) (acc : pystr) : pystr :=
  match fuel with
  | O => acc
  | S f =>
      let acc' := (48 + n mod 10)%N :: acc in
      if (n / 10 =? 0)%N then acc' else digits_aux f (n / 10)%N acc'
  end.

Definition str_of_N (n : N) : pystr :=
  digits_aux (S (N.to_nat (N.log2 n))) n [].

(** [str(z)], also what [f"{z}"] inserts for an [int]. *)
Definition str_of_Z (z : Z) : pystr :=
  if z <? 0 then 45%N :: str_of_N (Z.abs_N z) else str_of_N (Z.abs_N z).

(** [f"{z:06d}"]: sign first, then zeros up to a total width of six. *)
Definition format_06d (z : Z) : pystr :=
  let d := str_of_N (Z.abs_N z) in
  if z <? 0
  then 45%N :: repeat 48%N (5 - length d) ++ d
  else repeat 48%N (6 - length d) ++ d.

(** [random.randint(a, b)]: a value of [a..b] chosen by the entropy [raw]. *)
Definition randint (raw : Z) (a b : Z) : Z := a + raw mod (b - a + 1).

End Py.
Import Py.

(** ** ULID generation *)

Definition ENCODING : pystr := str "0123456789ABCDEFGHJKMNPQRSTVWXYZ".

(** [for _ in range(10): ulid = ENCODING[now % 32] + ulid; now //= 32] *)
Fixpoint ulid_time (n : nat) (now : Z) (ulid : pystr) : Z * pystr :=
  match n with
  | O => (now, ulid)
  | S k => ulid_time k (now / 32) (str_get ENCODING (now mod 32) :: ulid)
  end.

(** [for _ in range(16): ulid += ENCODING[random.randint(0, 31)]];
    [rnd k] is the entropy consumed by the [k]-th draw. *)
Fixpoint ulid_random (n : nat) (k : nat) (rnd : nat -> Z) (ulid : pystr)
  : pystr :=
  match n with
  | O => ulid
  | S n' =>
      ulid_random n' (S k) rnd
        (ulid ++ [str_get ENCODING (randint (rnd k) 0 31)])
  end.

(** [generate_ulid()], with [now = int(time.time() * 1000)]. *)
Definition generate_ulid (now : Z) (rnd : nat -> Z) : pystr :=
  let ulid := snd (ulid_time 10 now []) in
  let ulid := ulid_random 16 0 rnd ulid in
  firstn 26 ulid.


(** ** JSON values and [json.dumps]

    The values the loader serializes are integers, strings, lists and
    dictionaries; a dictionary keeps its keys in insertion order. *)

#[local] Unset Elimination Schemes.
Inductive json : Type :=
| JInt (z : Z)
| JStr (s : pystr)
| JArr (l : list json)
| JObj (m : list (pystr * json)).
#[local] Set Elimination Schemes.

Module Json.

(** One lower-case hexadecimal digit. *)
Definition hex_digit (d : N) : N :=
  (if d <? 10 then 48 + d else 87 + d)%N.

(** ['{0:04x}'.format(n)] for [n < 0x10000]. *)
Definition hex4 (n : N) : pystr :=
  [hex_digit (n / 4096 mod 16); hex_digit (n / 256 mod 16);
   hex_digit (n / 16 mod 16); hex_digit (n mod 16)]%N.

(** The [\uXXXX] escape. *)
Definition u_escape (n : N) : pystr := 92%N :: 117%N :: hex4 n.

(** The replacement [json.dumps] applies to one character under
    [ensure_ascii=True]: printable ASCII other than the quote and the
    backslash stays, the short escapes are used where they exist, any other
    character of the basic plane becomes [\uXXXX] and a character above it
    becomes a surrogate pair. *)
Definition escape_char (c : N) : pystr :=
  (if c =? 34 then [92; 34]
   else if c =? 92 then [92; 92]
   else if c =? 10 then [92; 110]
   else if c =? 13 then [92; 114]
   else if c =? 9 then [92; 116]
   else if c =? 8 then [92; 98]
   else if c =? 12 then [92; 102]
   else if (32 <=? c) && (c <=? 126) then [c]
   else if c <? 65536 then u_escape c
   else
     let n := c - 65536 in
     let s1 := N.lor 55296 (N.land (N.shiftr n 10) 1023) in
     let s2 := N.lor 56320 (N.land n 1023) in
     u_escape s1 ++ u_escape s2)%N.

(** [encode_basestring_ascii]: the quoted, escaped string. *)
Definition encode_basestring_ascii (s : pystr) : pystr :=
  34%N :: flat_map escape_char s ++ [34%N].

(** [sep.join(parts)] *)
Fixpoint join (sep : pystr) (parts : list pystr) : pystr :=
  match parts with
  | [] => []
  | [x] => x
  | x :: rest => x ++ sep ++ join sep rest
  end.

(** [json.dumps(j)] with the default separators [", "] and [": "]. *)
Fixpoint dumps (j : json) : pystr :=
  match j with
  | JInt z => str_of_Z z
  | JStr s => encode_basestring_ascii s
  | JArr l => 91%N :: join (str ", ") (map dumps l) ++ [93%N]
  | JObj m =>
      123%N ::
      join (str ", ")
        (map (fun kv => encode_basestring_ascii (fst kv) ++ str ": "
                        ++ dumps (snd kv)) m)
      ++ [125%N]
  end.

(** A line break followed by the indentation of nesting depth [level]. *)
Definition newline_indent (indent level : nat) : pystr :=
  10%N :: repeat 32%N (indent * level).

(** [json.dumps(j, indent=indent)]: one item per line, [","] between
    items, [": "] after a key, empty containers written closed. *)
Fixpoint dumps_indent (indent level : nat) (j : json) : pystr :=
  match j with
  | JInt z => str_of_Z z
  | JStr s => encode_basestring_ascii s
  | JArr [] => str "[]"
  | JArr l =>
      91%N :: newline_indent indent (S level)
      ++ join (44%N :: newline_indent indent (S level))
           (map (dumps_indent indent (S level)) l)
      ++ newline_indent indent level ++ [93%N]
  | JObj [] => str "{}"
  | JObj m =>
      123%N :: newline_indent indent (S level)
      ++ join (44%N :: newline_indent indent (S level))
           (map (fun kv => encode_basestring_ascii (fst kv) ++ str ": "
                           ++ dumps_indent indent (S level) (snd kv)) m)
      ++ newline_indent indent level ++ [125%N]
  end.

End Json.

(** ** Exceptions and [str.encode] *)

Inductive exn : Type :=
| SourceError         (* the dataset collaborator failed *)
| UnicodeEncodeError  (* [str.encode] met a surrogate code point *)
| OSError.            (* [subprocess.run] could not start the command *)

Inductive result (A : Type) : Type :=
| Ok (a : A)
| Raise (e : exn).
Arguments Ok {A} a.
Arguments Raise {A} e.

(** The UTF-8 bytes of one code point; surrogates are refused. *)
Definition utf8_char (c : N) : result bytes :=
  (if c <? 128 then Ok [c]
   else if c <? 2048 then
     Ok [N.lor 192 (N.shiftr c 6); N.lor 128 (N.land c 63)]
   else if (55296 <=? c) && (c <=? 57343) then Raise UnicodeEncodeError
   else if c <? 65536 then
     Ok [N.lor 224 (N.shiftr c 12);
         N.lor 128 (N.land (N.shiftr c 6) 63);
         N.lor 128 (N.land c 63)]
   else
     Ok [N.lor 240 (N.shiftr c 18);
         N.lor 128 (N.land (N.shiftr c 12) 63);
         N.lor 128 (N.land (N.shiftr c 6) 63);
         N.lor 128 (N.land c 63)])%N.

(** [s.encode()] *)
Fixpoint str_encode (s : pystr) : result bytes :=
  match s with
  | [] => Ok []
  | c :: s' =>
      match utf8_char c, str_encode s' with
      | Ok b, Ok bs => Ok (b ++ bs)
      | Raise e, _ => Raise e
      | _, Raise e => Raise e
      end
  end.

(** ** Triples and the GraphCol encoder *)

Module TypedValue.
Record t : Type := mk { t_ : Z; v : pystr }.
End TypedValue.

Module Triple.
Record t : Type :=
  mk { s : pystr; p : pystr; o : TypedValue.t; ts : Z; tx : pystr }.
End Triple.

(** The dictionary [{"t": .., "v": ..}]. *)
Definition typed_value_json (o : TypedValue.t) : json :=
  JObj [(str "t", JInt (TypedValue.t_ o)); (str "v", JStr (TypedValue.v o))].

(** The dictionary [{"s": .., "p": .., "o": .., "ts": .., "tx": ..}]. *)
Definition triple_json (x : Triple.t) : json :=
  JObj [(str "s", JStr (Triple.s x));
        (str "p", JStr (Triple.p x));
        (str "o", typed_value_json (Triple.o x));
        (str "ts", JInt (Triple.ts x));
        (str "tx", JStr (Triple.tx x))].

(** The dictionary [data] of [encode_graphcol]. *)
Definition graphcol_json (triples : list Triple.t) (namespace : pystr)
  : json :=
  JObj [(str "version", JInt 1);
        (str "namespace", JStr namespace);
        (str "triples", JArr (map triple_json triples))].

(** [encode_graphcol(triples, namespace)] *)
Definition encode_graphcol (triples : list Triple.t) (namespace : pystr)
  : result bytes :=
  let data := graphcol_json triples namespace in
  str_encode (Json.dumps data).

(** ** Decoding a chunk

    Modelled from the spec: the repository only writes chunks; the reader
    below, with its helpers, is the inverse the format is meant to
    support, built as [json.loads] followed by the reading of the three
    fields of a chunk. *)

Module Decode.

Definition is_ws (c : N) : bool :=
  ((c =? 32) || (c =? 9) || (c =? 10) || (c =? 13))%N.

Definition is_digit (c : N) : bool := ((48 <=? c) && (c <=? 57))%N.

Fixpoint skip_ws (s : pystr) : pystr :=
  match s with
  | c :: r => if is_ws c then skip_ws r else s
  | [] => []
  end.

(** The value of one hexadecimal digit, in either case. *)
Definition hex_val (c : N) : option N :=
  (if (48 <=? c) && (c <=? 57) then Some (c - 48)
   else if (97 <=? c) && (c <=? 102) then Some (c - 87)
   else if (65 <=? c) && (c <=? 70) then Some (c - 55)
   else None)%N.

(** Four hexadecimal digits. *)
Definition parse_hex4 (s : pystr) : option (N * pystr) :=
  match s with
  | a :: b :: c :: d :: r =>
      match hex_val a, hex_val b, hex_val c, hex_val d with
      | Some x, Some y, Some z, Some w =>
          Some (((x * 16 + y) * 16 + z) * 16 + w, r)%N
      | _, _, _, _ => None
      end
  | _ => None
  end.

(** The character a short escape stands for. *)
Definition unescape (e : N) : option N :=
  (if e =? 34 then Some 34
   else if e =? 92 then Some 92
   else if e =? 47 then Some 47
   else if e =? 98 then Some 8
   else if e =? 102 then Some 12
   else if e =? 110 then Some 10
   else if e =? 114 then Some 13
   else if e =? 116 then Some 9
   else None)%N.

Definition is_high (c : N) : bool := ((55296 <=? c) && (c <=? 56319))%N.
Definition is_low (c : N) : bool := ((56320 <=? c) && (c <=? 57343))%N.

(** Modelled from the spec: the string scanner of the chunk reader, which
    the repository does not contain; it reads up to the closing quote,
    undoes the escapes and joins a high surrogate escape with the low
    surrogate escape that follows it, as [json.loads] does. *)
Fixpoint scanstring (fuel : nat) (s : pystr) : option (pystr * pystr) :=
  match fuel with
  | O => None
  | S f =>
      match s with
      | [] => None
      | c :: r =>
          if (c =? 34)%N then Some ([], r)
          else if (c =? 92)%N then
            match r with
            | [] => None
            | e :: r1 =>
                if (e =? 117)%N then
                  match parse_hex4 r1 with
                  | None => None
                  | Some (u, r2) =>
                      let single :=
                        match scanstring f r2 with
                        | Some (x, r') => Some (u :: x, r')
                        | None => None
                        end in
                      if is_high u then
                        match r2 with
                        | b :: l :: r3 =>
                            if ((b =? 92) && (l =? 117))%N then
                              match parse_hex4 r3 with
                              | Some (u2, r4) =>
                                  if is_low u2 then
                                    let c2 :=
                                      (65536 +
                                       N.lor (N.shiftl (u - 55296) 10)
                                             (u2 - 56320))%N in
                                    match scanstring f r4 with
                                    | Some (x, r') => Some (c2 :: x, r')
                                    | None => None
                                    end
                                  else single
                              | None => None
                              end
                            else single
                        | _ => single
                        end
                      else single
                  end
                else
                  match unescape e with
                  | Some c' =>
                      match scanstring f r1 with
                      | Some (x, r') => Some (c' :: x, r')
                      | None => None
                      end
                  | None => None
                  end
            end
          else if (c <? 32)%N then None
          else
            match scanstring f r with
            | Some (x, r') => Some (c :: x, r')
            | None => None
            end
      end
  end.

(** A run of decimal digits and its value. *)
Fixpoint take_digits (s : pystr) (acc : N) : N * pystr :=
  match s with
  | c :: r =>
      if is_digit c then take_digits r (10 * acc + (c - 48))%N else (acc, s)
  | [] => (acc, [])
  end.

(** Modelled from the spec: the value parser of the chunk reader, which
    the repository does not contain; it accepts the integers, strings,
    lists and dictionaries a chunk is made of, with optional white space
    between the tokens. *)
Fixpoint parse_value (fuel : nat) (s : pystr) : option (json * pystr) :=
  match fuel with
  | O => None
  | S f =>
      match skip_ws s with
      | [] => None
      | c :: r =>
          if (c =? 34)%N then
            match scanstring f r with
            | Some (x, r') => Some (JStr x, r')
            | None => None
            end
          else if (c =? 91)%N then
            match skip_ws r with
            | c' :: r' =>
                if (c' =? 93)%N then Some (JArr [], r')
                else
                  match parse_elems f r with
                  | Some (l, r'') => Some (JArr l, r'')
                  | None => None
                  end
            | [] => None
            end
          else if (c =? 123)%N then
            match skip_ws r with
            | c' :: r' =>
                if (c' =? 125)%N then Some (JObj [], r')
                else
                  match parse_members f r with
                  | Some (m, r'') => Some (JObj m, r'')
                  | None => None
                  end
            | [] => None
            end
          else if (c =? 45)%N then
            match r with
            | d :: _ =>
                if is_digit d then
                  let (n, r') := take_digits r 0%N in
                  Some (JInt (- Z.of_N n), r')
                else None
            | [] => None
            end
          else if is_digit c then
            let (n, r') := take_digits (c :: r) 0%N in
            Some (JInt (Z.of_N n), r')
          else None
      end
  end
with parse_elems (fuel : nat) (s : pystr) : option (list json * pystr) :=
  match fuel with
  | O => None
  | S f =>
      match parse_value f s with
      | Some (x, r) =>
          match skip_ws r with
          | c :: r' =>
              if (c =? 44)%N then
                match parse_elems f r' with
                | Some (l, r'') => Some (x :: l, r'')
                | None => None
                end
              else if (c =? 93)%N then Some ([x], r')
              else None
          | [] => None
          end
      | None => None
      end
  end
with parse_members (fuel : nat) (s : pystr)
  : option (list (pystr * json) * pystr) :=
  match fuel with
  | O => None
  | S f =>
      match skip_ws s with
      | c :: r =>
          if (c =? 34)%N then
            match scanstring f r with
            | Some (k, r1) =>
                match skip_ws r1 with
                | c1 :: r2 =>
                    if (c1 =? 58)%N then
                      match parse_value f r2 with
                      | Some (x, r3) =>
                          match skip_ws r3 with
                          | c3 :: r4 =>
                              if (c3 =? 44)%N then
                                match parse_members f r4 with
                                | Some (m, r5) => Some ((k, x) :: m, r5)
                                | None => None
                                end
                              else if (c3 =? 125)%N then Some ([(k, x)], r4)
                              else None
                          | [] => None
                          end
                      | None => None
                      end
                    else None
                | [] => None
                end
            | None => None
            end
          else None
      | [] => None
      end
  end.

(** Modelled from the spec: [json.loads] of the chunk reader, which the
    repository does not contain: one value and nothing but white space
    after it. *)
Definition loads (s : pystr) : option json :=
  match parse_value (S (length s)) s with
  | Some (j, r) => match skip_ws r with [] => Some j | _ :: _ => None end
  | None => None
  end.

(** [payload.decode()] for a payload of ASCII bytes, which is what the
    encoder writes. *)
Fixpoint bytes_decode (b : bytes) : option pystr :=
  match b with
  | [] => Some []
  | c :: b' =>
      if (c <? 128)%N then
        match bytes_decode b' with
        | Some s => Some (c :: s)
        | None => None
        end
      else None
  end.

(** [d[key]] on a parsed dictionary: the last binding of the key. *)
Fixpoint obj_get (key : pystr) (m : list (pystr * json)) : option json :=
  match m with
  | [] => None
  | (k, x) :: m' =>
      match obj_get key m' with
      | Some y => Some y
      | None => if str_eqb k key then Some x else None
      end
  end.

Definition as_int (j : option json) : option Z :=
  match j with Some (JInt z) => Some z | _ => None end.

Definition as_str (j : option json) : option pystr :=
  match j with Some (JStr x) => Some x | _ => None end.

Definition typed_value_of_json (j : option json) : option TypedValue.t :=
  match j with
  | Some (JObj m) =>
      match as_int (obj_get (str "t") m), as_str (obj_get (str "v") m) with
      | Some t, Some v => Some (TypedValue.mk t v)
      | _, _ => None
      end
  | _ => None
  end.

Definition triple_of_json (j : json) : option Triple.t :=
  match j with
  | JObj m =>
      match as_str (obj_get (str "s") m), as_str (obj_get (str "p") m),
            typed_value_of_json (obj_get (str "o") m),
            as_int (obj_get (str "ts") m), as_str (obj_get (str "tx") m)
      with
      | Some s, Some p, Some o, Some ts, Some tx =>
          Some (Triple.mk s p o ts tx)
      | _, _, _, _, _ => None
      end
  | _ => None
  end.

Fixpoint triples_of_json (l : list json) : option (list Triple.t) :=
  match l with
  | [] => Some []
  | j :: l' =>
      match triple_of_json j, triples_of_json l' with
      | Some x, Some xs => Some (x :: xs)
      | _, _ => None
      end
  end.

(** A decoded chunk: [{version, namespace, triples}]. *)
Record Chunk : Type :=
  { version : Z; namespace : pystr; triples : list Triple.t }.

(** Modelled from the spec: the chunk decoder, the inverse of
    [encode_graphcol], which the repository does not contain. *)
Definition decode_graphcol (payload : bytes) : option Chunk :=
  match bytes_decode payload with
  | None => None
  | Some text =>
      match loads text with
      | Some (JObj m) =>
          match as_int (obj_get (str "version") m),
                as_str (obj_get (str "namespace") m),
                obj_get (str "triples") m with
          | Some ver, Some ns, Some (JArr l) =>
              match triples_of_json l with
              | Some ts => Some {| version := ver; namespace := ns; triples := ts |}
              | None => None
              end
          | _, _, _ => None
          end
      | _ => None
      end
  end.

End Decode.

(** ** The upload sink and the effects of a run *)

(** What one [wrangler r2 object put] does: it stores the object, it exits
    with an error status (which [subprocess.run], called without [check],
    does not report), or the command cannot be started and
    [subprocess.run] raises. *)
Inductive put_outcome : Type := Stored | Rejected | Crashed.

(** One call of [upload_to_r2]: the object path in the bucket, the bytes
    of the local file and what the command did. *)
Record PutEvent : Type :=
  { put_path : pystr; put_body : bytes; put_result : put_outcome }.

(** The calls of [upload_to_r2] made so far, oldest first. *)
Definition World := list PutEvent.

(** A computation that may raise and that extends the log of uploads. *)
Definition M (A : Type) : Type := World -> result A * World.

Definition ret {A : Type} (a : A) : M A := fun w => (Ok a, w).

Definition raise {A : Type} (e : exn) : M A := fun w => (Raise e, w).

Definition bind {A B : Type} (m : M A) (k : A -> M B) : M B :=
  fun w =>
    match m w with
    | (Ok a, w') => k a w'
    | (Raise e, w') => (Raise e, w')
    end.

Definition lift {A : Type} (r : result A) : M A := fun w => (r, w).

Notation "x <- m ;; k" := (bind m (fun x => k))
  (at level 61, m at next level, right associativity).

(** [for x in xs: st = body(x, st)] *)
Fixpoint for_each {X S : Type} (xs : list X) (body : X -> S -> M S) (st : S)
  : M S :=
  match xs with
  | [] => ret st
  | x :: xs' => st' <- body x st ;; for_each xs' body st'
  end.

(** [try: m  except Exception: handler] *)
Definition try_except {A : Type} (m : M A) (handler : exn -> M A) : M A :=
  fun w =>
    match m w with
    | (Ok a, w') => (Ok a, w')
    | (Raise e, w') => handler e w'
    end.

(** ** The loader *)

Definition NAMESPACE : pystr := str "https://wikidata.org/".
Definition CHUNK_SIZE : Z := 250000.

(** A subject, relation or object as the dataset yields it. *)
Inductive pyval : Type :=
| PyInt (z : Z)
| PyStr (s : pystr).

(** What [WikidataSubset(subset_name)] gives: the edges, and the labels
    when the object has a [get_labels] method. *)
Record Subset : Type :=
  { get_edges : list (pyval * pyval * pyval);
    get_labels : option (list (pyval * pystr)) }.

(** What one run of [load_subset] meets outside the program. *)
Record RunEnv : Type :=
  { dataset : result Subset;     (* the download and the two getters *)
    clock_ulid : Z;              (* the clock read by [generate_ulid] *)
    entropy : nat -> Z;          (* the draws of [generate_ulid] *)
    clock_ts : Z;                (* the clock read for [ts] *)
    clock_created : pystr;       (* [time.strftime("%Y-%m-%dT%H:%M:%SZ")] *)
    wrangler : pystr -> put_outcome  (* the upload command, by object path *)
  }.

(** [upload_to_r2(local_path, r2_path)], the local file holding [body]. *)
Definition upload_to_r2 (env : RunEnv) (body : bytes) (r2_path : pystr)
  : M unit :=
  fun w =>
    let out := wrangler env r2_path in
    let w' := w ++ [{| put_path := r2_path; put_body := body;
                       put_result := out |}] in
    match out with
    | Crashed => (Raise OSError, w')
    | _ => (Ok tt, w')
    end.

(** The variables [load_subset] shares with its closure [flush_chunk]. *)
Record Loader : Type :=
  { triples : list Triple.t;
    chunk_index : Z;
    total_triples : Z;
    total_bytes : Z }.

(** [f"https://wikidata.org/entity/Q{x}" if isinstance(x, int) else x] *)
Definition entity_iri (x : pyval) : pystr :=
  match x with
  | PyInt z => str "https://wikidata.org/entity/Q" ++ str_of_Z z
  | PyStr s => s
  end.

(** [f"P{r}" if isinstance(r, int) else r] *)
Definition predicate_code (r : pyval) : pystr :=
  match r with
  | PyInt z => str "P" ++ str_of_Z z
  | PyStr s => s
  end.

Definition chunk_id (index : Z) : pystr := str "chunk_" ++ format_06d index.

Definition chunk_path (subset_name : pystr) (index : Z) : pystr :=
  str "datasets/wikidata/" ++ subset_name ++ str "/chunks/"
  ++ chunk_id index ++ str ".graphcol".

Definition manifest_path (subset_name : pystr) : pystr :=
  str "datasets/wikidata/" ++ subset_name ++ str "/index.json".

Module Stats.
Record t : Type := mk { triples : Z; chunks : Z; bytes : Z }.
End Stats.

Module Manifest.
Record stats : Type :=
  { totalTriples : Z; totalChunks : Z; totalSizeBytes : Z }.
Record t : Type :=
  { version : Z; namespace : pystr; dataset : pystr; stats_ : stats;
    createdAt : pystr }.
End Manifest.

Definition manifest_json (m : Manifest.t) : json :=
  JObj [(str "version", JInt (Manifest.version m));
        (str "namespace", JStr (Manifest.namespace m));
        (str "dataset", JStr (Manifest.dataset m));
        (str "stats",
         JObj [(str "totalTriples",
                JInt (Manifest.totalTriples (Manifest.stats_ m)));
               (str "totalChunks",
                JInt (Manifest.totalChunks (Manifest.stats_ m)));
               (str "totalSizeBytes",
                JInt (Manifest.totalSizeBytes (Manifest.stats_ m)))]);
        (str "createdAt", JStr (Manifest.createdAt m))].

Section LoadSubset.

Variable chunk_size : Z.
Variable env : RunEnv.
Variable subset_name : pystr.

(** The closure [flush_chunk]. *)
Definition flush_chunk (st : Loader) : M Loader :=
  match triples st with
  | [] => ret st
  | _ :: _ =>
      let path := chunk_path subset_name (chunk_index st) in
      encoded <- lift (encode_graphcol (triples st) NAMESPACE) ;;
      let total_bytes' := total_bytes st + len encoded in
      _ <- upload_to_r2 env encoded path ;;
      ret {| triples := [];
             chunk_index := chunk_index st + 1;
             total_triples := total_triples st;
             total_bytes := total_bytes' |}
  end.

(** [triples.append(x); total_triples += 1;
     if len(triples) >= CHUNK_SIZE: flush_chunk()] *)
Definition add (x : Triple.t) (st : Loader) : M Loader :=
  let st' := {| triples := triples st ++ [x];
                chunk_index := chunk_index st;
                total_triples := total_triples st + 1;
                total_bytes := total_bytes st |} in
  if chunk_size <=? len (triples st') then flush_chunk st' else ret st'.

(** The triple of one edge [(s, r, o)]. *)
Definition edge_triple (tx_id : pystr) (ts : Z)
  (e : pyval * pyval * pyval) : Triple.t :=
  let '(s, r, o) := e in
  {| Triple.s := entity_iri s;
     Triple.p := predicate_code r;
     Triple.o := TypedValue.mk 10 (entity_iri o);
     Triple.ts := ts;
     Triple.tx := tx_id |}.

(** The triple of one label [(entity_id, label)]. *)
Definition label_triple (tx_id : pystr) (ts : Z) (l : pyval * pystr)
  : Triple.t :=
  let '(entity_id, label) := l in
  {| Triple.s := entity_iri entity_id;
     Triple.p := str "label";
     Triple.o := TypedValue.mk 5 label;
     Triple.ts := ts;
     Triple.tx := tx_id |}.

Definition build_manifest (st : Loader) : Manifest.t :=
  {| Manifest.version := 1;
     Manifest.namespace := NAMESPACE;
     Manifest.dataset := str "wikidata/" ++ subset_name;
     Manifest.stats_ :=
       {| Manifest.totalTriples := total_triples st;
          Manifest.totalChunks := chunk_index st;
          Manifest.totalSizeBytes := total_bytes st |};
     Manifest.createdAt := clock_created env |}.

(** [manifest_path.write_text(json.dumps(manifest, indent=2))]: the bytes
    of the local [index.json]. *)
Definition manifest_bytes (m : Manifest.t) : result bytes :=
  str_encode (Json.dumps_indent 2 0 (manifest_json m)).

(** [load_subset(subset_name)] *)
Definition load_subset : M Stats.t :=
  ds <- lift (dataset env) ;;
  let edges := get_edges ds in
  let labels := match get_labels ds with Some l => l | None => [] end in
  let tx_id := generate_ulid (clock_ulid env) (entropy env) in
  let ts := clock_ts env in
  let st := {| triples := []; chunk_index := 0;
               total_triples := 0; total_bytes := 0 |} in
  st <- for_each edges (fun e st => add (edge_triple tx_id ts e) st) st ;;
  st <- for_each labels (fun l st => add (label_triple tx_id ts l) st) st ;;
  st <- flush_chunk st ;;
  body <- lift (manifest_bytes (build_manifest st)) ;;
  _ <- upload_to_r2 env body (manifest_path subset_name) ;;
  ret (Stats.mk (total_triples st) (chunk_index st) (total_bytes st)).

End LoadSubset.

(** ** The driver *)

Definition subsets : list pystr :=
  [str "humans"; str "films"; str "companies"; str "countries";
   str "animals"].

(** [results[key] = value] on a dictionary kept in insertion order. *)
Fixpoint dict_set {V : Type} (d : list (pystr * V)) (key : pystr) (value : V)
  : list (pystr * V) :=
  match d with
  | [] => [(key, value)]
  | (k, x) :: d' =>
      if str_eqb k key then (k, value) :: d'
      else (k, x) :: dict_set d' key value
  end.

(** What [main] leaves: the summary of an [all] run (the per-dataset
    lines and the grand total it prints), a single loaded subset, or the
    usage message followed by [sys.exit(1)]. *)
Inductive MainOutcome : Type :=
| Summary (results : list (pystr * Stats.t)) (total : Stats.t)
| Loaded (stats : Stats.t)
| Exit (code : Z).

(** The loop that adds up [total] over [results.items()]. *)
Definition grand_total (results : list (pystr * Stats.t)) : Stats.t :=
  fold_left
    (fun total kv =>
       Stats.mk (Stats.triples total + Stats.triples (snd kv))
                (Stats.chunks total + Stats.chunks (snd kv))
                (Stats.bytes total + Stats.bytes (snd kv)))
    results (Stats.mk 0 0 0).

(** The body of [for s in subsets] with its [try] and [except]. *)
Definition load_guarded (envs : pystr -> RunEnv) (s : pystr)
  (results : list (pystr * Stats.t)) : M (list (pystr * Stats.t)) :=
  try_except
    (stats <- load_subset CHUNK_SIZE (envs s) s ;;
     ret (dict_set results s stats))
    (fun _ => ret results).

(** [main()]; [envs s] is what the run of subset [s] meets. *)
Definition main (envs : pystr -> RunEnv) (argv : list pystr)
  : M MainOutcome :=
  let subset := match argv with _ :: a :: _ => a | _ => str "all" end in
  if str_eqb subset (str "all") then
    results <- for_each subsets (load_guarded envs) [] ;;
    ret (Summary results (grand_total results))
  else if existsb (str_eqb subset) subsets then
    stats <- load_subset CHUNK_SIZE (envs subset) subset ;;
    ret (Loaded stats)
  else ret (Exit 1).

(** ** Vocabulary of the statements *)

(** The [n] low base-32 digits of [t] in the alphabet [ENCODING], most
    significant first. *)
Fixpoint base32 (n : nat) (t : Z) : pystr :=
  match n with
  | O => []
  | S k => base32 k (t / 32) ++ [str_get ENCODING (t mod 32)]
  end.

(** The sixteen characters drawn from the entropy source. *)
Definition random_part (rnd : nat -> Z) : pystr :=
  map (fun k => str_get ENCODING (randint (rnd k) 0 31)) (seq 0 16).

(** The number a run of decimal digits writes. *)
Definition decimal_value (ds : pystr) : N :=
  fold_left (fun a c => (10 * a + (c - 48))%N) ds 0%N.

Definition is_decimal (ds : pystr) : Prop :=
  Forall (fun c => (48 <= c <= 57)%N) ds.

(** A string whose JSON text reads back as the same string: every code
    point is below [0x110000] and no high surrogate is directly followed
    by a low surrogate (the escapes of such a pair are those of one
    character above the basic plane). *)
Fixpoint unambiguous (s : pystr) : Prop :=
  match s with
  | [] => True
  | c :: r =>
      (c < 1114112)%N
      /\ (Decode.is_high c = true ->
          match r with d :: _ => Decode.is_low d = false | [] => True end)
      /\ unambiguous r
  end.

(** A string of Unicode scalar values: no surrogate code point at all. *)
Definition scalar_text (s : pystr) : Prop :=
  Forall (fun c => (c < 55296 \/ 57343 < c < 1114112)%N) s.

Fixpoint json_ok (j : json) : Prop :=
  match j with
  | JInt _ => True
  | JStr s => unambiguous s
  | JArr l => fold_right (fun x acc => json_ok x /\ acc) True l
  | JObj m =>
      fold_right
        (fun kv acc => unambiguous (fst kv) /\ json_ok (snd kv) /\ acc)
        True m
  end.

(** Fuel that suffices to parse the text of a value. *)
Fixpoint json_size (j : json) : nat :=
  match j with
  | JInt _ => 1
  | JStr s => 2 + length s
  | JArr l => 1 + fold_right (fun x acc => 1 + json_size x + acc)%nat 0%nat l
  | JObj m =>
      1 + fold_right
            (fun kv acc =>
               2 + length (fst kv) + json_size (snd kv) + acc)%nat 0%nat m
  end.

(** The text that follows an integer must not go on with a digit. *)
Definition follow_ok (rest : pystr) : Prop :=
  match rest with
  | c :: _ => Decode.is_digit c = false
  | [] => True
  end.

Definition is_ascii (s : pystr) : Prop := Forall (fun c => (c < 128)%N) s.

Definition triple_ok (x : Triple.t) : Prop :=
  unambiguous (Triple.s x) /\ unambiguous (Triple.p x)
  /\ unambiguous (TypedValue.v (Triple.o x)) /\ unambiguous (Triple.tx x).

(** The text [r] does not go on with the escape of a low surrogate. *)
Definition no_low_escape (r : pystr) : Prop :=
  match r with
  | b :: l :: r3 =>
      ((b =? 92) && (l =? 117))%N = false
      \/ exists u2 r4,
           Decode.parse_hex4 r3 = Some (u2, r4) /\ Decode.is_low u2 = false
  | _ => True
  end.

(** The parser reads the text of [j] back, whatever follows it. *)
Definition reads_back (j : json) : Prop :=
  forall (fuel : nat) (rest : pystr),
    (json_size j <= fuel)%nat -> follow_ok rest ->
    Decode.parse_value fuel (Json.dumps j ++ rest) = Some (j, rest).

(** The text of one member of a dictionary. *)
Definition member_text (kv : pystr * json) : pystr :=
  Json.encode_basestring_ascii (fst kv) ++ str ": " ++ Json.dumps (snd kv).

(** A key between quotes. *)
Definition quoted (s : pystr) : pystr := 34%N :: s ++ [34%N].

(** The text of one triple inside a chunk. *)
Definition triple_text (x : Triple.t) : pystr :=
  str "{" ++ quoted (str "s") ++ str ": "
  ++ Json.encode_basestring_ascii (Triple.s x) ++ str ", "
  ++ quoted (str "p") ++ str ": "
  ++ Json.encode_basestring_ascii (Triple.p x) ++ str ", "
  ++ quoted (str "o") ++ str ": {"
  ++ quoted (str "t") ++ str ": "
  ++ str_of_Z (TypedValue.t_ (Triple.o x)) ++ str ", "
  ++ quoted (str "v") ++ str ": "
  ++ Json.encode_basestring_ascii (TypedValue.v (Triple.o x)) ++ str "}, "
  ++ quoted (str "ts") ++ str ": " ++ str_of_Z (Triple.ts x) ++ str ", "
  ++ quoted (str "tx") ++ str ": "
  ++ Json.encode_basestring_ascii (Triple.tx x) ++ str "}".

(** The text of a chunk: the version, the namespace, then the triples in
    their order. *)
Definition graphcol_text (triples : list Triple.t) (namespace : pystr)
  : pystr :=
  str "{" ++ quoted (str "version") ++ str ": 1, "
  ++ quoted (str "namespace") ++ str ": "
  ++ Json.encode_basestring_ascii namespace ++ str ", "
  ++ quoted (str "triples") ++ str ": ["
  ++ Json.join (str ", ") (map triple_text triples) ++ str "]}".

(** The triple of scenario D and a label triple, with tags 10 and 5. *)
Definition q42_triple : Triple.t :=
  {| Triple.s := str "https://wikidata.org/entity/Q1";
     Triple.p := str "P31";
     Triple.o := TypedValue.mk 10 (str "https://wikidata.org/entity/Q42");
     Triple.ts := 1730000000000;
     Triple.tx := str "01JB60J50007ENW3AHRZ6DMV29" |}.

Definition label_example : Triple.t :=
  {| Triple.s := str "https://wikidata.org/entity/Q42";
     Triple.p := str "label";
     Triple.o := TypedValue.mk 5 [68; 111; 117; 103; 108; 97; 115; 32;
                                  233; 28450; 128512; 34; 92; 10]%N;
     Triple.ts := 1730000000000;
     Triple.tx := str "01JB60J50007ENW3AHRZ6DMV29" |}.

(** A subject written as the two halves of a surrogate pair, and the same
    subject written as the one character U+1F600. *)
Definition pair_triple : Triple.t :=
  {| Triple.s := [55357; 56832]%N;
     Triple.p := str "label";
     Triple.o := TypedValue.mk 5 (str "x");
     Triple.ts := 0;
     Triple.tx := str "01JB60J50007ENW3AHRZ6DMV29" |}.

Definition single_triple : Triple.t :=
  {| Triple.s := [128512]%N;
     Triple.p := str "label";
     Triple.o := TypedValue.mk 5 (str "x");
     Triple.ts := 0;
     Triple.tx := str "01JB60J50007ENW3AHRZ6DMV29" |}.

(** *** Chunks of a run *)

Section Chunking.

Context {A : Type}.

(** The chunks the loop over [xs] flushes when it starts with the buffer
    [buf], and the buffer it leaves. *)
Fixpoint flushed (C : Z) (buf xs : list A) : list (list A) :=
  match xs with
  | [] => []
  | x :: xs' =>
      let buf' := buf ++ [x] in
      if C <=? len buf' then buf' :: flushed C [] xs'
      else flushed C buf' xs'
  end.

Fixpoint pending (C : Z) (buf xs : list A) : list A :=
  match xs with
  | [] => buf
  | x :: xs' =>
      let buf' := buf ++ [x] in
      if C <=? len buf' then pending C [] xs' else pending C buf' xs'
  end.

(** All the chunks of a run over [xs]: those of the loop, then the rest
    of the buffer if there is one. *)
Definition chunks_of (C : Z) (xs : list A) : list (list A) :=
  flushed C [] xs
  ++ match pending C [] xs with [] => [] | r => [r] end.

End Chunking.

(** The triples a run produces, in the order it adds them: the edges,
    then the labels. *)
Definition run_triples (env : RunEnv) (ds : Subset) : list Triple.t :=
  let tx_id := generate_ulid (clock_ulid env) (entropy env) in
  let ts := clock_ts env in
  map (edge_triple tx_id ts) (get_edges ds)
  ++ map (label_triple tx_id ts)
       (match get_labels ds with Some l => l | None => [] end).

(** The bytes of a chunk. *)
Definition chunk_body (c : list Triple.t) : bytes :=
  Json.dumps (graphcol_json c NAMESPACE).

(** The upload of chunk number [i]. *)
Definition chunk_put (env : RunEnv) (subset_name : pystr) (i : Z)
  (c : list Triple.t) : PutEvent :=
  {| put_path := chunk_path subset_name i;
     put_body := chunk_body c;
     put_result := wrangler env (chunk_path subset_name i) |}.

(** The uploads of consecutive chunks, numbered from [i]. *)
Fixpoint chunk_puts (env : RunEnv) (subset_name : pystr) (i : Z)
  (cs : list (list Triple.t)) : World :=
  match cs with
  | [] => []
  | c :: cs' =>
      chunk_put env subset_name i c :: chunk_puts env subset_name (i + 1) cs'
  end.

(** The upload of the manifest. *)
Definition manifest_put (env : RunEnv) (subset_name : pystr)
  (m : Manifest.t) : PutEvent :=
  {| put_path := manifest_path subset_name;
     put_body := Json.dumps_indent 2 0 (manifest_json m);
     put_result := wrangler env (manifest_path subset_name) |}.

(** Sum of a list of integers. *)
Definition sumZ (l : list Z) : Z := fold_right Z.add 0 l.

(** The command never fails to start. *)
Definition starts (env : RunEnv) : Prop :=
  forall path, wrangler env path <> Crashed.

Definition is_stored (e : PutEvent) : bool :=
  match put_result e with Stored => true | _ => false end.

Definition is_rejected (e : PutEvent) : bool :=
  match put_result e with Rejected => true | _ => false end.

(** The chunks of [cs], numbered from [i], whose upload was stored. *)
Fixpoint stored_chunks (env : RunEnv) (subset_name : pystr) (i : Z)
  (cs : list (list Triple.t)) : list (list Triple.t) :=
  match cs with
  | [] => []
  | c :: cs' =>
      if is_stored (chunk_put env subset_name i c)
      then c :: stored_chunks env subset_name (i + 1) cs'
      else stored_chunks env subset_name (i + 1) cs'
  end.

(** The bytes of a list of chunks. *)
Definition bytes_of (cs : list (list Triple.t)) : Z :=
  sumZ (map (fun c => len (chunk_body c)) cs).

(** The manifest of a run over the dataset [ds]. *)
Definition run_manifest (C : Z) (env : RunEnv) (subset_name : pystr)
  (ds : Subset) : Manifest.t :=
  let all := run_triples env ds in
  let chunks := chunks_of C all in
  {| Manifest.version := 1;
     Manifest.namespace := NAMESPACE;
     Manifest.dataset := str "wikidata/" ++ subset_name;
     Manifest.stats_ :=
       {| Manifest.totalTriples := len all;
          Manifest.totalChunks := len chunks;
          Manifest.totalSizeBytes := bytes_of chunks |};
     Manifest.createdAt := clock_created env |}.

(** The uploads of a whole run: the chunks, then the manifest. *)
Definition run_puts (C : Z) (env : RunEnv) (subset_name : pystr)
  (ds : Subset) : World :=
  chunk_puts env subset_name 0 (chunks_of C (run_triples env ds))
  ++ [manifest_put env subset_name (run_manifest C env subset_name ds)].

(** What a completed run returns. *)
Definition run_stats (C : Z) (env : RunEnv) (ds : Subset) : Stats.t :=
  let all := run_triples env ds in
  let chunks := chunks_of C all in
  Stats.mk (len all) (len chunks) (bytes_of chunks).

(** *** A small dataset for the examples *)

Definition example_subset : Subset :=
  {| get_edges :=
       [(PyInt 1, PyInt 31, PyInt 5);
        (PyInt 2, PyStr (str "P279"), PyInt 5);
        (PyStr (str "x"), PyInt 31, PyInt (-5))];
     get_labels := Some [(PyInt 1, str "one"); (PyInt 2, [233%N])] |}.

Definition example_env (outcome : pystr -> put_outcome) : RunEnv :=
  {| dataset := Ok example_subset;
     clock_ulid := 1730000000000;
     entropy := fun k => Z.of_nat k * 7;
     clock_ts := 1730000000001;
     clock_created := str "2024-10-27T03:33:20Z";
     wrangler := outcome |}.

Definition all_stored : pystr -> put_outcome := fun _ => Stored.

(** The upload of chunk [000001] of [humans] fails, the others succeed. *)
Definition second_rejected : pystr -> put_outcome :=
  fun path =>
    if str_eqb path (chunk_path (str "humans") 1) then Rejected
    else Stored.

(** *** The multi-dataset run *)

(** What the run of subset [s] returns and what it uploads, taken alone. *)
Definition outcome (envs : pystr -> RunEnv) (s : pystr) : result Stats.t :=
  fst (load_subset CHUNK_SIZE (envs s) s []).

Definition uploads (envs : pystr -> RunEnv) (s : pystr) : World :=
  snd (load_subset CHUNK_SIZE (envs s) s []).

(** What a dataset adds to the grand total. *)
Definition contribution (r : result Stats.t) : Stats.t :=
  match r with
  | Ok stats => stats
  | Raise _ => Stats.mk 0 0 0
  end.

Definition stats_add (a b : Stats.t) : Stats.t :=
  Stats.mk (Stats.triples a + Stats.triples b)
           (Stats.chunks a + Stats.chunks b)
           (Stats.bytes a + Stats.bytes b).

Definition stats_sum (l : list Stats.t) : Stats.t :=
  fold_right stats_add (Stats.mk 0 0 0) l.

(** The lines of the summary: the datasets that were loaded, in order. *)
Definition loaded (envs : pystr -> RunEnv) (ss : list pystr)
  : list (pystr * Stats.t) :=
  flat_map
    (fun s => match outcome envs s with
              | Ok stats => [(s, stats)]
              | Raise _ => []
              end) ss.

(** A computation only appends to the log of uploads, and what it does
    does not depend on the log it starts from. *)
Definition framed {A : Type} (m : M A) : Prop :=
  forall w, m w = (fst (m []), w ++ snd (m [])).

(** An environment in which [films] cannot be downloaded and the upload
    command dies on the second chunk of [countries]. *)
Definition flaky_envs (s : pystr) : RunEnv :=
  {| dataset :=
       if str_eqb s (str "films") then Raise SourceError
       else Ok example_subset;
     clock_ulid := 1730000000000;
     entropy := fun k => Z.of_nat k * 7;
     clock_ts := 1730000000001;
     clock_created := str "2024-10-27T03:33:20Z";
     wrangler :=
       fun path =>
         if str_eqb path (manifest_path (str "countries"))
         then Crashed else Stored |}.

(** *** Vocabulary of the further properties *)

(** The position of the first [c] in [s]; the length of [s] when there is
    none. *)
Fixpoint position (c : N) (s : pystr) : Z :=
  match s with
  | [] => 0
  | x :: s' => if (x =? c)%N then 0 else 1 + position c s'
  end.

(** The number a string over the alphabet [ENCODING] writes in base 32,
    most significant digit first. *)
Definition base32_value (s : pystr) : Z :=
  fold_left (fun a c => 32 * a + position c ENCODING) s 0.

Definition is_crashed (e : PutEvent) : bool :=
  match put_result e with Crashed => true | _ => false end.

(** The uploads of [w] up to the first one whose command could not start,
    that one included; all of [w] when there is none. *)
Fixpoint until_crash (w : World) : World :=
  match w with
  | [] => []
  | e :: w' => if is_crashed e then [e] else e :: until_crash w'
  end.

(** The upload command cannot start for chunk [000001] of [humans]. *)
Definition second_crashed : pystr -> put_outcome :=
  fun path =>
    if str_eqb path (chunk_path (str "humans") 1) then Crashed else Stored.

(** A state of the loader in the middle of a run: one triple waits in the
    buffer and one chunk has been flushed. *)
Definition example_state : Loader :=
  {| triples := [q42_triple]; chunk_index := 1;
     total_triples := 3; total_bytes := 400 |}.

(** The object paths of subset [s] all lie under this prefix. *)
Definition subset_prefix (s : pystr) : pystr :=
  str "datasets/wikidata/" ++ s ++ str "/".

Definition under (prefix path : pystr) : Prop :=
  exists tail, path = prefix ++ tail.

(** The integer a decimal text writes, with its sign. *)
Definition Z_of_str (s : pystr) : Z :=
  match s with
  | c :: ds =>
      if (c =? 45)%N then - Z.of_N (decimal_value ds)
      else Z.of_N (decimal_value s)
  | [] => 0
  end.

Definition all_ws (s : pystr) : Prop :=
  Forall (fun c => Decode.is_ws c = true) s.

(** The parser reads the indented text of [j] back, at any depth and
    whatever follows it. *)
Definition reads_back_indent (indent : nat) (j : json) : Prop :=
  forall (level fuel : nat) (rest : pystr),
    (json_size j <= fuel)%nat -> follow_ok rest ->
    Decode.parse_value fuel (Json.dumps_indent indent level j ++ rest)
    = Some (j, rest).

(** The text of one member of a dictionary written with indentation. *)
Definition member_text_indent (indent level : nat) (kv : pystr * json)
  : pystr :=
  Json.encode_basestring_ascii (fst kv) ++ str ": "
  ++ Json.dumps_indent indent level (snd kv).

(** The strings of a manifest are unambiguous. *)
Definition manifest_ok (m : Manifest.t) : Prop :=
  unambiguous (Manifest.namespace m) /\ unambiguous (Manifest.dataset m)
  /\ unambiguous (Manifest.createdAt m).

(** A dataset without edges and without labels. *)
Definition empty_subset : Subset := {| get_edges := []; get_labels := None |}.

Definition empty_env : RunEnv :=
  {| dataset := Ok empty_subset;
     clock_ulid := 1730000000000;
     entropy := fun k => Z.of_nat k * 7;
     clock_ts := 1730000000001;
     clock_created := str "2024-10-27T03:33:20Z";
     wrangler := all_stored |}.

(** Four edges, to be cut in chunks of two. *)
Definition even_subset : Subset :=
  {| get_edges :=
       [(PyInt 1, PyInt 31, PyInt 5); (PyInt 2, PyInt 31, PyInt 5);
        (PyInt 3, PyInt 31, PyInt 5); (PyInt 4, PyInt 31, PyInt 5)];
     get_labels := None |}.

Definition even_env : RunEnv :=
  {| dataset := Ok even_subset;
     clock_ulid := 1730000000000;
     entropy := fun k => Z.of_nat k * 7;
     clock_ts := 1730000000001;
     clock_created := str "2024-10-27T03:33:20Z";
     wrangler := all_stored |}.

(** * Properties *)

(** Linear arithmetic with division and remainder by constants. *)
Ltac dlia := zify; Z.to_euclidean_division_equations; lia.

(** ** Comparison of strings *)

Lemma str_compare_refl (a : pystr) : str_compare a a = Eq.
Proof.
  induction a as [|x a IH]; simpl; [reflexivity|].
  now rewrite N.compare_refl.
Qed.

Lemma str_compare_app_same (x u v : pystr) :
  str_compare (x ++ u) (x ++ v) = str_compare u v.
Proof.
  induction x as [|c x IH]; simpl; [reflexivity|].
  now rewrite N.compare_refl.
Qed.

Lemma str_lt_app (x y u v : pystr) :
  length x = length y -> str_lt x y -> str_lt (x ++ u) (y ++ v).
Proof.
  unfold str_lt. revert y.
  induction x as [|c x IH]; intros [|d y] Hlen Hlt; simpl in *;
    try discriminate.
  destruct (c ?= d)%N; try discriminate; auto.
Qed.

(** ** The time prefix of an identifier *)

Lemma StronglySorted_nth {A : Type} (R : A -> A -> Prop) (l : list A) (d : A) :
  StronglySorted R l ->
  forall i j, (i < j < length l)%nat -> R (nth i l d) (nth j l d).
Proof.
  induction 1 as [|a l Hs IH Hall]; intros i j Hij; simpl in *; [lia|].
  destruct j as [|j]; [lia|].
  destruct i as [|i].
  - rewrite Forall_forall in Hall. apply Hall, nth_In. lia.
  - apply IH. lia.
Qed.

Lemma ENCODING_sorted : StronglySorted N.lt ENCODING.
Proof.
  unfold ENCODING, str; simpl.
  repeat (constructor; [|repeat constructor; reflexivity]).
  constructor.
Qed.

Lemma ENCODING_increasing (i j : Z) :
  0 <= i -> i < j -> j < 32 ->
  (str_get ENCODING i < str_get ENCODING j)%N.
Proof.
  intros Hi Hij Hj. unfold str_get.
  apply StronglySorted_nth; [exact ENCODING_sorted|].
  change (length ENCODING) with 32%nat. lia.
Qed.

Lemma base32_length (n : nat) (t : Z) : length (base32 n t) = n.
Proof.
  revert t. induction n as [|n IH]; intros t; simpl; [reflexivity|].
  rewrite length_app, IH. simpl. lia.
Qed.

Lemma ulid_time_base32 (n : nat) (now : Z) (acc : pystr) :
  snd (ulid_time n now acc) = base32 n now ++ acc.
Proof.
  revert now acc. induction n as [|n IH]; intros now acc; simpl.
  - reflexivity.
  - rewrite IH, <- app_assoc. reflexivity.
Qed.

Lemma ulid_random_map (n k : nat) (rnd : nat -> Z) (acc : pystr) :
  ulid_random n k rnd acc
  = acc ++ map (fun i => str_get ENCODING (randint (rnd i) 0 31)) (seq k n).
Proof.
  revert k acc. induction n as [|n IH]; intros k acc; simpl.
  - now rewrite app_nil_r.
  - rewrite IH, <- app_assoc. reflexivity.
Qed.

(** An identifier is its ten time digits followed by its sixteen random
    characters. *)
Lemma generate_ulid_parts (now : Z) (rnd : nat -> Z) :
  generate_ulid now rnd = base32 10 now ++ random_part rnd.
Proof.
  unfold generate_ulid.
  rewrite ulid_time_base32, app_nil_r, ulid_random_map.
  unfold random_part. apply firstn_all2.
  rewrite length_app, base32_length, length_map, length_seq. lia.
Qed.

Lemma generate_ulid_length (now : Z) (rnd : nat -> Z) :
  length (generate_ulid now rnd) = 26%nat.
Proof.
  rewrite generate_ulid_parts, length_app, base32_length.
  unfold random_part. now rewrite length_map, length_seq.
Qed.

Lemma firstn_length_app {A : Type} (n : nat) (x y : list A) :
  length x = n -> firstn n (x ++ y) = x.
Proof.
  intros <-. induction x as [|a x IH]; simpl.
  - reflexivity.
  - now rewrite IH.
Qed.

Lemma generate_ulid_prefix (now : Z) (rnd : nat -> Z) :
  firstn 10 (generate_ulid now rnd) = base32 10 now.
Proof.
  rewrite generate_ulid_parts.
  apply firstn_length_app, base32_length.
Qed.

Lemma base32_lt (n : nat) (a b : Z) :
  0 <= a -> a < b -> b < 32 ^ Z.of_nat n ->
  str_lt (base32 n a) (base32 n b).
Proof.
  revert a b. induction n as [|n IH]; intros a b Ha Hab Hb.
  - simpl in Hb. lia.
  - rewrite Nat2Z.inj_succ, Z.pow_succ_r in Hb by lia.
    simpl.
    assert (Hq : a / 32 < b / 32 \/ (a / 32 = b / 32 /\ a mod 32 < b mod 32))
      by (Z.div_mod_to_equations; lia).
    destruct Hq as [Hq | [Hq Hr]].
    + apply str_lt_app.
      * now rewrite !base32_length.
      * apply IH; Z.div_mod_to_equations; lia.
    + rewrite Hq. unfold str_lt. rewrite str_compare_app_same. simpl.
      assert (Hlt : (str_get ENCODING (a mod 32)
                     < str_get ENCODING (b mod 32))%N).
      { apply ENCODING_increasing; Z.div_mod_to_equations; lia. }
      unfold N.lt in Hlt. now rewrite Hlt.
Qed.

(** C5 (as amended): two identifiers generated at clock values
    [0 <= t1 < t2 < 32^10] milliseconds compare in generation order, and
    so do their ten character time prefixes, whatever the entropy; within
    one millisecond the entropy alone decides, and a later identifier can
    be the smaller one. *)
Theorem generate_ulid_monotone (t1 t2 : Z) (r1 r2 : nat -> Z) :
  0 <= t1 -> t1 < t2 -> t2 < 32 ^ 10 ->
  str_lt (firstn 10 (generate_ulid t1 r1)) (firstn 10 (generate_ulid t2 r2))
  /\ str_lt (generate_ulid t1 r1) (generate_ulid t2 r2)
  /\ str_lt (generate_ulid t1 (fun _ => 0)) (generate_ulid t1 (fun _ => 1))
  /\ str_lt (generate_ulid t2 (fun _ => 0)) (generate_ulid t2 (fun _ => 1)).
Proof.
  intros H0 H12 H2.
  assert (Hp : str_lt (base32 10 t1) (base32 10 t2))
    by (apply base32_lt; assumption).
  repeat split.
  - now rewrite !generate_ulid_prefix.
  - rewrite !generate_ulid_parts. apply str_lt_app; [|exact Hp].
    now rewrite !base32_length.
  - rewrite !generate_ulid_parts. unfold str_lt.
    rewrite str_compare_app_same. reflexivity.
  - rewrite !generate_ulid_parts. unfold str_lt.
    rewrite str_compare_app_same. reflexivity.
Qed.

Lemma generate_ulid_monotone_witness :
  (0 <= 1730000000000 /\ 1730000000000 < 1730000000001
   /\ 1730000000001 < 32 ^ 10)
  /\ str_lt (generate_ulid 1730000000000 (fun _ => 31))
            (generate_ulid 1730000000001 (fun _ => 0)).
Proof.
  split; [lia|].
  apply (generate_ulid_monotone 1730000000000 1730000000001
           (fun _ => 31) (fun _ => 0)); lia.
Defined.

(** C5 (as stated, refuted): the time prefix holds fifty bits, so the
    clock values [32^10 - 1] and [32^10] give identifiers in the reverse
    order. *)
Lemma generate_ulid_wraps :
  32 ^ 10 - 1 < 32 ^ 10
  /\ str_lt (generate_ulid (32 ^ 10) (fun _ => 0))
            (generate_ulid (32 ^ 10 - 1) (fun _ => 0))
  /\ ~ str_lt (generate_ulid (32 ^ 10 - 1) (fun _ => 0))
              (generate_ulid (32 ^ 10) (fun _ => 0)).
Proof.
  split; [lia|]. split; [reflexivity|].
  unfold str_lt. vm_compute. discriminate.
Qed.

(** ** Decimal notation *)

Lemma digits_aux_acc (f : nat) (n : N) (acc : pystr) :
  digits_aux f n acc = digits_aux f n [] ++ acc.
Proof.
  revert n acc. induction f as [|f IH]; intros n acc; simpl; [reflexivity|].
  destruct (n / 10 =? 0)%N; [reflexivity|].
  rewrite IH, (IH _ [_]), <- app_assoc. reflexivity.
Qed.

Lemma digits_aux_fuel (f : nat) :
  forall (n : N) (acc : pystr) (g : nat),
    (n < 2 ^ N.of_nat f)%N -> (0 < f)%nat -> (f <= g)%nat ->
    digits_aux g n acc = digits_aux f n acc.
Proof.
  induction f as [|f IH]; intros n acc g Hn Hf Hg; [lia|].
  destruct g as [|g]; [lia|]. simpl.
  destruct (n / 10 =? 0)%N eqn:Hq; [reflexivity|].
  apply N.eqb_neq in Hq.
  rewrite Nat2N.inj_succ, N.pow_succ_r' in Hn.
  assert (Hlt : (n / 10 < 2 ^ N.of_nat f)%N).
  { apply N.Div0.div_lt_upper_bound.
    lia. }
  apply IH; try lia.
  destruct f as [|f]; [|lia].
  change (2 ^ N.of_nat 0)%N with 1%N in Hlt.
  exfalso. apply Hq. now apply N.lt_1_r.
Qed.

Lemma str_of_N_small (n : N) : (n < 10)%N -> str_of_N n = [(48 + n)%N].
Proof.
  intros Hn. unfold str_of_N. simpl.
  rewrite N.div_small, N.mod_small by assumption. reflexivity.
Qed.

Lemma str_of_N_step (n : N) :
  (10 <= n)%N -> str_of_N n = str_of_N (n / 10) ++ [(48 + n mod 10)%N].
Proof.
  intros Hn. unfold str_of_N at 1. simpl.
  assert (Hq : (0 < n / 10)%N).
  { apply N.div_str_pos. lia. }
  destruct (n / 10 =? 0)%N eqn:E; [apply N.eqb_eq in E; lia|].
  rewrite digits_aux_acc. f_equal.
  unfold str_of_N. apply digits_aux_fuel; try lia.
  - rewrite Nat2N.inj_succ, N2Nat.id.
    apply N.log2_spec. exact Hq.
  - assert (Hd : (N.log2 (2 * (n / 10)) <= N.log2 n)%N).
    { apply N.log2_le_mono.
      pose proof (N.Div0.mul_div_le n 10). lia. }
    rewrite N.log2_double in Hd by exact Hq. lia.
Qed.

(** Induction along the decimal digits of a number. *)
Lemma decimal_ind (P : N -> Prop) :
  (forall n, (n < 10)%N -> P n) ->
  (forall n, (10 <= n)%N -> P (n / 10)%N -> P n) ->
  forall n, P n.
Proof.
  intros Hsmall Hstep n.
  induction n as [n IH] using (well_founded_induction N.lt_wf_0).
  destruct (N.ltb_spec n 10) as [H|H]; [now apply Hsmall|].
  apply Hstep; [assumption|]. apply IH.
  apply N.div_lt; lia.
Qed.

Lemma str_of_N_is_decimal (n : N) : is_decimal (str_of_N n).
Proof.
  unfold is_decimal. induction n as [n Hn | n Hn IH] using decimal_ind.
  - rewrite str_of_N_small by assumption. constructor; [lia|constructor].
  - rewrite str_of_N_step by assumption.
    apply Forall_app. split; [exact IH|].
    constructor; [|constructor].
    dlia.
Qed.

Lemma str_of_N_length_pos (n : N) : (1 <= length (str_of_N n))%nat.
Proof.
  destruct (N.ltb_spec n 10) as [H|H].
  - rewrite str_of_N_small by assumption. simpl. lia.
  - rewrite str_of_N_step, length_app by assumption. simpl. lia.
Qed.

Lemma str_of_N_length_le (n : N) :
  forall k : nat, (n < 10 ^ N.of_nat (S k))%N ->
                  (length (str_of_N n) <= S k)%nat.
Proof.
  induction n as [n Hn | n Hn IH] using decimal_ind; intros k Hk.
  - rewrite str_of_N_small by assumption. simpl. lia.
  - rewrite str_of_N_step, length_app by assumption. simpl.
    destruct k as [|k]; [change (10 ^ N.of_nat 1)%N with 10%N in Hk; lia|].
    rewrite (Nat2N.inj_succ (S k)), N.pow_succ_r' in Hk.
    assert (n / 10 < 10 ^ N.of_nat (S k))%N
      by (apply N.Div0.div_lt_upper_bound; exact Hk).
    apply IH in H. lia.
Qed.

Lemma decimal_value_snoc (ds : pystr) (c : N) :
  decimal_value (ds ++ [c]) = (10 * decimal_value ds + (c - 48))%N.
Proof. unfold decimal_value. now rewrite fold_left_app. Qed.

Lemma decimal_value_str_of_N (n : N) : decimal_value (str_of_N n) = n.
Proof.
  induction n as [n Hn | n Hn IH] using decimal_ind.
  - rewrite str_of_N_small by assumption. unfold decimal_value.
    cbn [fold_left]. lia.
  - rewrite str_of_N_step, decimal_value_snoc, IH by assumption.
    dlia.
Qed.

Lemma decimal_value_zeros (k : nat) (ds : pystr) :
  decimal_value (repeat 48%N k ++ ds) = decimal_value ds.
Proof.
  unfold decimal_value. rewrite fold_left_app. f_equal.
  induction k as [|k IH]; simpl; [reflexivity|exact IH].
Qed.

(** Below a million, the [06d] format writes six digits that read back as
    the number. *)
Lemma format_06d_six (i : Z) :
  0 <= i < 1000000 ->
  length (format_06d i) = 6%nat
  /\ is_decimal (format_06d i)
  /\ decimal_value (format_06d i) = Z.to_N i.
Proof.
  intros Hi. unfold format_06d.
  destruct (Z.ltb_spec i 0) as [H|_]; [lia|].
  assert (Habs : Z.abs_N i = Z.to_N i) by (destruct i; simpl; lia || reflexivity).
  rewrite Habs.
  assert (Hlen : (length (str_of_N (Z.to_N i)) <= 6)%nat).
  { apply (str_of_N_length_le _ 5).
    change (10 ^ N.of_nat 6)%N with 1000000%N. lia. }
  repeat split.
  - rewrite length_app, repeat_length. lia.
  - apply Forall_app. split; [|apply str_of_N_is_decimal].
    apply Forall_forall. intros c Hc. apply repeat_spec in Hc. subst c. lia.
  - rewrite decimal_value_zeros. apply decimal_value_str_of_N.
Qed.

(** The [06d] format of an index writes the index in decimal, padded
    with zeros to six digits at least. *)
Lemma format_06d_value (i : Z) :
  0 <= i -> decimal_value (format_06d i) = Z.to_N i.
Proof.
  intros Hi. unfold format_06d.
  destruct (Z.ltb_spec i 0) as [H|_]; [lia|].
  rewrite decimal_value_zeros, decimal_value_str_of_N.
  destruct i; simpl; lia || reflexivity.
Qed.

Lemma format_06d_padded (i : Z) :
  0 <= i ->
  is_decimal (format_06d i) /\ (6 <= length (format_06d i))%nat.
Proof.
  intros Hi. unfold format_06d.
  destruct (Z.ltb_spec i 0) as [H|_]; [lia|]. split.
  - apply Forall_app. split; [|apply str_of_N_is_decimal].
    apply Forall_forall. intros c Hc. apply repeat_spec in Hc. subst c. lia.
  - rewrite length_app, repeat_length. lia.
Qed.

(** ** Escapes of [json.dumps] and their reading *)

Lemma hex_val_hex_digit (d : N) :
  (d < 16)%N -> Decode.hex_val (Json.hex_digit d) = Some d.
Proof.
  intros Hd. unfold Json.hex_digit, Decode.hex_val.
  destruct (N.ltb_spec d 10) as [H|H].
  - replace ((48 <=? 48 + d) && (48 + d <=? 57))%N with true.
    + f_equal. lia.
    + symmetry. apply andb_true_iff. split; apply N.leb_le; lia.
  - replace ((48 <=? 87 + d) && (87 + d <=? 57))%N with false.
    + replace ((97 <=? 87 + d) && (87 + d <=? 102))%N with true.
      * f_equal. lia.
      * symmetry. apply andb_true_iff. split; apply N.leb_le; lia.
    + symmetry. apply andb_false_iff. right. apply N.leb_gt. lia.
Qed.

Lemma parse_hex4_hex4 (n : N) (r : pystr) :
  (n < 65536)%N -> Decode.parse_hex4 (Json.hex4 n ++ r) = Some (n, r).
Proof.
  intros Hn. unfold Json.hex4, Decode.parse_hex4. cbn [app].
  rewrite !hex_val_hex_digit by dlia.
  f_equal. f_equal. dlia.
Qed.

Lemma lor_shifted (h l k : N) :
  (l < 2 ^ k)%N -> N.lor (h * 2 ^ k) l = (h * 2 ^ k + l)%N.
Proof.
  intros Hl.
  assert (Hand : N.land (h * 2 ^ k) l = 0%N).
  { apply N.bits_inj_0. intros i. rewrite N.land_spec.
    destruct (N.ltb_spec i k) as [H|H].
    - now rewrite N.mul_pow2_bits_low.
    - rewrite <- (N.mod_small l (2 ^ k)) by assumption.
      rewrite N.mod_pow2_bits_high by assumption.
      apply andb_false_r. }
  rewrite <- N.lxor_lor by assumption.
  symmetry. now apply N.add_nocarry_lxor.
Qed.

(** The two halves of the surrogate pair written for a character above
    the basic plane. *)
Lemma surrogate_high (n : N) :
  (n < 1048576)%N ->
  N.lor 55296 (N.land (N.shiftr n 10) 1023) = (55296 + n / 1024)%N.
Proof.
  intros Hn.
  change 1023%N with (N.ones 10).
  rewrite N.land_ones, N.shiftr_div_pow2.
  change (2 ^ 10)%N with 1024%N.
  rewrite N.mod_small by dlia.
  change 55296%N with (54 * 2 ^ 10)%N at 1.
  rewrite lor_shifted; [reflexivity|]. change (2 ^ 10)%N with 1024%N. dlia.
Qed.

Lemma surrogate_low (n : N) :
  N.lor 56320 (N.land n 1023) = (56320 + n mod 1024)%N.
Proof.
  change 1023%N with (N.ones 10).
  rewrite N.land_ones.
  change (2 ^ 10)%N with 1024%N.
  change 56320%N with (55 * 2 ^ 10)%N at 1.
  rewrite lor_shifted; [reflexivity|]. change (2 ^ 10)%N with 1024%N. dlia.
Qed.

Lemma surrogate_join (n : N) :
  (n < 1048576)%N ->
  (65536 + N.lor (N.shiftl (55296 + n / 1024 - 55296) 10)
                 (56320 + n mod 1024 - 56320))%N
  = (65536 + n)%N.
Proof.
  intros Hn.
  replace (55296 + n / 1024 - 55296)%N with (n / 1024)%N by dlia.
  replace (56320 + n mod 1024 - 56320)%N with (n mod 1024)%N by dlia.
  rewrite N.shiftl_mul_pow2, lor_shifted;
    change (2 ^ 10)%N with 1024%N; dlia.
Qed.

Section Scan.

Import Decode.

Lemma scanstring_literal (f : nat) (c : N) (r : pystr) :
  c <> 34%N -> c <> 92%N -> (32 <= c)%N ->
  scanstring (S f) (c :: r)
  = match scanstring f r with
    | Some (x, r') => Some (c :: x, r')
    | None => None
    end.
Proof.
  intros H1 H2 H3. cbn [scanstring].
  rewrite (proj2 (N.eqb_neq _ _) H1), (proj2 (N.eqb_neq _ _) H2).
  now rewrite (proj2 (N.ltb_ge _ _) H3).
Qed.

Lemma scanstring_u_single (f : nat) (r1 : pystr) (u : N) (r2 : pystr) :
  parse_hex4 r1 = Some (u, r2) ->
  (is_high u = true -> no_low_escape r2) ->
  scanstring (S f) (92 :: 117 :: r1)%N
  = match scanstring f r2 with
    | Some (x, r') => Some (u :: x, r')
    | None => None
    end.
Proof.
  intros Hhex Hjoin. cbn [scanstring].
  change (92 =? 34)%N with false. change (92 =? 92)%N with true.
  change (117 =? 117)%N with true. cbv iota. rewrite Hhex.
  destruct (is_high u); [|reflexivity].
  specialize (Hjoin eq_refl). unfold no_low_escape in Hjoin.
  destruct r2 as [|b [|l r3]]; try reflexivity.
  destruct Hjoin as [Hbl | (u2 & r4 & Hhex2 & Hlow)].
  - now rewrite Hbl.
  - rewrite Hhex2, Hlow. now destruct ((b =? 92) && (l =? 117))%N.
Qed.

Lemma scanstring_u_pair (f : nat) (r1 : pystr) (u : N) (r3 : pystr)
  (u2 : N) (r4 : pystr) :
  parse_hex4 r1 = Some (u, 92 :: 117 :: r3)%N ->
  is_high u = true ->
  parse_hex4 r3 = Some (u2, r4) ->
  is_low u2 = true ->
  scanstring (S f) (92 :: 117 :: r1)%N
  = match scanstring f r4 with
    | Some (x, r') =>
        Some ((65536 + N.lor (N.shiftl (u - 55296) 10) (u2 - 56320))%N :: x,
              r')
    | None => None
    end.
Proof.
  intros Hhex Hhigh Hhex2 Hlow. cbn [scanstring].
  change (92 =? 34)%N with false. change (92 =? 92)%N with true.
  change (117 =? 117)%N with true. cbv iota.
  rewrite Hhex, Hhigh.
  change ((92 =? 92) && (117 =? 117))%N with true. cbv iota.
  now rewrite Hhex2, Hlow.
Qed.

Lemma escape_char_no_low (c : N) (tail : pystr) :
  (c < 1114112)%N -> is_low c = false ->
  no_low_escape (Json.escape_char c ++ tail).
Proof.
  intros Hc Hlow. unfold Json.escape_char.
  repeat match goal with
  | |- context [if (c =? ?k)%N then _ else _] =>
      destruct (N.eqb_spec c k); [left; reflexivity|]
  end.
  destruct ((32 <=? c) && (c <=? 126))%N.
  { cbn [app]. destruct tail as [|l r3]; [exact I|].
    left. now rewrite (proj2 (N.eqb_neq c 92)). }
  destruct (N.ltb_spec c 65536) as [H|H].
  - right. exists c, tail. split; [|assumption].
    apply parse_hex4_hex4. assumption.
  - right. rewrite surrogate_high by lia.
    exists (55296 + (c - 65536) / 1024)%N.
    eexists. split.
    + unfold Json.u_escape. cbn [app]. rewrite <- app_assoc.
      apply parse_hex4_hex4. dlia.
    + unfold is_low. apply andb_false_iff. left. apply N.leb_gt. dlia.
Qed.

Lemma scanstring_escape_char (f : nat) (c : N) (R : pystr) :
  (c < 1114112)%N ->
  (is_high c = true -> no_low_escape R) ->
  scanstring (S f) (Json.escape_char c ++ R)
  = match scanstring f R with
    | Some (x, r') => Some (c :: x, r')
    | None => None
    end.
Proof.
  intros Hc Hjoin. unfold Json.escape_char.
  repeat match goal with
  | |- context [if (c =? ?k)%N then _ else _] =>
      destruct (N.eqb_spec c k); [subst c; reflexivity|]
  end.
  destruct ((32 <=? c) && (c <=? 126))%N eqn:Hp.
  { apply andb_true_iff in Hp. destruct Hp as [Hp _].
    apply N.leb_le in Hp. cbn [app]. now apply scanstring_literal. }
  destruct (N.ltb_spec c 65536) as [H|H].
  - unfold Json.u_escape. cbn [app].
    apply scanstring_u_single; [|assumption].
    now apply parse_hex4_hex4.
  - rewrite surrogate_high, surrogate_low by lia.
    unfold Json.u_escape. cbn [app].
    rewrite (scanstring_u_pair f _ (55296 + (c - 65536) / 1024)%N
               (Json.hex4 (56320 + (c - 65536) mod 1024) ++ R)
               (56320 + (c - 65536) mod 1024)%N R).
    + rewrite surrogate_join by lia.
      replace (65536 + (c - 65536))%N with c by lia. reflexivity.
    + rewrite <- app_assoc. cbn [app]. apply parse_hex4_hex4. dlia.
    + unfold is_high. apply andb_true_iff.
      split; apply N.leb_le; dlia.
    + apply parse_hex4_hex4. dlia.
    + unfold is_low. apply andb_true_iff.
      split; apply N.leb_le; dlia.
Qed.

Lemma unambiguous_no_low (c : N) (s : pystr) (rest : pystr) :
  unambiguous (c :: s) -> is_high c = true ->
  no_low_escape (flat_map Json.escape_char s ++ 34%N :: rest).
Proof.
  intros (_ & Hnext & Hs) Hhigh. specialize (Hnext Hhigh).
  destruct s as [|d s].
  - cbn [flat_map app]. destruct rest; [exact I|]. left. reflexivity.
  - cbn [flat_map]. rewrite <- app_assoc.
    apply escape_char_no_low; [|assumption]. apply Hs.
Qed.

(** The scanner reads an escaped string back, up to the closing quote. *)
Lemma scanstring_escaped (s : pystr) :
  forall (fuel : nat) (rest : pystr),
    unambiguous s -> (length s < fuel)%nat ->
    scanstring fuel (flat_map Json.escape_char s ++ 34%N :: rest)
    = Some (s, rest).
Proof.
  induction s as [|c s IH]; intros fuel rest Hok Hfuel.
  - destruct fuel as [|f]; [simpl in Hfuel; lia|]. reflexivity.
  - destruct fuel as [|f]; [simpl in Hfuel; lia|].
    cbn [flat_map]. rewrite <- app_assoc.
    rewrite scanstring_escape_char.
    + rewrite IH; [reflexivity|apply Hok|simpl in Hfuel; lia].
    + apply Hok.
    + intros Hhigh. now apply unambiguous_no_low with (c := c).
Qed.

End Scan.

(** ** Reading back the text of a value *)

(** Induction on a JSON value and on the values nested in it. *)
Lemma json_ind' (P : json -> Prop) :
  (forall z, P (JInt z)) ->
  (forall s, P (JStr s)) ->
  (forall l, Forall P l -> P (JArr l)) ->
  (forall m, Forall (fun kv => P (snd kv)) m -> P (JObj m)) ->
  forall j, P j.
Proof.
  intros Hint_ Hstr Harr Hobj.
  exact (fix go (j : json) : P j :=
           match j with
           | JInt z => Hint_ z
           | JStr s => Hstr s
           | JArr l =>
               Harr l
                 ((fix all (l : list json) : Forall P l :=
                     match l with
                     | [] => Forall_nil P
                     | x :: l' => Forall_cons x (go x) (all l')
                     end) l)
           | JObj m =>
               Hobj m
                 ((fix all (m : list (pystr * json))
                     : Forall (fun kv => P (snd kv)) m :=
                     match m with
                     | [] => Forall_nil _
                     | kv :: m' => Forall_cons kv (go (snd kv)) (all m')
                     end) m)
           end).
Qed.

Section Parse.

Import Decode.

Lemma is_digit_true (c : N) : (48 <= c <= 57)%N -> is_digit c = true.
Proof.
  intros H. unfold is_digit. apply andb_true_iff.
  split; apply N.leb_le; lia.
Qed.

Lemma take_digits_app (ds : pystr) :
  forall (rest : pystr) (acc : N),
    is_decimal ds -> follow_ok rest ->
    take_digits (ds ++ rest) acc
    = (fold_left (fun a c => (10 * a + (c - 48))%N) ds acc, rest).
Proof.
  induction ds as [|c ds IH]; intros rest acc Hds Hrest.
  - cbn [app fold_left]. destruct rest as [|c r]; [reflexivity|].
    cbn [take_digits]. simpl in Hrest. now rewrite Hrest.
  - inversion Hds as [|? ? Hc Hds']; subst.
    cbn [app take_digits fold_left].
    rewrite is_digit_true by assumption. now apply IH.
Qed.

Lemma take_digits_str_of_N (n : N) (rest : pystr) :
  follow_ok rest -> take_digits (str_of_N n ++ rest) 0%N = (n, rest).
Proof.
  intros Hrest. rewrite take_digits_app.
  - f_equal. apply decimal_value_str_of_N.
  - apply str_of_N_is_decimal.
  - assumption.
Qed.

Lemma str_of_N_head (n : N) :
  exists c ds, str_of_N n = c :: ds /\ (48 <= c <= 57)%N.
Proof.
  pose proof (str_of_N_is_decimal n) as Hd.
  pose proof (str_of_N_length_pos n) as Hl.
  destruct (str_of_N n) as [|c ds]; [simpl in Hl; lia|].
  exists c, ds. split; [reflexivity|]. now inversion Hd.
Qed.

Lemma parse_value_digit (f : nat) (c : N) (r : pystr) :
  (48 <= c <= 57)%N ->
  parse_value (S f) (c :: r)
  = let (n, r') := take_digits (c :: r) 0%N in Some (JInt (Z.of_N n), r').
Proof.
  intros Hc.
  assert (Hne : forall k, (k < 48 \/ 57 < k)%N -> (c =? k)%N = false).
  { intros k Hk. apply N.eqb_neq. lia. }
  cbn [parse_value skip_ws]. unfold is_ws.
  rewrite !Hne by lia. cbn [orb].
  rewrite !Hne by lia.
  now rewrite is_digit_true by assumption.
Qed.

Lemma parse_value_minus (f : nat) (d : N) (r : pystr) :
  (48 <= d <= 57)%N ->
  parse_value (S f) (45%N :: d :: r)
  = let (n, r') := take_digits (d :: r) 0%N in
    Some (JInt (- Z.of_N n), r').
Proof.
  intros Hd.
  change (parse_value (S f) (45%N :: d :: r))
    with (if is_digit d
          then let (n, r') := take_digits (d :: r) 0%N in
               Some (JInt (- Z.of_N n), r')
          else None).
  now rewrite is_digit_true by assumption.
Qed.

Lemma parse_value_int (f : nat) (z : Z) (rest : pystr) :
  follow_ok rest ->
  parse_value (S f) (str_of_Z z ++ rest) = Some (JInt z, rest).
Proof.
  intros Hrest. unfold str_of_Z.
  pose proof (take_digits_str_of_N (Z.abs_N z) rest Hrest) as Htake.
  destruct (str_of_N_head (Z.abs_N z)) as (c & ds & Heq & Hc).
  rewrite Heq in *.
  destruct (Z.ltb_spec z 0) as [Hz|Hz].
  - cbn [app] in *. rewrite parse_value_minus by assumption.
    rewrite Htake.
    replace (- Z.of_N (Z.abs_N z)) with z
      by (rewrite N2Z.inj_abs_N; lia).
    reflexivity.
  - cbn [app] in *. rewrite parse_value_digit by assumption.
    rewrite Htake.
    replace (Z.of_N (Z.abs_N z)) with z
      by (rewrite N2Z.inj_abs_N; lia).
    reflexivity.
Qed.

Lemma parse_value_space (fuel : nat) (s : pystr) :
  parse_value fuel (32%N :: s) = parse_value fuel s.
Proof. destruct fuel; reflexivity. Qed.

Lemma parse_elems_space (fuel : nat) (s : pystr) :
  parse_elems fuel (32%N :: s) = parse_elems fuel s.
Proof.
  destruct fuel; [reflexivity|].
  cbn [parse_elems]. now rewrite parse_value_space.
Qed.

Lemma parse_members_space (fuel : nat) (s : pystr) :
  parse_members fuel (32%N :: s) = parse_members fuel s.
Proof. destruct fuel; reflexivity. Qed.

(** The first character of the text of a value. *)
Lemma dumps_head (j : json) :
  exists c t, Json.dumps j = c :: t /\ is_ws c = false /\ c <> 93%N.
Proof.
  destruct j as [z|s|l|m].
  - cbn [Json.dumps]. unfold str_of_Z.
    destruct (z <? 0).
    + eexists _, _. split; [reflexivity|]. split; [reflexivity|discriminate].
    + destruct (str_of_N_head (Z.abs_N z)) as (c & ds & Heq & Hc).
      rewrite Heq. exists c, ds. split; [reflexivity|].
      split; [|lia]. unfold is_ws.
      rewrite !(proj2 (N.eqb_neq c _)) by lia. reflexivity.
  - eexists _, _. split; [reflexivity|]. split; [reflexivity|discriminate].
  - eexists _, _. split; [reflexivity|]. split; [reflexivity|discriminate].
  - eexists _, _. split; [reflexivity|]. split; [reflexivity|discriminate].
Qed.

Lemma parse_value_array (f : nat) (c : N) (t : pystr) :
  is_ws c = false -> c <> 93%N ->
  parse_value (S f) (91%N :: c :: t)
  = match parse_elems f (c :: t) with
    | Some (l, r) => Some (JArr l, r)
    | None => None
    end.
Proof.
  intros Hws Hc.
  change (parse_value (S f) (91%N :: c :: t))
    with (match skip_ws (c :: t) with
          | c' :: r' =>
              if (c' =? 93)%N then Some (JArr [], r')
              else match parse_elems f (c :: t) with
                   | Some (l, r'') => Some (JArr l, r'')
                   | None => None
                   end
          | [] => None
          end).
  cbn [skip_ws]. rewrite Hws.
  now rewrite (proj2 (N.eqb_neq c 93)).
Qed.


Section ReadBack.

Import Decode.

Lemma join_two (sep a b : pystr) (l : list pystr) :
  Json.join sep (a :: b :: l) = a ++ sep ++ Json.join sep (b :: l).
Proof. reflexivity. Qed.

Lemma join_head (sep a : pystr) (l : list pystr) :
  exists t, Json.join sep (a :: l) = a ++ t.
Proof.
  destruct l as [|b l].
  - exists []. cbn [Json.join]. now rewrite app_nil_r.
  - eexists. apply join_two.
Qed.

Lemma parse_value_array' (f : nat) (J : pystr) (c : N) (t : pystr) :
  J = c :: t -> is_ws c = false -> c <> 93%N ->
  parse_value (S f) (91%N :: J)
  = match parse_elems f J with
    | Some (l, r) => Some (JArr l, r)
    | None => None
    end.
Proof. intros ->. apply parse_value_array. Qed.

Lemma parse_value_object (f : nat) (J t : pystr) :
  J = 34%N :: t ->
  parse_value (S f) (123%N :: J)
  = match parse_members f J with
    | Some (m, r) => Some (JObj m, r)
    | None => None
    end.
Proof. intros ->. reflexivity. Qed.

Lemma parse_elems_comma (f : nat) (s : pystr) (x : json) (T : pystr) :
  parse_value f s = Some (x, 44%N :: T) ->
  parse_elems (S f) s
  = match parse_elems f T with
    | Some (l, r) => Some (x :: l, r)
    | None => None
    end.
Proof. intros H. cbn [parse_elems]. rewrite H. reflexivity. Qed.

Lemma parse_elems_last (f : nat) (s : pystr) (x : json) (T : pystr) :
  parse_value f s = Some (x, 93%N :: T) ->
  parse_elems (S f) s = Some ([x], T).
Proof. intros H. cbn [parse_elems]. rewrite H. reflexivity. Qed.

Lemma parse_members_comma (f : nat) (R : pystr) (k : pystr) (V : pystr)
  (x : json) (T : pystr) :
  scanstring f R = Some (k, 58%N :: V) ->
  parse_value f V = Some (x, 44%N :: T) ->
  parse_members (S f) (34%N :: R)
  = match parse_members f T with
    | Some (m, r) => Some ((k, x) :: m, r)
    | None => None
    end.
Proof.
  intros Hk Hv.
  change (parse_members (S f) (34%N :: R))
    with (match scanstring f R with
          | Some (k, r1) =>
              match skip_ws r1 with
              | c1 :: r2 =>
                  if (c1 =? 58)%N then
                    match parse_value f r2 with
                    | Some (x, r3) =>
                        match skip_ws r3 with
                        | c3 :: r4 =>
                            if (c3 =? 44)%N then
                              match parse_members f r4 with
                              | Some (m, r5) => Some ((k, x) :: m, r5)
                              | None => None
                              end
                            else if (c3 =? 125)%N then Some ([(k, x)], r4)
                            else None
                        | [] => None
                        end
                    | None => None
                    end
                  else None
              | [] => None
              end
          | None => None
          end).
  rewrite Hk. change (skip_ws (58%N :: V)) with (58%N :: V).
  change (58 =? 58)%N with true. cbv iota. rewrite Hv. reflexivity.
Qed.

Lemma parse_members_last (f : nat) (R : pystr) (k : pystr) (V : pystr)
  (x : json) (T : pystr) :
  scanstring f R = Some (k, 58%N :: V) ->
  parse_value f V = Some (x, 125%N :: T) ->
  parse_members (S f) (34%N :: R) = Some ([(k, x)], T).
Proof.
  intros Hk Hv.
  change (parse_members (S f) (34%N :: R))
    with (match scanstring f R with
          | Some (k, r1) =>
              match skip_ws r1 with
              | c1 :: r2 =>
                  if (c1 =? 58)%N then
                    match parse_value f r2 with
                    | Some (x, r3) =>
                        match skip_ws r3 with
                        | c3 :: r4 =>
                            if (c3 =? 44)%N then
                              match parse_members f r4 with
                              | Some (m, r5) => Some ((k, x) :: m, r5)
                              | None => None
                              end
                            else if (c3 =? 125)%N then Some ([(k, x)], r4)
                            else None
                        | [] => None
                        end
                    | None => None
                    end
                  else None
              | [] => None
              end
          | None => None
          end).
  rewrite Hk. change (skip_ws (58%N :: V)) with (58%N :: V).
  change (58 =? 58)%N with true. cbv iota. rewrite Hv. reflexivity.
Qed.

Lemma parse_elems_join (l : list json) :
  Forall (fun x => json_ok x -> reads_back x) l ->
  l <> [] ->
  fold_right (fun x acc => json_ok x /\ acc) True l ->
  forall (fuel : nat) (rest : pystr),
    (fold_right (fun x acc => 1 + json_size x + acc) 0 l <= fuel)%nat ->
    parse_elems fuel
      (Json.join (str ", ") (map Json.dumps l) ++ 93%N :: rest)
    = Some (l, rest).
Proof.
  induction 1 as [|x l Hx Hl IH]; intros Hne Hok fuel rest Hfuel;
    [contradiction|].
  cbn [fold_right] in Hok, Hfuel. destruct Hok as [Hokx Hokl].
  destruct fuel as [|f]; [lia|].
  destruct l as [|y l'].
  - cbn [map Json.join].
    apply parse_elems_last. apply (Hx Hokx); [cbn [fold_right] in Hfuel; lia|].
    reflexivity.
  - cbn [map]. rewrite join_two, <- !app_assoc.
    change (str ", ") with [44%N; 32%N]. cbn [app].
    rewrite (parse_elems_comma f _ x
               (32%N :: Json.join [44%N; 32%N] (map Json.dumps (y :: l'))
                ++ 93%N :: rest)).
    + rewrite parse_elems_space.
      change [44%N; 32%N] with (str ", ").
      rewrite IH; [reflexivity|discriminate|assumption|lia].
    + apply (Hx Hokx); [lia|reflexivity].
Qed.

Lemma member_text_app (k : pystr) (x : json) (T : pystr) :
  member_text (k, x) ++ T
  = 34%N :: flat_map Json.escape_char k
    ++ 34%N :: 58%N :: 32%N :: Json.dumps x ++ T.
Proof.
  unfold member_text, Json.encode_basestring_ascii. cbn [fst snd].
  change (str ": ") with [58%N; 32%N].
  cbn [app]. rewrite <- !app_assoc. reflexivity.
Qed.

Lemma parse_members_join (m : list (pystr * json)) :
  Forall (fun kv => json_ok (snd kv) -> reads_back (snd kv)) m ->
  m <> [] ->
  fold_right
    (fun kv acc => unambiguous (fst kv) /\ json_ok (snd kv) /\ acc) True m ->
  forall (fuel : nat) (rest : pystr),
    (fold_right
       (fun kv acc => 2 + length (fst kv) + json_size (snd kv) + acc)
       0 m <= fuel)%nat ->
    parse_members fuel
      (Json.join (str ", ") (map member_text m) ++ 125%N :: rest)
    = Some (m, rest).
Proof.
  induction 1 as [|[k x] m Hx Hm IH]; intros Hne Hok fuel rest Hfuel;
    [contradiction|].
  cbn [fold_right fst snd] in Hok, Hfuel, Hx.
  destruct Hok as (Hokk & Hokx & Hokm).
  destruct fuel as [|f]; [lia|].
  destruct m as [|kv m'].
  - cbn [map Json.join]. rewrite member_text_app.
    apply parse_members_last with (V := 32%N :: Json.dumps x ++ 125%N :: rest).
    + apply scanstring_escaped; [assumption|cbn [fold_right] in Hfuel; lia].
    + rewrite parse_value_space.
      apply (Hx Hokx); [cbn [fold_right] in Hfuel; lia|reflexivity].
  - cbn [map]. rewrite join_two, <- !app_assoc. rewrite member_text_app.
    change (str ", ") with [44%N; 32%N]. cbn [app].
    rewrite (parse_members_comma f _ k
               (32%N :: Json.dumps x ++ 44%N :: 32%N ::
                Json.join [44%N; 32%N] (map member_text (kv :: m'))
                ++ 125%N :: rest) x
               (32%N :: Json.join [44%N; 32%N] (map member_text (kv :: m'))
                ++ 125%N :: rest)).
    + rewrite parse_members_space.
      change [44%N; 32%N] with (str ", ").
      rewrite IH; [reflexivity|discriminate|assumption|lia].
    + apply scanstring_escaped; [assumption|lia].
    + rewrite parse_value_space.
      apply (Hx Hokx); [lia|reflexivity].
Qed.

(** The parser reads the text of every unambiguous value back. *)
Theorem dumps_reads_back (j : json) : json_ok j -> reads_back j.
Proof.
  induction j as [z|s|l IH|m IH] using json_ind';
    intros Hok fuel rest Hfuel Hrest.
  - destruct fuel as [|f]; [simpl in Hfuel; lia|].
    now apply parse_value_int.
  - cbn [json_size] in Hfuel. destruct fuel as [|f]; [lia|].
    cbn [Json.dumps]. unfold Json.encode_basestring_ascii.
    cbn [app]. rewrite <- app_assoc. cbn [app].
    change (parse_value (S f)
              (34%N :: flat_map Json.escape_char s ++ 34%N :: rest))
      with (match scanstring f
                    (flat_map Json.escape_char s ++ 34%N :: rest) with
            | Some (x, r') => Some (JStr x, r')
            | None => None
            end).
    rewrite scanstring_escaped; [reflexivity|exact Hok|lia].
  - cbn [json_size] in Hfuel. destruct fuel as [|f]; [lia|].
    cbn [json_ok] in Hok. cbn [Json.dumps app].
    destruct l as [|x l]; [reflexivity|].
    rewrite <- app_assoc. cbn [app].
    destruct (dumps_head x) as (c & t & Hhead & Hws & Hc).
    destruct (join_head (str ", ") (Json.dumps x) (map Json.dumps l))
      as (t' & Hjoin).
    rewrite (parse_value_array' f _ c ((t ++ t') ++ 93%N :: rest)); trivial.
    + rewrite parse_elems_join; [reflexivity|assumption|discriminate
                                 |assumption|lia].
    + cbn [map]. rewrite Hjoin, Hhead. reflexivity.
  - cbn [json_size] in Hfuel. destruct fuel as [|f]; [lia|].
    cbn [json_ok] in Hok. cbn [Json.dumps app].
    destruct m as [|[k x] m]; [reflexivity|].
    rewrite <- app_assoc. cbn [app].
    change (fun kv : pystr * json =>
              Json.encode_basestring_ascii (fst kv) ++ str ": "
              ++ Json.dumps (snd kv)) with member_text.
    destruct (join_head (str ", ") (member_text (k, x)) (map member_text m))
      as (t' & Hjoin).
    rewrite (parse_value_object f _
               (flat_map Json.escape_char k
                ++ 34%N :: 58%N :: 32%N :: Json.dumps x
                ++ t' ++ 125%N :: rest)).
    + rewrite parse_members_join; [reflexivity|assumption|discriminate
                                   |assumption|lia].
    + cbn [map].
      rewrite <- (member_text_app k x (t' ++ 125%N :: rest)), app_assoc.
      f_equal. exact Hjoin.
Qed.

End ReadBack.
End Parse.

(** ** The text of a value is ASCII and long enough to pay for its
    parsing *)

Lemma hex_digit_ascii (d : N) : (d < 16)%N -> (Json.hex_digit d < 128)%N.
Proof. intros Hd. unfold Json.hex_digit. destruct (d <? 10)%N; lia. Qed.

Lemma escape_char_ascii (c : N) : is_ascii (Json.escape_char c).
Proof.
  unfold is_ascii, Json.escape_char.
  repeat match goal with
  | |- context [if (c =? ?k)%N then _ else _] =>
      destruct (N.eqb_spec c k);
      [repeat (constructor; [reflexivity|]); constructor|]
  end.
  destruct ((32 <=? c) && (c <=? 126))%N eqn:Hp.
  { apply andb_true_iff in Hp. destruct Hp as [_ Hp]. apply N.leb_le in Hp.
    constructor; [lia|constructor]. }
  destruct (c <? 65536)%N;
    unfold Json.u_escape, Json.hex4; cbn [app];
    repeat (constructor;
            [first [reflexivity | apply hex_digit_ascii; dlia]|]);
    constructor.
Qed.

Lemma escape_char_length (c : N) : (1 <= length (Json.escape_char c))%nat.
Proof.
  unfold Json.escape_char.
  repeat match goal with
  | |- context [if ?b then _ else _] => destruct b
  end; cbn [length app Json.u_escape Json.hex4]; lia.
Qed.

Lemma flat_map_escape_length (s : pystr) :
  (length s <= length (flat_map Json.escape_char s))%nat.
Proof.
  induction s as [|c s IH]; [reflexivity|].
  cbn [flat_map]. rewrite length_app.
  pose proof (escape_char_length c). simpl. lia.
Qed.

Lemma basestring_ascii (s : pystr) :
  is_ascii (Json.encode_basestring_ascii s).
Proof.
  unfold is_ascii, Json.encode_basestring_ascii.
  constructor; [reflexivity|].
  apply Forall_app. split; [|constructor; [reflexivity|constructor]].
  apply Forall_flat_map, Forall_forall. intros c _. apply escape_char_ascii.
Qed.

Lemma str_of_N_ascii (n : N) : is_ascii (str_of_N n).
Proof.
  eapply Forall_impl; [|apply str_of_N_is_decimal].
  intros c Hc. simpl in Hc. lia.
Qed.

Lemma str_of_Z_ascii (z : Z) : is_ascii (str_of_Z z).
Proof.
  unfold str_of_Z. destruct (z <? 0).
  - constructor; [reflexivity|apply str_of_N_ascii].
  - apply str_of_N_ascii.
Qed.

Lemma str_of_Z_length_pos (z : Z) : (1 <= length (str_of_Z z))%nat.
Proof.
  unfold str_of_Z. pose proof (str_of_N_length_pos (Z.abs_N z)).
  destruct (z <? 0); simpl; lia.
Qed.

Lemma join_ascii (sep : pystr) (parts : list pystr) :
  is_ascii sep -> Forall is_ascii parts -> is_ascii (Json.join sep parts).
Proof.
  intros Hsep Hparts. induction Hparts as [|x l Hx Hl IH].
  - constructor.
  - destruct l as [|y l]; [exact Hx|].
    rewrite join_two. apply Forall_app. split; [exact Hx|].
    apply Forall_app. split; [exact Hsep|exact IH].
Qed.

Ltac ascii_literal :=
  unfold is_ascii; repeat (constructor; [reflexivity|]); constructor.

Lemma dumps_ascii (j : json) : is_ascii (Json.dumps j).
Proof.
  induction j as [z|s|l IH|m IH] using json_ind'; cbn [Json.dumps].
  - apply str_of_Z_ascii.
  - apply basestring_ascii.
  - constructor; [reflexivity|].
    apply Forall_app. split; [|ascii_literal].
    apply join_ascii; [ascii_literal|].
    apply Forall_map. exact IH.
  - constructor; [reflexivity|].
    apply Forall_app. split; [|ascii_literal].
    apply join_ascii; [ascii_literal|].
    apply Forall_map. eapply Forall_impl; [|exact IH].
    intros kv Hkv. cbv beta.
    apply Forall_app. split; [apply basestring_ascii|].
    apply Forall_app. split; [ascii_literal|exact Hkv].
Qed.

Lemma newline_indent_ascii (indent level : nat) :
  is_ascii (Json.newline_indent indent level).
Proof.
  unfold Json.newline_indent. constructor; [reflexivity|].
  apply Forall_forall. intros c Hc. apply repeat_spec in Hc. now subst c.
Qed.

Lemma dumps_indent_ascii (indent : nat) (j : json) :
  forall level, is_ascii (Json.dumps_indent indent level j).
Proof.
  induction j as [z|s|l IH|m IH] using json_ind'; intros level;
    cbn [Json.dumps_indent].
  - apply str_of_Z_ascii.
  - apply basestring_ascii.
  - destruct l as [|x l]; [ascii_literal|].
    constructor; [reflexivity|].
    apply Forall_app. split; [apply newline_indent_ascii|].
    apply Forall_app. split.
    + apply join_ascii.
      * constructor; [reflexivity|apply newline_indent_ascii].
      * apply Forall_map. eapply Forall_impl; [|exact IH].
        intros y Hy. apply Hy.
    + apply Forall_app. split; [apply newline_indent_ascii|ascii_literal].
  - destruct m as [|kv m]; [ascii_literal|].
    constructor; [reflexivity|].
    apply Forall_app. split; [apply newline_indent_ascii|].
    apply Forall_app. split.
    + apply join_ascii.
      * constructor; [reflexivity|apply newline_indent_ascii].
      * apply Forall_map. eapply Forall_impl; [|exact IH].
        intros y Hy. cbv beta.
        apply Forall_app. split; [apply basestring_ascii|].
        apply Forall_app. split; [ascii_literal|apply Hy].
    + apply Forall_app. split; [apply newline_indent_ascii|ascii_literal].
Qed.

(** ASCII text is its own UTF-8 encoding, and decodes to itself. *)
Lemma str_encode_ascii (s : pystr) : is_ascii s -> str_encode s = Ok s.
Proof.
  induction 1 as [|c s Hc Hs IH]; [reflexivity|].
  cbn [str_encode]. unfold utf8_char.
  rewrite (proj2 (N.ltb_lt c 128) Hc), IH. reflexivity.
Qed.

Lemma bytes_decode_ascii (s : pystr) :
  is_ascii s -> Decode.bytes_decode s = Some s.
Proof.
  induction 1 as [|c s Hc Hs IH]; [reflexivity|].
  cbn [Decode.bytes_decode].
  rewrite (proj2 (N.ltb_lt c 128) Hc), IH. reflexivity.
Qed.

Lemma elems_size_le (l : list json) :
  Forall (fun x => (json_size x <= length (Json.dumps x))%nat) l ->
  (fold_right (fun x acc => 1 + json_size x + acc) 0 l
   <= 1 + length (Json.join (str ", ") (map Json.dumps l)))%nat.
Proof.
  induction 1 as [|x l Hx Hl IHl]; [simpl; lia|].
  cbn [fold_right map].
  destruct l as [|y l].
  - cbn [fold_right Json.join map]. lia.
  - cbn [map] in *. rewrite join_two, !length_app.
    change (length (str ", ")) with 2%nat. lia.
Qed.

Lemma member_size_le (kv : pystr * json) :
  (json_size (snd kv) <= length (Json.dumps (snd kv)))%nat ->
  (2 + length (fst kv) + json_size (snd kv) <= length (member_text kv))%nat.
Proof.
  intros Hkv. unfold member_text, Json.encode_basestring_ascii.
  cbn [length app]. rewrite !length_app.
  pose proof (flat_map_escape_length (fst kv)).
  change (length (str ": ")) with 2%nat. cbn [length]. lia.
Qed.

Lemma members_size_le (m : list (pystr * json)) :
  Forall (fun kv => (json_size (snd kv) <= length (Json.dumps (snd kv)))%nat)
         m ->
  (fold_right
     (fun kv acc => 2 + length (fst kv) + json_size (snd kv) + acc) 0 m
   <= 1 + length (Json.join (str ", ") (map member_text m)))%nat.
Proof.
  induction 1 as [|x l Hx Hl IHl]; [simpl; lia|].
  cbn [fold_right map]. apply member_size_le in Hx.
  destruct l as [|y l].
  - cbn [fold_right Json.join map]. lia.
  - cbn [map] in *. rewrite join_two, !length_app.
    change (length (str ", ")) with 2%nat. lia.
Qed.

Lemma json_size_le (j : json) : (json_size j <= length (Json.dumps j))%nat.
Proof.
  induction j as [z|s|l IH|m IH] using json_ind';
    cbn [json_size Json.dumps].
  - apply str_of_Z_length_pos.
  - unfold Json.encode_basestring_ascii. cbn [length].
    rewrite length_app. pose proof (flat_map_escape_length s).
    simpl. lia.
  - cbn [length]. rewrite length_app. apply le_n_S.
    eapply Nat.le_trans; [apply elems_size_le; exact IH|].
    rewrite Nat.add_comm. apply Nat.le_refl.
  - cbn [length]. rewrite length_app. apply le_n_S.
    eapply Nat.le_trans; [apply members_size_le; exact IH|].
    rewrite Nat.add_comm. apply Nat.le_refl.
Qed.

(** [loads] inverts [dumps] on unambiguous values. *)
Theorem loads_dumps (j : json) :
  json_ok j -> Decode.loads (Json.dumps j) = Some j.
Proof.
  intros Hok. unfold Decode.loads.
  rewrite <- (app_nil_r (Json.dumps j)) at 2.
  rewrite (dumps_reads_back j Hok); [reflexivity| |exact I].
  pose proof (json_size_le j). lia.
Qed.

(** ** The GraphCol encoder *)

Lemma ascii_unambiguous (s : pystr) : is_ascii s -> unambiguous s.
Proof.
  induction 1 as [|c s Hc Hs IH]; [exact I|].
  cbn [unambiguous]. split; [lia|]. split; [|exact IH].
  intros Hhigh. unfold Decode.is_high in Hhigh.
  apply andb_true_iff in Hhigh. destruct Hhigh as [Hhigh _].
  apply N.leb_le in Hhigh. lia.
Qed.

Lemma scalar_unambiguous (s : pystr) : scalar_text s -> unambiguous s.
Proof.
  induction 1 as [|c s Hc Hs IH]; [exact I|].
  cbn [unambiguous]. split; [lia|]. split; [|exact IH].
  intros Hhigh. unfold Decode.is_high in Hhigh.
  apply andb_true_iff in Hhigh. destruct Hhigh as [H1 H2].
  apply N.leb_le in H1, H2. lia.
Qed.

Lemma triple_json_ok (x : Triple.t) : triple_ok x -> json_ok (triple_json x).
Proof.
  intros (Hs & Hp & Hv & Htx). unfold triple_json, typed_value_json.
  cbn [json_ok fold_right fst snd].
  repeat split; trivial; apply ascii_unambiguous; ascii_literal.
Qed.

Lemma graphcol_json_ok (triples : list Triple.t) (namespace : pystr) :
  unambiguous namespace -> Forall triple_ok triples ->
  json_ok (graphcol_json triples namespace).
Proof.
  intros Hns Hts. unfold graphcol_json.
  cbn [json_ok fold_right fst snd].
  repeat split; trivial; try (apply ascii_unambiguous; ascii_literal).
  induction Hts as [|x l Hx Hl IH]; [exact I|].
  cbn [map fold_right]. split; [now apply triple_json_ok|exact IH].
Qed.

(** The encoder never fails: the JSON text is ASCII, hence its own
    encoding. *)
Lemma encode_graphcol_ok (triples : list Triple.t) (namespace : pystr) :
  encode_graphcol triples namespace
  = Ok (Json.dumps (graphcol_json triples namespace)).
Proof. unfold encode_graphcol. apply str_encode_ascii, dumps_ascii. Qed.

Lemma triple_of_json_triple_json (x : Triple.t) :
  Decode.triple_of_json (triple_json x) = Some x.
Proof. destruct x as [s p [t v] ts tx]. reflexivity. Qed.

Lemma triples_of_json_map (l : list Triple.t) :
  Decode.triples_of_json (map triple_json l) = Some l.
Proof.
  induction l as [|x l IH]; [reflexivity|].
  cbn [map Decode.triples_of_json].
  now rewrite triple_of_json_triple_json, IH.
Qed.

(** C6 (as amended): when the strings of the triples and the namespace
    are unambiguous (no code point above [0x10FFFF], no high surrogate
    directly followed by a low surrogate; in particular any text of
    Unicode scalar values), the encoder succeeds and the decoder gives
    back version 1, the namespace and the very same triples, whatever
    their type tags. *)
Theorem decode_encode_graphcol (triples : list Triple.t) (namespace : pystr) :
  unambiguous namespace -> Forall triple_ok triples ->
  exists payload,
    encode_graphcol triples namespace = Ok payload
    /\ Decode.decode_graphcol payload
       = Some {| Decode.version := 1;
                 Decode.namespace := namespace;
                 Decode.triples := triples |}.
Proof.
  intros Hns Hts. eexists. split; [apply encode_graphcol_ok|].
  unfold Decode.decode_graphcol.
  rewrite bytes_decode_ascii by apply dumps_ascii.
  rewrite loads_dumps by now apply graphcol_json_ok.
  unfold graphcol_json.
  change (Decode.as_int
            (Decode.obj_get (str "version")
               [(str "version", JInt 1); (str "namespace", JStr namespace);
                (str "triples", JArr (map triple_json triples))]))
    with (Some 1).
  change (Decode.as_str
            (Decode.obj_get (str "namespace")
               [(str "version", JInt 1); (str "namespace", JStr namespace);
                (str "triples", JArr (map triple_json triples))]))
    with (Some namespace).
  change (Decode.obj_get (str "triples")
            [(str "version", JInt 1); (str "namespace", JStr namespace);
             (str "triples", JArr (map triple_json triples))])
    with (Some (JArr (map triple_json triples))).
  cbv iota. now rewrite triples_of_json_map.
Qed.

Lemma q42_triple_ok : triple_ok q42_triple.
Proof. repeat split; apply ascii_unambiguous; ascii_literal. Qed.

Lemma label_example_ok : triple_ok label_example.
Proof.
  repeat split; try (apply ascii_unambiguous; ascii_literal).
Qed.

Lemma decode_encode_graphcol_witness :
  (unambiguous NAMESPACE /\ Forall triple_ok [q42_triple; label_example])
  /\ exists payload,
       encode_graphcol [q42_triple; label_example] NAMESPACE = Ok payload
       /\ Decode.decode_graphcol payload
          = Some {| Decode.version := 1;
                    Decode.namespace := NAMESPACE;
                    Decode.triples := [q42_triple; label_example] |}.
Proof.
  assert (H1 : unambiguous NAMESPACE)
    by (apply ascii_unambiguous; ascii_literal).
  assert (H2 : Forall triple_ok [q42_triple; label_example])
    by (constructor; [apply q42_triple_ok|];
        constructor; [apply label_example_ok|constructor]).
  split; [split; assumption|].
  exact (decode_encode_graphcol [q42_triple; label_example] NAMESPACE H1 H2).
Defined.

(** C6 (as stated, refuted): a subject made of a high surrogate followed
    by a low surrogate is encoded like the single character they stand
    for; the two chunks have the same payload, which decodes to the
    second, so the first does not come back. *)
Lemma surrogate_pair_does_not_round_trip :
  exists payload,
    encode_graphcol [pair_triple] NAMESPACE = Ok payload
    /\ encode_graphcol [single_triple] NAMESPACE = Ok payload
    /\ Decode.decode_graphcol payload
       = Some {| Decode.version := 1;
                 Decode.namespace := NAMESPACE;
                 Decode.triples := [single_triple] |}
    /\ Decode.decode_graphcol payload
       <> Some {| Decode.version := 1;
                  Decode.namespace := NAMESPACE;
                  Decode.triples := [pair_triple] |}.
Proof.
  eexists. split; [vm_compute; reflexivity|].
  split; [vm_compute; reflexivity|].
  split; [vm_compute; reflexivity|].
  vm_compute. discriminate.
Qed.

Lemma dumps_triple_json (x : Triple.t) :
  Json.dumps (triple_json x) = triple_text x.
Proof.
  unfold triple_text, triple_json, typed_value_json, quoted.
  cbn [Json.dumps map Json.join fst snd].
  unfold Json.encode_basestring_ascii.
  repeat (rewrite <- ?app_assoc; cbn [app]).
  reflexivity.
Qed.

Lemma dumps_graphcol_json (triples : list Triple.t) (namespace : pystr) :
  Json.dumps (graphcol_json triples namespace)
  = graphcol_text triples namespace.
Proof.
  unfold graphcol_text, graphcol_json, quoted.
  cbn [Json.dumps map Json.join fst snd].
  rewrite map_map, (map_ext _ _ dumps_triple_json).
  unfold Json.encode_basestring_ascii.
  repeat (rewrite <- ?app_assoc; cbn [app]).
  reflexivity.
Qed.

(** C7: the payload is the UTF-8 (here ASCII) text of the dictionary that
    holds the version 1, the namespace and the triples in their order,
    written in this fixed order of fields; the encoder is a function of
    its two arguments, so equal inputs give equal bytes. *)
Theorem encode_graphcol_layout (triples : list Triple.t) (namespace : pystr) :
  encode_graphcol triples namespace = Ok (graphcol_text triples namespace)
  /\ is_ascii (graphcol_text triples namespace)
  /\ forall triples' namespace',
       triples' = triples -> namespace' = namespace ->
       encode_graphcol triples' namespace'
       = encode_graphcol triples namespace.
Proof.
  split; [|split].
  - rewrite encode_graphcol_ok. f_equal. apply dumps_graphcol_json.
  - rewrite <- dumps_graphcol_json. apply dumps_ascii.
  - intros triples' namespace' -> ->. reflexivity.
Qed.

(** ** Chunking *)

Lemma len_app {A : Type} (l1 l2 : list A) :
  len (l1 ++ l2) = len l1 + len l2.
Proof. unfold len. rewrite length_app. lia. Qed.

Lemma len_nonneg {A : Type} (l : list A) : 0 <= len l.
Proof. unfold len. lia. Qed.

Lemma len_pos {A : Type} (l : list A) : l <> [] -> 0 < len l.
Proof. destruct l; [contradiction|]. unfold len. simpl. lia. Qed.

Lemma len_cons {A : Type} (x : A) (l : list A) : len (x :: l) = 1 + len l.
Proof. unfold len. cbn [length]. lia. Qed.

Section ChunkingFacts.

Context {A : Type}.
Implicit Types (buf xs : list A).

Lemma flushed_app (C : Z) xs : forall buf ys,
  flushed C buf (xs ++ ys)
  = flushed C buf xs ++ flushed C (pending C buf xs) ys.
Proof.
  induction xs as [|x xs IH]; intros buf ys; [reflexivity|].
  cbn [app flushed pending].
  destruct (C <=? len (buf ++ [x])); [cbn [app]; f_equal|]; apply IH.
Qed.

Lemma pending_app (C : Z) xs : forall buf ys,
  pending C buf (xs ++ ys) = pending C (pending C buf xs) ys.
Proof.
  induction xs as [|x xs IH]; intros buf ys; [reflexivity|].
  cbn [app pending].
  destruct (C <=? len (buf ++ [x])); apply IH.
Qed.

(** Nothing is lost or reordered. *)
Lemma concat_flushed (C : Z) xs : forall buf,
  concat (flushed C buf xs) ++ pending C buf xs = buf ++ xs.
Proof.
  induction xs as [|x xs IH]; intros buf.
  - simpl. now rewrite app_nil_r.
  - cbn [flushed pending].
    destruct (C <=? len (buf ++ [x])).
    + cbn [concat]. rewrite <- app_assoc, IH, <- app_assoc. reflexivity.
    + rewrite IH, <- app_assoc. reflexivity.
Qed.

Lemma concat_chunks_of (C : Z) xs : concat (chunks_of C xs) = xs.
Proof.
  unfold chunks_of. rewrite concat_app.
  rewrite <- (concat_flushed C xs []) at 3. f_equal.
  destruct (pending C [] xs); [reflexivity|].
  cbn [concat]. now rewrite app_nil_r.
Qed.

(** A flushed chunk holds exactly [C] triples and what stays in the
    buffer is shorter than that. *)
Lemma flushed_full (C : Z) xs : forall buf,
  0 < C -> len buf < C ->
  Forall (fun c => len c = C) (flushed C buf xs)
  /\ len (pending C buf xs) < C
  /\ len buf + len xs
     = C * len (flushed C buf xs) + len (pending C buf xs).
Proof.
  induction xs as [|x xs IH]; intros buf HC Hbuf.
  - cbn [flushed pending].
    repeat split; [constructor|assumption|unfold len; simpl; lia].
  - cbn [flushed pending].
    assert (Hlen : len (buf ++ [x]) = len buf + 1)
      by (rewrite len_app; reflexivity).
    assert (Hcons : len (x :: xs) = 1 + len xs)
      by (unfold len; cbn [length]; lia).
    destruct (Z.leb_spec C (len (buf ++ [x]))) as [Hfull|Hroom].
    + destruct (IH [] HC) as (Hall & Hpend & Hsum);
        [unfold len; simpl; lia|].
      repeat split; trivial.
      * constructor; [lia|exact Hall].
      * change (len (@nil A)) with 0 in Hsum.
        assert (Hc : len ((buf ++ [x]) :: flushed C [] xs)
                     = 1 + len (flushed C [] xs))
          by (unfold len; cbn [length]; lia).
        rewrite Hc, Hcons. lia.
    + destruct (IH (buf ++ [x]) HC) as (Hall & Hpend & Hsum); [lia|].
      repeat split; trivial. rewrite Hcons. lia.
Qed.

Lemma flushed_nonempty (C : Z) xs : forall buf,
  Forall (fun c => c <> []) (flushed C buf xs).
Proof.
  induction xs as [|x xs IH]; intros buf; cbn [flushed]; [constructor|].
  destruct (C <=? len (buf ++ [x])); [|apply IH].
  constructor; [|apply IH]. now destruct buf.
Qed.

Lemma chunks_of_nonempty (C : Z) xs :
  Forall (fun c => c <> []) (chunks_of C xs).
Proof.
  unfold chunks_of. apply Forall_app. split; [apply flushed_nonempty|].
  destruct (pending C [] xs); constructor; [discriminate|constructor].
Qed.

(** The chunks of a run: how many, and how long. *)
Lemma chunks_of_shape (C : Z) xs :
  0 < C ->
  len (chunks_of C xs) = (len xs + C - 1) / C
  /\ Forall (fun c => 0 < len c <= C) (chunks_of C xs)
  /\ (forall i, (S i < length (chunks_of C xs))%nat ->
                len (nth i (chunks_of C xs) []) = C).
Proof.
  intros HC.
  destruct (flushed_full C xs [] HC) as (Hall & Hpend & Hsum);
    [unfold len; simpl; lia|].
  change (len (@nil A)) with 0 in Hsum.
  pose proof (len_nonneg (flushed C [] xs)) as Hn.
  unfold chunks_of.
  destruct (pending C [] xs) as [|y r] eqn:Hp.
  - change (len (@nil A)) with 0 in Hsum. rewrite app_nil_r.
    repeat split.
    + apply Z.div_unique with (r := C - 1); lia.
    + eapply Forall_impl; [|exact Hall]. simpl. intros c Hc. lia.
    + intros i Hi. rewrite Forall_forall in Hall.
      apply Hall, nth_In. lia.
  - assert (Hr : 0 < len (y :: r)) by (apply len_pos; discriminate).
    repeat split.
    + rewrite len_app. change (len [y :: r]) with 1.
      apply Z.div_unique with (r := len (y :: r) - 1); lia.
    + apply Forall_app. split.
      * eapply Forall_impl; [|exact Hall]. simpl. intros c Hc. lia.
      * constructor; [lia|constructor].
    + intros i Hi. rewrite length_app in Hi. simpl in Hi.
      rewrite app_nth1 by lia.
      rewrite Forall_forall in Hall. apply Hall, nth_In. lia.
Qed.

End ChunkingFacts.

(** ** Loops in the monad *)

Lemma for_each_map {X Y S : Type} (f : X -> Y) (body : Y -> S -> M S)
  (xs : list X) :
  forall st w,
    for_each xs (fun x st => body (f x) st) st w
    = for_each (map f xs) body st w.
Proof.
  induction xs as [|x xs IH]; intros st w; [reflexivity|].
  cbn [for_each map]. unfold bind.
  destruct (body (f x) st w) as [[st'|e] w']; [apply IH|reflexivity].
Qed.

(** ** One run of the loader *)

Lemma chunk_puts_app (env : RunEnv) (name : pystr)
  (a b : list (list Triple.t)) :
  forall i,
    chunk_puts env name i (a ++ b)
    = chunk_puts env name i a ++ chunk_puts env name (i + len a) b.
Proof.
  induction a as [|c a IH]; intros i.
  - cbn [app chunk_puts]. change (len (@nil (list Triple.t))) with 0.
    now rewrite Z.add_0_r.
  - cbn [app chunk_puts]. rewrite IH, len_cons.
    now replace (i + 1 + len a) with (i + (1 + len a)) by lia.
Qed.

Lemma bytes_of_app (a b : list (list Triple.t)) :
  bytes_of (a ++ b) = bytes_of a + bytes_of b.
Proof.
  unfold bytes_of, sumZ. rewrite map_app, fold_right_app.
  induction (map (fun c => len (chunk_body c)) a) as [|z l IH]; simpl; lia.
Qed.

Lemma bytes_of_cons (c : list Triple.t) (cs : list (list Triple.t)) :
  bytes_of (c :: cs) = len (chunk_body c) + bytes_of cs.
Proof. reflexivity. Qed.

Section Run.

Variable C : Z.
Variable env : RunEnv.
Variable name : pystr.
Hypothesis Hstarts : starts env.

Lemma upload_to_r2_ok (body : bytes) (path : pystr) (w : World) :
  upload_to_r2 env body path w
  = (Ok tt, w ++ [{| put_path := path; put_body := body;
                     put_result := wrangler env path |}]).
Proof.
  unfold upload_to_r2. specialize (Hstarts path).
  destruct (wrangler env path); [reflexivity|reflexivity|contradiction].
Qed.

Lemma flush_chunk_empty (st : Loader) (w : World) :
  triples st = [] -> flush_chunk env name st w = (Ok st, w).
Proof. intros H. unfold flush_chunk. now rewrite H. Qed.

(** A flush of a buffer that holds something uploads it as the next chunk,
    counts its bytes and empties the buffer. *)
Lemma flush_chunk_run (st : Loader) (w : World) :
  triples st <> [] ->
  flush_chunk env name st w
  = (Ok {| triples := [];
           chunk_index := chunk_index st + 1;
           total_triples := total_triples st;
           total_bytes := total_bytes st + len (chunk_body (triples st)) |},
     w ++ [chunk_put env name (chunk_index st) (triples st)]).
Proof.
  intros H. unfold flush_chunk.
  destruct (triples st) as [|x l] eqn:E; [contradiction|].
  unfold bind, lift. rewrite encode_graphcol_ok, upload_to_r2_ok.
  reflexivity.
Qed.

Lemma add_run (x : Triple.t) (st : Loader) (w : World) :
  add C env name x st w
  = if C <=? len (triples st ++ [x])
    then (Ok {| triples := [];
                chunk_index := chunk_index st + 1;
                total_triples := total_triples st + 1;
                total_bytes :=
                  total_bytes st + len (chunk_body (triples st ++ [x])) |},
          w ++ [chunk_put env name (chunk_index st) (triples st ++ [x])])
    else (Ok {| triples := triples st ++ [x];
                chunk_index := chunk_index st;
                total_triples := total_triples st + 1;
                total_bytes := total_bytes st |}, w).
Proof.
  unfold add. cbn [triples].
  destruct (C <=? len (triples st ++ [x])); [|reflexivity].
  rewrite flush_chunk_run; [reflexivity|].
  cbn [triples]. now destruct (triples st).
Qed.

(** The loop over the triples [xs]. *)
Lemma adds_run (xs : list Triple.t) :
  forall (st : Loader) (w : World),
    for_each xs (add C env name) st w
    = (Ok {| triples := pending C (triples st) xs;
             chunk_index :=
               chunk_index st + len (flushed C (triples st) xs);
             total_triples := total_triples st + len xs;
             total_bytes :=
               total_bytes st + bytes_of (flushed C (triples st) xs) |},
       w ++ chunk_puts env name (chunk_index st)
              (flushed C (triples st) xs)).
Proof.
  induction xs as [|x xs IH]; intros st w.
  - cbn [for_each flushed pending chunk_puts]. unfold ret.
    rewrite app_nil_r. destruct st as [t i n b]. cbn.
    now rewrite !Z.add_0_r.
  - cbn [for_each]. unfold bind. rewrite add_run.
    cbn [flushed pending].
    destruct (C <=? len (triples st ++ [x])).
    + rewrite IH. cbn [triples chunk_index total_triples total_bytes].
      cbn [chunk_puts]. rewrite <- app_assoc. cbn [app].
      rewrite !len_cons, bytes_of_cons, !Z.add_assoc. reflexivity.
    + rewrite IH. cbn [triples chunk_index total_triples total_bytes].
      rewrite !len_cons, !Z.add_assoc. reflexivity.
Qed.

(** The manifest, as the local [index.json] holds it. *)
Lemma manifest_bytes_ok (m : Manifest.t) :
  manifest_bytes m = Ok (Json.dumps_indent 2 0 (manifest_json m)).
Proof. unfold manifest_bytes. apply str_encode_ascii, dumps_indent_ascii. Qed.

(** A run whose dataset is available and whose upload command always
    starts completes: it uploads the chunks of its triples in order, then
    the manifest, and returns the totals. *)
Theorem load_subset_run (ds : Subset) (w : World) :
  dataset env = Ok ds ->
  load_subset C env name w
  = (Ok (run_stats C env ds), w ++ run_puts C env name ds).
Proof.
  intros Hds. unfold load_subset. rewrite Hds.
  unfold bind at 1. unfold lift at 1.
  unfold bind at 1. rewrite for_each_map, adds_run.
  unfold bind at 1. rewrite for_each_map, adds_run.
  cbn [triples chunk_index total_triples total_bytes].
  set (tx := generate_ulid (clock_ulid env) (entropy env)).
  set (E := map (edge_triple tx (clock_ts env)) (get_edges ds)).
  set (Lb := map (label_triple tx (clock_ts env))
               match get_labels ds with Some l => l | None => [] end).
  assert (Hall : run_triples env ds = E ++ Lb) by reflexivity.
  rewrite <- pending_app.
  rewrite <- !app_assoc, !Z.add_0_l.
  rewrite <- (Z.add_0_l (len (flushed C [] E))) at 2.
  rewrite <- chunk_puts_app, <- flushed_app.
  rewrite <- len_app, <- bytes_of_app, <- flushed_app, <- len_app.
  rewrite <- Hall.
  unfold run_stats, run_puts, run_manifest, chunks_of.
  set (all := run_triples env ds).
  destruct (pending C [] all) as [|y r] eqn:Hp.
  - unfold bind at 1. rewrite flush_chunk_empty by reflexivity.
    unfold bind at 1. unfold lift. rewrite manifest_bytes_ok.
    unfold bind. rewrite upload_to_r2_ok. unfold ret.
    cbn [triples chunk_index total_triples total_bytes].
    rewrite !app_nil_r, <- app_assoc. reflexivity.
  - unfold bind at 1. rewrite flush_chunk_run by (cbn [triples]; discriminate).
    unfold bind at 1. unfold lift. rewrite manifest_bytes_ok.
    unfold bind. rewrite upload_to_r2_ok. unfold ret.
    cbn [triples chunk_index total_triples total_bytes].
    rewrite chunk_puts_app, len_app, bytes_of_app, <- !app_assoc.
    cbn [chunk_puts app]. rewrite Z.add_0_l.
    unfold build_manifest.
    cbn [triples chunk_index total_triples total_bytes].
    change (len [y :: r]) with 1.
    change (bytes_of [y :: r]) with (len (chunk_body (y :: r)) + 0).
    rewrite Z.add_0_r. reflexivity.
Qed.

End Run.

(** ** The chunks of a run *)

Lemma chunk_body_encoded (c : list Triple.t) :
  encode_graphcol c NAMESPACE = Ok (chunk_body c).
Proof. apply encode_graphcol_ok. Qed.

Lemma all_stored_starts : starts (example_env all_stored).
Proof. intros path. discriminate. Qed.

Lemma second_rejected_starts : starts (example_env second_rejected).
Proof.
  intros path. unfold example_env, second_rejected. cbn [wrangler].
  destruct (str_eqb path (chunk_path (str "humans") 1)); discriminate.
Qed.

(** C1: a run over [L] triples with chunk size [C] uploads
    [ceil(L / C)] chunks (none when [L = 0]), which together are the
    triples in their order; every chunk but the last holds exactly [C]
    triples and no chunk is empty. *)
Theorem chunk_count_and_sizes (C : Z) (env : RunEnv) (name : pystr)
  (ds : Subset) :
  0 < C -> dataset env = Ok ds -> starts env ->
  exists chunks stats manifest,
    load_subset C env name []
    = (Ok stats,
       chunk_puts env name 0 chunks ++ [manifest_put env name manifest])
    /\ concat chunks = run_triples env ds
    /\ len chunks = (len (run_triples env ds) + C - 1) / C
    /\ (run_triples env ds = [] -> chunks = [])
    /\ Forall (fun c => 0 < len c <= C) chunks
    /\ (forall i, (S i < length chunks)%nat -> len (nth i chunks []) = C).
Proof.
  intros HC Hds Hstarts.
  exists (chunks_of C (run_triples env ds)), (run_stats C env ds),
         (run_manifest C env name ds).
  destruct (chunks_of_shape C (run_triples env ds) HC)
    as (Hcount & Hsizes & Hfull).
  split; [now rewrite (load_subset_run C env name Hstarts ds)|].
  split; [apply concat_chunks_of|].
  split; [exact Hcount|].
  split; [|split; assumption].
  intros Hnil. rewrite Hnil. reflexivity.
Qed.

Lemma chunk_count_and_sizes_witness :
  (0 < 2 /\ dataset (example_env all_stored) = Ok example_subset
   /\ starts (example_env all_stored))
  /\ exists chunks stats manifest,
       load_subset 2 (example_env all_stored) (str "humans") []
       = (Ok stats,
          chunk_puts (example_env all_stored) (str "humans") 0 chunks
          ++ [manifest_put (example_env all_stored) (str "humans") manifest])
       /\ concat chunks
          = run_triples (example_env all_stored) example_subset
       /\ len chunks
          = (len (run_triples (example_env all_stored) example_subset)
             + 2 - 1) / 2
       /\ (run_triples (example_env all_stored) example_subset = []
           -> chunks = [])
       /\ Forall (fun c => 0 < len c <= 2) chunks
       /\ (forall i, (S i < length chunks)%nat ->
                     len (nth i chunks []) = 2).
Proof.
  split; [split; [lia|split; [reflexivity|exact all_stored_starts]]|].
  apply (chunk_count_and_sizes 2 (example_env all_stored) (str "humans")
           example_subset);
    [lia|reflexivity|exact all_stored_starts].
Defined.

(** ** Chunk paths *)

Lemma chunk_path_format (name : pystr) (i : Z) :
  chunk_path name i
  = str "datasets/" ++ (str "wikidata/" ++ name)
    ++ str "/chunks/chunk_" ++ format_06d i ++ str ".graphcol".
Proof.
  unfold chunk_path, chunk_id.
  change (str "datasets/wikidata/") with (str "datasets/" ++ str "wikidata/").
  change (str "/chunks/chunk_") with (str "/chunks/" ++ str "chunk_").
  now rewrite <- !app_assoc.
Qed.

Lemma chunk_puts_paths (env : RunEnv) (name : pystr)
  (cs : list (list Triple.t)) :
  forall i : nat,
    map put_path (chunk_puts env name (Z.of_nat i) cs)
    = map (fun k => chunk_path name (Z.of_nat k)) (seq i (length cs)).
Proof.
  induction cs as [|c cs IH]; intros i; [reflexivity|].
  cbn [chunk_puts map length seq put_path chunk_put]. f_equal.
  replace (Z.of_nat i + 1) with (Z.of_nat (S i)) by lia. apply IH.
Qed.

Lemma chunk_puts_length (env : RunEnv) (name : pystr)
  (cs : list (list Triple.t)) (i : Z) :
  length (chunk_puts env name i cs) = length cs.
Proof.
  revert i. induction cs as [|c cs IH]; intros i; [reflexivity|].
  cbn [chunk_puts length]. now rewrite IH.
Qed.

Lemma chunk_puts_bodies (env : RunEnv) (name : pystr)
  (cs : list (list Triple.t)) (i : Z) :
  map put_body (chunk_puts env name i cs) = map chunk_body cs.
Proof.
  revert i. induction cs as [|c cs IH]; intros i; [reflexivity|].
  cbn [chunk_puts map put_body chunk_put]. now rewrite IH.
Qed.

(** C2: the triples of a run are cut into non-empty chunks, and the
    chunks are written in their order, chunk number [i] with its encoded
    triples at [datasets/<dataset>/chunks/chunk_<index>.graphcol], for
    the indices [0, 1, 2, ...] without gap or repeat, [<dataset>] being
    [wikidata/<subset>]; the index is written in decimal and padded with
    zeros to six digits (six digits exactly below a million; the first
    chunk is [chunk_000000]). *)
Theorem chunk_paths_contiguous (C : Z) (env : RunEnv) (name : pystr)
  (ds : Subset) :
  dataset env = Ok ds -> starts env ->
  exists chunks stats chunk_events manifest_event,
    load_subset C env name [] = (Ok stats, chunk_events ++ [manifest_event])
    /\ put_path manifest_event = manifest_path name
    /\ concat chunks = run_triples env ds
    /\ Forall (fun c => c <> []) chunks
    /\ map put_body chunk_events = map chunk_body chunks
    /\ map put_path chunk_events
       = map (fun i => str "datasets/" ++ (str "wikidata/" ++ name)
                       ++ str "/chunks/chunk_" ++ format_06d (Z.of_nat i)
                       ++ str ".graphcol")
             (seq 0 (length chunks))
    /\ format_06d 0 = str "000000"
    /\ (forall i, 0 <= i ->
          is_decimal (format_06d i)
          /\ decimal_value (format_06d i) = Z.to_N i
          /\ (6 <= length (format_06d i))%nat)
    /\ (forall i, 0 <= i < 1000000 -> length (format_06d i) = 6%nat).
Proof.
  intros Hds Hstarts.
  exists (chunks_of C (run_triples env ds)), (run_stats C env ds),
         (chunk_puts env name 0 (chunks_of C (run_triples env ds))),
         (manifest_put env name (run_manifest C env name ds)).
  split; [now rewrite (load_subset_run C env name Hstarts ds)|].
  split; [reflexivity|].
  split; [apply concat_chunks_of|].
  split; [apply chunks_of_nonempty|].
  split; [apply chunk_puts_bodies|].
  split.
  { rewrite (chunk_puts_paths env name _ 0).
    apply map_ext. intros i. apply chunk_path_format. }
  split; [reflexivity|].
  split.
  - intros i Hi. destruct (format_06d_padded i Hi) as [Hd Hl].
    split; [exact Hd|]. split; [now apply format_06d_value|exact Hl].
  - intros i Hi. now apply format_06d_six.
Qed.

Lemma chunk_paths_contiguous_witness :
  (dataset (example_env all_stored) = Ok example_subset
   /\ starts (example_env all_stored))
  /\ exists chunks stats chunk_events manifest_event,
       load_subset 2 (example_env all_stored) (str "humans") []
       = (Ok stats, chunk_events ++ [manifest_event])
       /\ put_path manifest_event = manifest_path (str "humans")
       /\ concat chunks
          = run_triples (example_env all_stored) example_subset
       /\ Forall (fun c => c <> []) chunks
       /\ map put_body chunk_events = map chunk_body chunks
       /\ map put_path chunk_events
          = map (fun i => str "datasets/" ++ (str "wikidata/" ++ str "humans")
                          ++ str "/chunks/chunk_" ++ format_06d (Z.of_nat i)
                          ++ str ".graphcol")
                (seq 0 (length chunks))
       /\ format_06d 0 = str "000000"
       /\ (forall i, 0 <= i ->
             is_decimal (format_06d i)
             /\ decimal_value (format_06d i) = Z.to_N i
             /\ (6 <= length (format_06d i))%nat)
       /\ (forall i, 0 <= i < 1000000 -> length (format_06d i) = 6%nat).
Proof.
  split; [split; [reflexivity|exact all_stored_starts]|].
  apply (chunk_paths_contiguous 2 (example_env all_stored) (str "humans")
           example_subset);
    [reflexivity|exact all_stored_starts].
Defined.

(** ** The manifest *)

Lemma sumZ_len_concat {A : Type} (l : list (list A)) :
  sumZ (map len l) = len (concat l).
Proof.
  induction l as [|c l IH]; [reflexivity|].
  cbn [map concat]. rewrite len_app, <- IH. reflexivity.
Qed.

Lemma run_triples_len (env : RunEnv) (ds : Subset) :
  len (run_triples env ds)
  = len (get_edges ds)
    + len (match get_labels ds with Some l => l | None => [] end).
Proof.
  unfold run_triples. rewrite len_app. unfold len.
  now rewrite !length_map.
Qed.

Lemma chunk_puts_results (env : RunEnv) (name : pystr)
  (cs : list (list Triple.t)) (i : Z) :
  starts env ->
  Forall (fun e => put_result e <> Crashed) (chunk_puts env name i cs).
Proof.
  intros Hstarts. revert i.
  induction cs as [|c cs IH]; intros i; constructor; [apply Hstarts|apply IH].
Qed.

Lemma stored_or_rejected (w : World) :
  Forall (fun e => put_result e <> Crashed) w ->
  len w = len (filter is_stored w) + len (filter is_rejected w).
Proof.
  induction 1 as [|e w He Hw IH]; [reflexivity|].
  cbn [filter].
  destruct (is_stored e) eqn:Es, (is_rejected e) eqn:Er;
    unfold is_stored, is_rejected in Es, Er;
    destruct (put_result e); try discriminate; try contradiction;
    rewrite !len_cons; lia.
Qed.

Lemma chunk_puts_len (env : RunEnv) (name : pystr)
  (cs : list (list Triple.t)) (i : Z) :
  len (chunk_puts env name i cs) = len cs.
Proof. unfold len. now rewrite chunk_puts_length. Qed.

Lemma stored_chunks_len (env : RunEnv) (name : pystr)
  (cs : list (list Triple.t)) :
  forall i,
    len (stored_chunks env name i cs)
    = len (filter is_stored (chunk_puts env name i cs)).
Proof.
  induction cs as [|c cs IH]; intros i; [reflexivity|].
  cbn [stored_chunks chunk_puts filter].
  destruct (is_stored (chunk_put env name i c)); [|apply IH].
  now rewrite !len_cons, IH.
Qed.

Lemma stored_chunks_all (env : RunEnv) (name : pystr)
  (cs : list (list Triple.t)) :
  forall i,
    Forall (fun e => put_result e = Stored) (chunk_puts env name i cs) ->
    stored_chunks env name i cs = cs.
Proof.
  induction cs as [|c cs IH]; intros i H; [reflexivity|].
  cbn [chunk_puts] in H. inversion H as [|e w He Hw]; subst.
  cbn [stored_chunks]. unfold is_stored. rewrite He. f_equal.
  now apply IH.
Qed.

(** C3 (as amended): in the manifest of a completed run, [totalChunks]
    is the number of chunks flushed, each of them uploaded once and its
    upload stored or rejected, and [totalTriples] is the sum of the
    triple counts of the flushed chunks, which is the number [L] of
    records read (edges and labels) whatever the uploads did; when no
    upload failed, the chunks stored are the chunks flushed, so
    [totalChunks] is the number of chunks stored and [totalTriples] the
    sum of their triple counts. *)
Theorem manifest_totals (C : Z) (env : RunEnv) (name : pystr) (ds : Subset) :
  dataset env = Ok ds -> starts env ->
  exists chunks stats m,
    load_subset C env name []
    = (Ok stats, chunk_puts env name 0 chunks ++ [manifest_put env name m])
    /\ concat chunks = run_triples env ds
    /\ Forall (fun c => c <> []) chunks
    /\ manifest_bytes m = Ok (put_body (manifest_put env name m))
    /\ Manifest.totalChunks (Manifest.stats_ m) = len chunks
    /\ Manifest.totalChunks (Manifest.stats_ m)
       = len (stored_chunks env name 0 chunks)
         + len (filter is_rejected (chunk_puts env name 0 chunks))
    /\ Manifest.totalTriples (Manifest.stats_ m) = sumZ (map len chunks)
    /\ Manifest.totalTriples (Manifest.stats_ m)
       = len (get_edges ds)
         + len (match get_labels ds with Some l => l | None => [] end)
    /\ (Forall (fun e => put_result e = Stored)
               (chunk_puts env name 0 chunks) ->
        stored_chunks env name 0 chunks = chunks
        /\ Manifest.totalChunks (Manifest.stats_ m)
           = len (stored_chunks env name 0 chunks)
        /\ Manifest.totalTriples (Manifest.stats_ m)
           = sumZ (map len (stored_chunks env name 0 chunks))).
Proof.
  intros Hds Hstarts.
  exists (chunks_of C (run_triples env ds)), (run_stats C env ds),
         (run_manifest C env name ds).
  split; [now rewrite (load_subset_run C env name Hstarts ds)|].
  split; [apply concat_chunks_of|].
  split; [apply chunks_of_nonempty|].
  split; [apply manifest_bytes_ok|].
  split; [reflexivity|].
  split.
  { rewrite stored_chunks_len.
    rewrite <- stored_or_rejected by now apply chunk_puts_results.
    now rewrite chunk_puts_len. }
  assert (Hsum : Manifest.totalTriples
                   (Manifest.stats_ (run_manifest C env name ds))
                 = sumZ (map len (chunks_of C (run_triples env ds))))
    by now rewrite sumZ_len_concat, concat_chunks_of.
  split; [exact Hsum|].
  split; [apply run_triples_len|].
  intros Hall. rewrite (stored_chunks_all _ _ _ _ Hall).
  split; [reflexivity|]. split; [reflexivity|exact Hsum].
Qed.

Lemma manifest_totals_witness :
  (dataset (example_env all_stored) = Ok example_subset
   /\ starts (example_env all_stored))
  /\ exists chunks stats m,
       load_subset 2 (example_env all_stored) (str "humans") []
       = (Ok stats,
          chunk_puts (example_env all_stored) (str "humans") 0 chunks
          ++ [manifest_put (example_env all_stored) (str "humans") m])
       /\ concat chunks
          = run_triples (example_env all_stored) example_subset
       /\ Forall (fun c => c <> []) chunks
       /\ manifest_bytes m
          = Ok (put_body
                  (manifest_put (example_env all_stored) (str "humans") m))
       /\ Manifest.totalChunks (Manifest.stats_ m) = len chunks
       /\ Manifest.totalChunks (Manifest.stats_ m)
          = len (stored_chunks (example_env all_stored) (str "humans") 0
                   chunks)
            + len (filter is_rejected
                     (chunk_puts (example_env all_stored) (str "humans") 0
                        chunks))
       /\ Manifest.totalTriples (Manifest.stats_ m) = sumZ (map len chunks)
       /\ Manifest.totalTriples (Manifest.stats_ m)
          = len (get_edges example_subset)
            + len (match get_labels example_subset with
                   | Some l => l
                   | None => []
                   end)
       /\ (Forall (fun e => put_result e = Stored)
                  (chunk_puts (example_env all_stored) (str "humans") 0
                     chunks) ->
           stored_chunks (example_env all_stored) (str "humans") 0 chunks
           = chunks
           /\ Manifest.totalChunks (Manifest.stats_ m)
              = len (stored_chunks (example_env all_stored) (str "humans") 0
                       chunks)
           /\ Manifest.totalTriples (Manifest.stats_ m)
              = sumZ (map len
                        (stored_chunks (example_env all_stored)
                           (str "humans") 0 chunks))).
Proof.
  split; [split; [reflexivity|exact all_stored_starts]|].
  apply (manifest_totals 2 (example_env all_stored) (str "humans")
           example_subset);
    [reflexivity|exact all_stored_starts].
Defined.

(** C3 (as stated, refuted): five triples in chunks of two, the upload of
    chunk [000001] rejected: the run completes and stores the chunks
    [000000] and [000002], three triples in all, while its manifest says
    three chunks and five triples. *)
Lemma rejected_chunk_triples_are_counted :
  exists stats chunks m,
    load_subset 2 (example_env second_rejected) (str "humans") []
    = (Ok stats,
       chunk_puts (example_env second_rejected) (str "humans") 0 chunks
       ++ [manifest_put (example_env second_rejected) (str "humans") m])
    /\ map len chunks = [2; 2; 1]
    /\ map put_result
         (chunk_puts (example_env second_rejected) (str "humans") 0 chunks)
       = [Stored; Rejected; Stored]
    /\ map len
         (stored_chunks (example_env second_rejected) (str "humans") 0 chunks)
       = [2; 1]
    /\ Manifest.totalChunks (Manifest.stats_ m) = 3
    /\ Manifest.totalChunks (Manifest.stats_ m)
       <> len (stored_chunks (example_env second_rejected) (str "humans") 0
                 chunks)
    /\ Manifest.totalTriples (Manifest.stats_ m) = 5
    /\ Manifest.totalTriples (Manifest.stats_ m)
       <> sumZ (map len
                  (stored_chunks (example_env second_rejected) (str "humans")
                     0 chunks)).
Proof.
  exists (run_stats 2 (example_env second_rejected) example_subset),
         (chunks_of 2
            (run_triples (example_env second_rejected) example_subset)),
         (run_manifest 2 (example_env second_rejected) (str "humans")
            example_subset).
  split.
  - now rewrite (load_subset_run 2 _ _ second_rejected_starts example_subset).
  - split; [vm_compute; reflexivity|].
    split; [vm_compute; reflexivity|].
    split; [vm_compute; reflexivity|].
    split; [vm_compute; reflexivity|].
    split; [vm_compute; discriminate|].
    split; [vm_compute; reflexivity|].
    vm_compute. discriminate.
Qed.

(** C4 (as amended): when the upload command of some chunks exits with an
    error, the run goes on to the end, and [totalChunks] in the manifest
    counts every flushed chunk, the failed ones included: it is the
    number of chunks stored plus the number of chunks rejected. *)
Theorem manifest_counts_every_flushed_chunk (C : Z) (env : RunEnv)
  (name : pystr) (ds : Subset) :
  dataset env = Ok ds -> starts env ->
  exists chunk_events stats m,
    load_subset C env name []
    = (Ok stats, chunk_events ++ [manifest_put env name m])
    /\ Stats.chunks stats = Manifest.totalChunks (Manifest.stats_ m)
    /\ Manifest.totalChunks (Manifest.stats_ m) = len chunk_events
    /\ Manifest.totalChunks (Manifest.stats_ m)
       = len (filter is_stored chunk_events)
         + len (filter is_rejected chunk_events).
Proof.
  intros Hds Hstarts.
  exists (chunk_puts env name 0 (chunks_of C (run_triples env ds))),
         (run_stats C env ds), (run_manifest C env name ds).
  split; [now rewrite (load_subset_run C env name Hstarts ds)|].
  split; [reflexivity|].
  split; [now rewrite chunk_puts_len|].
  rewrite <- stored_or_rejected by now apply chunk_puts_results.
  now rewrite chunk_puts_len.
Qed.

Lemma manifest_counts_every_flushed_chunk_witness :
  (dataset (example_env second_rejected) = Ok example_subset
   /\ starts (example_env second_rejected))
  /\ exists chunk_events stats m,
       load_subset 2 (example_env second_rejected) (str "humans") []
       = (Ok stats,
          chunk_events
          ++ [manifest_put (example_env second_rejected) (str "humans") m])
       /\ Stats.chunks stats = Manifest.totalChunks (Manifest.stats_ m)
       /\ Manifest.totalChunks (Manifest.stats_ m) = len chunk_events
       /\ Manifest.totalChunks (Manifest.stats_ m)
          = len (filter is_stored chunk_events)
            + len (filter is_rejected chunk_events).
Proof.
  split; [split; [reflexivity|exact second_rejected_starts]|].
  apply (manifest_counts_every_flushed_chunk 2 (example_env second_rejected)
           (str "humans") example_subset);
    [reflexivity|exact second_rejected_starts].
Defined.

(** C4 (as stated, refuted): five triples in chunks of two, the upload of
    chunk [000001] failing: the run completes, two chunks are stored and
    the manifest says three. *)
Lemma rejected_chunk_is_counted :
  exists stats chunk_events m,
    load_subset 2 (example_env second_rejected) (str "humans") []
    = (Ok stats,
       chunk_events
       ++ [manifest_put (example_env second_rejected) (str "humans") m])
    /\ map put_result chunk_events = [Stored; Rejected; Stored]
    /\ len (filter is_stored chunk_events) = 2
    /\ Manifest.totalChunks (Manifest.stats_ m) = 3
    /\ Manifest.totalChunks (Manifest.stats_ m)
       <> len (filter is_stored chunk_events).
Proof.
  exists (run_stats 2 (example_env second_rejected) example_subset),
         (chunk_puts (example_env second_rejected) (str "humans") 0
            (chunks_of 2
               (run_triples (example_env second_rejected) example_subset))),
         (run_manifest 2 (example_env second_rejected) (str "humans")
            example_subset).
  split.
  - now rewrite (load_subset_run 2 _ _ second_rejected_starts example_subset).
  - split; [vm_compute; reflexivity|].
    split; [vm_compute; reflexivity|].
    split; [vm_compute; reflexivity|].
    vm_compute. discriminate.
Qed.

(** C10: the triples of a run are cut into chunks, each chunk is encoded
    and uploaded, and [totalSizeBytes] is the sum of the lengths of the
    payloads the encoder produced for these chunks, whatever the upload
    command did with them: a run that differs only in the outcomes of the
    uploads reports the same number of bytes. *)
Theorem manifest_size_is_encoded_bytes (C : Z) (env : RunEnv) (name : pystr)
  (ds : Subset) :
  dataset env = Ok ds -> starts env ->
  exists chunks stats m,
    load_subset C env name []
    = (Ok stats, chunk_puts env name 0 chunks ++ [manifest_put env name m])
    /\ concat chunks = run_triples env ds
    /\ Forall (fun c => c <> []) chunks
    /\ Forall (fun c => encode_graphcol c NAMESPACE = Ok (chunk_body c)) chunks
    /\ Manifest.totalSizeBytes (Manifest.stats_ m)
       = sumZ (map (fun c => len (chunk_body c)) chunks)
    /\ Manifest.totalSizeBytes (Manifest.stats_ m)
       = sumZ (map (fun e => len (put_body e)) (chunk_puts env name 0 chunks))
    /\ Stats.bytes stats = Manifest.totalSizeBytes (Manifest.stats_ m)
    /\ (forall outcome : pystr -> put_outcome,
          (forall path, outcome path <> Crashed) ->
          exists stats' w',
            load_subset C
              {| dataset := dataset env; clock_ulid := clock_ulid env;
                 entropy := entropy env; clock_ts := clock_ts env;
                 clock_created := clock_created env; wrangler := outcome |}
              name []
            = (Ok stats', w')
            /\ map put_body w'
               = map put_body
                   (chunk_puts env name 0 chunks ++ [manifest_put env name m])
            /\ Stats.bytes stats' = Stats.bytes stats).
Proof.
  intros Hds Hstarts.
  exists (chunks_of C (run_triples env ds)), (run_stats C env ds),
         (run_manifest C env name ds).
  split; [now rewrite (load_subset_run C env name Hstarts ds)|].
  split; [apply concat_chunks_of|].
  split; [apply chunks_of_nonempty|].
  split; [apply Forall_forall; intros c _; apply chunk_body_encoded|].
  split; [reflexivity|].
  split.
  { cbn [run_manifest Manifest.totalSizeBytes Manifest.stats_].
    unfold bytes_of. generalize 0.
    induction (chunks_of C (run_triples env ds)) as [|c cs IH]; intros i;
      [reflexivity|].
    cbn [map chunk_puts sumZ fold_right put_body chunk_put].
    f_equal. apply IH. }
  split; [reflexivity|].
  intros outcome Hout. eexists _, _. split.
  - apply load_subset_run; [exact Hout|exact Hds].
  - split; [|reflexivity].
    unfold run_puts. cbn [app]. rewrite !map_app, !chunk_puts_bodies.
    reflexivity.
Qed.

Lemma manifest_size_is_encoded_bytes_witness :
  (dataset (example_env second_rejected) = Ok example_subset
   /\ starts (example_env second_rejected))
  /\ exists chunks stats m,
       load_subset 2 (example_env second_rejected) (str "humans") []
       = (Ok stats,
          chunk_puts (example_env second_rejected) (str "humans") 0 chunks
          ++ [manifest_put (example_env second_rejected) (str "humans") m])
       /\ concat chunks
          = run_triples (example_env second_rejected) example_subset
       /\ Forall (fun c => c <> []) chunks
       /\ Forall (fun c => encode_graphcol c NAMESPACE = Ok (chunk_body c))
                 chunks
       /\ Manifest.totalSizeBytes (Manifest.stats_ m)
          = sumZ (map (fun c => len (chunk_body c)) chunks)
       /\ Manifest.totalSizeBytes (Manifest.stats_ m)
          = sumZ (map (fun e => len (put_body e))
                    (chunk_puts (example_env second_rejected) (str "humans")
                       0 chunks))
       /\ Stats.bytes stats = Manifest.totalSizeBytes (Manifest.stats_ m)
       /\ (forall outcome : pystr -> put_outcome,
             (forall path, outcome path <> Crashed) ->
             exists stats' w',
               load_subset 2
                 {| dataset := dataset (example_env second_rejected);
                    clock_ulid := clock_ulid (example_env second_rejected);
                    entropy := entropy (example_env second_rejected);
                    clock_ts := clock_ts (example_env second_rejected);
                    clock_created :=
                      clock_created (example_env second_rejected);
                    wrangler := outcome |}
                 (str "humans") []
               = (Ok stats', w')
               /\ map put_body w'
                  = map put_body
                      (chunk_puts (example_env second_rejected) (str "humans")
                         0 chunks
                       ++ [manifest_put (example_env second_rejected)
                             (str "humans") m])
               /\ Stats.bytes stats' = Stats.bytes stats).
Proof.
  split; [split; [reflexivity|exact second_rejected_starts]|].
  apply (manifest_size_is_encoded_bytes 2 (example_env second_rejected)
           (str "humans") example_subset);
    [reflexivity|exact second_rejected_starts].
Defined.

(** ** The transaction identifier *)

Lemma run_triples_tx (env : RunEnv) (ds : Subset) :
  Forall (fun x => Triple.tx x = generate_ulid (clock_ulid env) (entropy env)
                   /\ Triple.ts x = clock_ts env)
         (run_triples env ds).
Proof.
  unfold run_triples. apply Forall_app. split; apply Forall_map;
    apply Forall_forall.
  - intros [[s r] o] _. split; reflexivity.
  - intros [e l] _. split; reflexivity.
Qed.

(** C8: a run generates one identifier of 26 characters, and every triple
    of every chunk it uploads, edge or label, carries this identifier in
    [tx] and the one timestamp of the run in [ts]. *)
Theorem one_transaction_id (C : Z) (env : RunEnv) (name : pystr)
  (ds : Subset) :
  dataset env = Ok ds -> starts env ->
  exists tx_id chunks stats m,
    tx_id = generate_ulid (clock_ulid env) (entropy env)
    /\ length tx_id = 26%nat
    /\ load_subset C env name []
       = (Ok stats, chunk_puts env name 0 chunks ++ [manifest_put env name m])
    /\ concat chunks
       = map (edge_triple tx_id (clock_ts env)) (get_edges ds)
         ++ map (label_triple tx_id (clock_ts env))
              (match get_labels ds with Some l => l | None => [] end)
    /\ Forall (Forall (fun x => Triple.tx x = tx_id
                                /\ Triple.ts x = clock_ts env)) chunks.
Proof.
  intros Hds Hstarts.
  exists (generate_ulid (clock_ulid env) (entropy env)),
         (chunks_of C (run_triples env ds)), (run_stats C env ds),
         (run_manifest C env name ds).
  split; [reflexivity|].
  split; [apply generate_ulid_length|].
  split; [now rewrite (load_subset_run C env name Hstarts ds)|].
  split; [apply concat_chunks_of|].
  apply Forall_concat. rewrite concat_chunks_of. apply run_triples_tx.
Qed.

Lemma one_transaction_id_witness :
  (dataset (example_env all_stored) = Ok example_subset
   /\ starts (example_env all_stored))
  /\ exists tx_id chunks stats m,
       tx_id = generate_ulid (clock_ulid (example_env all_stored))
                 (entropy (example_env all_stored))
       /\ length tx_id = 26%nat
       /\ load_subset 2 (example_env all_stored) (str "humans") []
          = (Ok stats,
             chunk_puts (example_env all_stored) (str "humans") 0 chunks
             ++ [manifest_put (example_env all_stored) (str "humans") m])
       /\ concat chunks
          = map (edge_triple tx_id (clock_ts (example_env all_stored)))
              (get_edges example_subset)
            ++ map (label_triple tx_id (clock_ts (example_env all_stored)))
                 (match get_labels example_subset with
                  | Some l => l
                  | None => []
                  end)
       /\ Forall (Forall (fun x =>
                            Triple.tx x = tx_id
                            /\ Triple.ts x
                               = clock_ts (example_env all_stored)))
                 chunks.
Proof.
  split; [split; [reflexivity|exact all_stored_starts]|].
  apply (one_transaction_id 2 (example_env all_stored) (str "humans")
           example_subset);
    [reflexivity|exact all_stored_starts].
Defined.

(** ** The multi-dataset run *)

Lemma framed_ret {A : Type} (a : A) : framed (ret a).
Proof. intros w. unfold ret. cbn. now rewrite app_nil_r. Qed.

Lemma framed_lift {A : Type} (r : result A) : framed (lift r).
Proof. intros w. unfold lift. cbn. now rewrite app_nil_r. Qed.

Lemma framed_bind {A B : Type} (m : M A) (k : A -> M B) :
  framed m -> (forall a, framed (k a)) -> framed (bind m k).
Proof.
  intros Hm Hk w. unfold bind. rewrite (Hm w).
  destruct (m []) as [[a|e] w1]; cbn [fst snd].
  - rewrite (Hk a (w ++ w1)), (Hk a w1). cbn [fst snd].
    now rewrite app_assoc.
  - reflexivity.
Qed.

Lemma framed_for_each {X S : Type} (body : X -> S -> M S) (xs : list X) :
  (forall x st, framed (body x st)) ->
  forall st, framed (for_each xs body st).
Proof.
  intros Hbody. induction xs as [|x xs IH]; intros st; cbn [for_each].
  - apply framed_ret.
  - apply framed_bind; [apply Hbody|exact IH].
Qed.

Lemma framed_upload (env : RunEnv) (body : bytes) (path : pystr) :
  framed (upload_to_r2 env body path).
Proof.
  intros w. unfold upload_to_r2.
  destruct (wrangler env path); reflexivity.
Qed.

Lemma framed_flush_chunk (env : RunEnv) (name : pystr) (st : Loader) :
  framed (flush_chunk env name st).
Proof.
  unfold flush_chunk. destruct (triples st); [apply framed_ret|].
  apply framed_bind; [apply framed_lift|]. intros encoded.
  apply framed_bind; [apply framed_upload|]. intros _. apply framed_ret.
Qed.

Lemma framed_add (C : Z) (env : RunEnv) (name : pystr) (x : Triple.t)
  (st : Loader) :
  framed (add C env name x st).
Proof.
  unfold add. destruct (C <=? _); [apply framed_flush_chunk|apply framed_ret].
Qed.

(** A run of [load_subset] does not look at the uploads made before it. *)
Lemma framed_load_subset (C : Z) (env : RunEnv) (name : pystr) :
  framed (load_subset C env name).
Proof.
  unfold load_subset.
  apply framed_bind; [apply framed_lift|]. intros ds.
  apply framed_bind; [apply framed_for_each; intros; apply framed_add|].
  intros st1.
  apply framed_bind; [apply framed_for_each; intros; apply framed_add|].
  intros st2.
  apply framed_bind; [apply framed_flush_chunk|]. intros st3.
  apply framed_bind; [apply framed_lift|]. intros body.
  apply framed_bind; [apply framed_upload|]. intros _. apply framed_ret.
Qed.

Lemma str_eqb_eq (a b : pystr) : str_eqb a b = true <-> a = b.
Proof.
  revert b. induction a as [|x a IH]; intros [|y b]; cbn [str_eqb];
    try (split; [discriminate|discriminate]); [tauto|].
  rewrite andb_true_iff, N.eqb_eq, IH.
  split; [intros [-> ->]; reflexivity|intros H; now inversion H].
Qed.

Lemma dict_set_fresh {V : Type} (d : list (pystr * V)) (key : pystr)
  (value : V) :
  ~ In key (map fst d) -> dict_set d key value = d ++ [(key, value)].
Proof.
  induction d as [|[k x] d IH]; intros Hfresh; [reflexivity|].
  cbn [dict_set app]. cbn [map fst In] in Hfresh.
  destruct (str_eqb k key) eqn:E.
  - apply str_eqb_eq in E. tauto.
  - rewrite IH by tauto. reflexivity.
Qed.

Lemma load_guarded_run (envs : pystr -> RunEnv) (s : pystr)
  (results : list (pystr * Stats.t)) (w : World) :
  load_guarded envs s results w
  = (Ok match outcome envs s with
        | Ok stats => dict_set results s stats
        | Raise _ => results
        end,
     w ++ uploads envs s).
Proof.
  unfold load_guarded, try_except, bind, outcome, uploads.
  rewrite (framed_load_subset CHUNK_SIZE (envs s) s w).
  destruct (load_subset CHUNK_SIZE (envs s) s []) as [[stats|e] w1];
    reflexivity.
Qed.

Lemma loaded_keys (envs : pystr -> RunEnv) (ss : list pystr) (s : pystr) :
  In s (map fst (loaded envs ss)) -> In s ss.
Proof.
  induction ss as [|x ss IH]; [tauto|].
  cbn [loaded flat_map]. fold (loaded envs ss).
  rewrite map_app, in_app_iff. intros [H|H]; [|right; now apply IH].
  left. destruct (outcome envs x); [|contradiction].
  destruct H as [H|[]]. exact H.
Qed.

(** The loop over the subsets: every subset is run, and the results hold
    exactly those that did not raise. *)
Lemma guarded_loop (envs : pystr -> RunEnv) (ss : list pystr) :
  NoDup ss ->
  forall (results : list (pystr * Stats.t)) (w : World),
    (forall s, In s ss -> ~ In s (map fst results)) ->
    for_each ss (load_guarded envs) results w
    = (Ok (results ++ loaded envs ss), w ++ flat_map (uploads envs) ss).
Proof.
  induction 1 as [|s ss Hs Hnd IH]; intros results w Hfresh.
  - cbn. now rewrite !app_nil_r.
  - cbn [for_each flat_map loaded]. fold (loaded envs ss).
    unfold bind. rewrite load_guarded_run.
    rewrite IH.
    + rewrite <- !app_assoc. f_equal. f_equal.
      destruct (outcome envs s); [|reflexivity].
      rewrite dict_set_fresh by (apply Hfresh; now left).
      now rewrite <- app_assoc.
    + intros s' Hin Hkey.
      destruct (outcome envs s) as [stats|e].
      * rewrite dict_set_fresh in Hkey by (apply Hfresh; now left).
        rewrite map_app, in_app_iff in Hkey.
        destruct Hkey as [Hkey|[Hkey|[]]].
        -- apply (Hfresh s'); [now right|exact Hkey].
        -- cbn in Hkey. subst s'. contradiction.
      * apply (Hfresh s'); [now right|exact Hkey].
Qed.

Lemma stats_add_0_l (a : Stats.t) : stats_add (Stats.mk 0 0 0) a = a.
Proof. destruct a. reflexivity. Qed.

Lemma stats_add_0_r (a : Stats.t) : stats_add a (Stats.mk 0 0 0) = a.
Proof. destruct a. unfold stats_add. cbn. now rewrite !Z.add_0_r. Qed.

Lemma stats_add_assoc (a b c : Stats.t) :
  stats_add (stats_add a b) c = stats_add a (stats_add b c).
Proof. unfold stats_add. cbn. now rewrite !Z.add_assoc. Qed.

Lemma grand_total_from (l : list (pystr * Stats.t)) :
  forall acc,
    fold_left
      (fun total kv =>
         Stats.mk (Stats.triples total + Stats.triples (snd kv))
                  (Stats.chunks total + Stats.chunks (snd kv))
                  (Stats.bytes total + Stats.bytes (snd kv)))
      l acc
    = stats_add acc (stats_sum (map snd l)).
Proof.
  induction l as [|kv l IH]; intros acc.
  - cbn. now rewrite stats_add_0_r.
  - cbn [fold_left map stats_sum fold_right]. rewrite IH.
    fold (stats_sum (map snd l)). now rewrite <- stats_add_assoc.
Qed.

Lemma loaded_sum (envs : pystr -> RunEnv) (ss : list pystr) :
  stats_sum (map snd (loaded envs ss))
  = stats_sum (map (fun s => contribution (outcome envs s)) ss).
Proof.
  induction ss as [|s ss IH]; [reflexivity|].
  cbn [loaded flat_map map]. fold (loaded envs ss).
  rewrite map_app. unfold stats_sum at 1. rewrite fold_right_app.
  fold (stats_sum (map snd (loaded envs ss))). rewrite IH.
  cbn [stats_sum fold_right].
  destruct (outcome envs s); cbn [map fold_right contribution].
  - reflexivity.
  - now rewrite stats_add_0_l.
Qed.

Lemma subsets_nodup : NoDup subsets.
Proof.
  unfold subsets.
  repeat (constructor;
          [cbn [In]; intros H;
           repeat (destruct H as [H|H]; [discriminate H|]); exact H|]).
  constructor.
Qed.

(** C9: in a run over all the datasets, each dataset is processed
    whatever happened to the others: the summary lists, in order, the
    datasets whose run did not raise, with the totals each returned, the
    uploads of every dataset are attempted, and the grand total adds the
    totals of the loaded datasets, a dataset that raised adding zero
    triples, chunks and bytes. *)
Theorem main_all_isolates_failures (envs : pystr -> RunEnv)
  (prog : pystr) (rest : list pystr) :
  main envs (prog :: str "all" :: rest) []
  = (Ok (Summary (loaded envs subsets)
                 (stats_sum
                    (map (fun s => contribution (outcome envs s)) subsets))),
     flat_map (uploads envs) subsets)
  /\ main envs [prog] [] = main envs (prog :: str "all" :: rest) []
  /\ (forall s stats,
        In s subsets ->
        (In (s, stats) (loaded envs subsets) <-> outcome envs s = Ok stats))
  /\ (forall e, contribution (Raise e) = Stats.mk 0 0 0).
Proof.
  assert (Hmain : main envs (prog :: str "all" :: rest) []
                  = (Ok (Summary (loaded envs subsets)
                           (stats_sum
                              (map (fun s => contribution (outcome envs s))
                                 subsets))),
                     flat_map (uploads envs) subsets)).
  { unfold main.
    change (str_eqb (str "all") (str "all")) with true. cbv iota.
    unfold bind. rewrite guarded_loop; [|exact subsets_nodup|tauto].
    cbn [app]. unfold ret, grand_total.
    rewrite grand_total_from, stats_add_0_l, loaded_sum. reflexivity. }
  split; [exact Hmain|].
  split; [reflexivity|].
  split; [|reflexivity].
  intros s stats Hin. unfold loaded. rewrite in_flat_map. split.
  - intros (s' & Hin' & Hs').
    destruct (outcome envs s') as [st|e] eqn:E; [|contradiction].
    destruct Hs' as [Hs'|[]]. inversion Hs'. subst. exact E.
  - intros Hok. exists s. split; [exact Hin|]. rewrite Hok. now left.
Qed.

(** An instance: [films] cannot be downloaded and the upload of the
    manifest of [countries] cannot start; the three other datasets are
    loaded and make up the grand total. *)
Example main_all_flaky :
  fst (main flaky_envs [str "loader"; str "all"] [])
  = Ok (Summary
          [(str "humans", Stats.mk 5 1 814);
           (str "companies", Stats.mk 5 1 814);
           (str "animals", Stats.mk 5 1 814)]
          (Stats.mk 15 3 2442)).
Proof. vm_compute. reflexivity. Qed.

(** * Further properties *)

(** ** Identifiers *)

Lemma str_get_ENCODING_in (i : Z) :
  0 <= i < 32 -> In (str_get ENCODING i) ENCODING.
Proof.
  intros Hi. unfold str_get. apply nth_In.
  change (length ENCODING) with 32%nat. lia.
Qed.

Lemma position_ENCODING (i : Z) :
  0 <= i < 32 -> position (str_get ENCODING i) ENCODING = i.
Proof.
  intros Hi. unfold str_get.
  rewrite <- (Z2Nat.id i) at 2 by lia.
  assert (Hn : (Z.to_nat i < 32)%nat) by lia.
  revert Hn. generalize (Z.to_nat i). clear. intros n Hn.
  do 32 (destruct n as [|n]; [reflexivity|]). lia.
Qed.

Lemma base32_in_alphabet (n : nat) (t : Z) :
  Forall (fun c => In c ENCODING) (base32 n t).
Proof.
  revert t. induction n as [|n IH]; intros t; cbn [base32]; [constructor|].
  apply Forall_app. split; [apply IH|].
  constructor; [|constructor].
  apply str_get_ENCODING_in. Z.div_mod_to_equations. lia.
Qed.

Lemma random_part_in_alphabet (rnd : nat -> Z) :
  Forall (fun c => In c ENCODING) (random_part rnd).
Proof.
  unfold random_part. apply Forall_map, Forall_forall. intros k _.
  apply str_get_ENCODING_in. unfold randint.
  Z.div_mod_to_equations. lia.
Qed.

Lemma skipn_length_app {A : Type} (n : nat) (x y : list A) :
  length x = n -> skipn n (x ++ y) = y.
Proof.
  intros <-. induction x as [|a x IH]; simpl; [reflexivity|exact IH].
Qed.

(** X1: every identifier has 26 characters, all of the 32 character
    alphabet; its first ten characters depend on the clock only and its
    last sixteen on the entropy only. *)
Theorem generate_ulid_shape (now now' : Z) (rnd rnd' : nat -> Z) :
  length (generate_ulid now rnd) = 26%nat
  /\ Forall (fun c => In c ENCODING) (generate_ulid now rnd)
  /\ firstn 10 (generate_ulid now rnd) = firstn 10 (generate_ulid now rnd')
  /\ skipn 10 (generate_ulid now rnd) = skipn 10 (generate_ulid now' rnd).
Proof.
  split; [apply generate_ulid_length|].
  split.
  - rewrite generate_ulid_parts. apply Forall_app.
    split; [apply base32_in_alphabet|apply random_part_in_alphabet].
  - split.
    + now rewrite !generate_ulid_prefix.
    + rewrite !generate_ulid_parts.
      now rewrite !skipn_length_app by apply base32_length.
Qed.

Lemma base32_value_snoc (s : pystr) (c : N) :
  base32_value (s ++ [c]) = 32 * base32_value s + position c ENCODING.
Proof. unfold base32_value. now rewrite fold_left_app. Qed.

Lemma base32_value_base32 (n : nat) (t : Z) :
  base32_value (base32 n t) = t mod 32 ^ Z.of_nat n.
Proof.
  revert t. induction n as [|n IH]; intros t.
  - cbn. now rewrite Z.mod_1_r.
  - cbn [base32]. rewrite base32_value_snoc, IH.
    rewrite position_ENCODING by (Z.div_mod_to_equations; lia).
    rewrite Nat2Z.inj_succ, Z.pow_succ_r by lia.
    rewrite Z.rem_mul_r by lia. lia.
Qed.

(** X2: the ten character prefix of an identifier is the clock value
    modulo [32^10] written in base 32: reading it back gives that
    number, for any clock value, negative ones included. *)
Theorem ulid_prefix_value (now : Z) (rnd : nat -> Z) :
  base32_value (firstn 10 (generate_ulid now rnd)) = now mod 32 ^ 10.
Proof.
  rewrite generate_ulid_prefix. apply (base32_value_base32 10).
Qed.

Lemma base32_mod (n : nat) (t : Z) :
  base32 n (t mod 32 ^ Z.of_nat n) = base32 n t.
Proof.
  revert t. induction n as [|n IH]; intros t; [reflexivity|].
  cbn [base32].
  rewrite Nat2Z.inj_succ, Z.pow_succ_r by lia.
  rewrite Z.rem_mul_r by lia.
  set (q := (t / 32) mod 32 ^ Z.of_nat n).
  replace ((t mod 32 + 32 * q) / 32) with q
    by (Z.div_mod_to_equations; lia).
  replace ((t mod 32 + 32 * q) mod 32) with (t mod 32)
    by (Z.div_mod_to_equations; lia).
  unfold q. now rewrite IH.
Qed.

(** X3: two identifiers have the same time prefix exactly when their
    clock values are equal modulo [32^10]; in particular the prefix
    repeats every [32^10] milliseconds. *)
Theorem ulid_prefix_collision (t1 t2 : Z) (r1 r2 : nat -> Z) :
  firstn 10 (generate_ulid t1 r1) = firstn 10 (generate_ulid t2 r2)
  <-> t1 mod 32 ^ 10 = t2 mod 32 ^ 10.
Proof.
  rewrite !generate_ulid_prefix. split.
  - intros H. apply (f_equal base32_value) in H.
    now rewrite !(base32_value_base32 10) in H.
  - intros H. rewrite <- (base32_mod 10 t1), <- (base32_mod 10 t2).
    change (Z.of_nat 10) with 10. now rewrite H.
Qed.

(** ** A run in any environment *)

Lemma for_each_app {X S : Type} (body : X -> S -> M S) (xs ys : list X) :
  forall st w,
    for_each (xs ++ ys) body st w
    = (st' <- for_each xs body st ;; for_each ys body st') w.
Proof.
  induction xs as [|x xs IH]; intros st w; [reflexivity|].
  cbn [for_each app]. unfold bind in *.
  destruct (body x st w) as [[st'|e] w']; [apply IH|reflexivity].
Qed.

Lemma until_crash_app (a b : World) :
  until_crash (a ++ b)
  = if existsb is_crashed a then until_crash a else a ++ until_crash b.
Proof.
  induction a as [|e a IH]; [reflexivity|].
  cbn [app until_crash existsb].
  destruct (is_crashed e); [reflexivity|].
  cbn [orb]. rewrite IH. now destruct (existsb is_crashed a).
Qed.

Lemma until_crash_none (w : World) :
  existsb is_crashed w = false -> until_crash w = w.
Proof.
  induction w as [|e w IH]; [reflexivity|].
  cbn [existsb until_crash]. destruct (is_crashed e); [discriminate|].
  cbn [orb]. intros H. now rewrite IH.
Qed.

Section AnyRun.

Variable C : Z.
Variable env : RunEnv.
Variable name : pystr.

Lemma upload_to_r2_any (body : bytes) (path : pystr) (w : World) :
  upload_to_r2 env body path w
  = let ev := {| put_path := path; put_body := body;
                 put_result := wrangler env path |} in
    (if is_crashed ev then Raise OSError else Ok tt, w ++ [ev]).
Proof.
  unfold upload_to_r2, is_crashed. cbn [put_result].
  destruct (wrangler env path); reflexivity.
Qed.

Lemma flush_chunk_any (st : Loader) (w : World) :
  triples st <> [] ->
  flush_chunk env name st w
  = let ev := chunk_put env name (chunk_index st) (triples st) in
    (if is_crashed ev then Raise OSError
     else Ok {| triples := [];
                chunk_index := chunk_index st + 1;
                total_triples := total_triples st;
                total_bytes :=
                  total_bytes st + len (chunk_body (triples st)) |},
     w ++ [ev]).
Proof.
  intros H. unfold flush_chunk.
  destruct (triples st) as [|x l] eqn:E; [contradiction|].
  unfold bind, lift. rewrite encode_graphcol_ok, upload_to_r2_any.
  cbv zeta. unfold chunk_put, chunk_body, is_crashed. cbn [put_result].
  destruct (wrangler env (chunk_path name (chunk_index st))); reflexivity.
Qed.

Lemma add_any (x : Triple.t) (st : Loader) (w : World) :
  add C env name x st w
  = if C <=? len (triples st ++ [x])
    then
      let ev := chunk_put env name (chunk_index st) (triples st ++ [x]) in
      (if is_crashed ev then Raise OSError
       else Ok {| triples := [];
                  chunk_index := chunk_index st + 1;
                  total_triples := total_triples st + 1;
                  total_bytes :=
                    total_bytes st + len (chunk_body (triples st ++ [x])) |},
       w ++ [ev])
    else (Ok {| triples := triples st ++ [x];
                chunk_index := chunk_index st;
                total_triples := total_triples st + 1;
                total_bytes := total_bytes st |}, w).
Proof.
  unfold add. cbn [triples].
  destruct (C <=? len (triples st ++ [x])); [|reflexivity].
  rewrite flush_chunk_any; [reflexivity|].
  cbn [triples]. now destruct (triples st).
Qed.

(** The loop over the triples [xs], whatever the upload command does: it
    stops at the first upload that cannot start. *)
Lemma adds_any (xs : list Triple.t) :
  forall (st : Loader) (w : World),
    for_each xs (add C env name) st w
    = let plan :=
        chunk_puts env name (chunk_index st) (flushed C (triples st) xs) in
      if existsb is_crashed plan
      then (Raise OSError, w ++ until_crash plan)
      else (Ok {| triples := pending C (triples st) xs;
                  chunk_index :=
                    chunk_index st + len (flushed C (triples st) xs);
                  total_triples := total_triples st + len xs;
                  total_bytes :=
                    total_bytes st + bytes_of (flushed C (triples st) xs) |},
            w ++ plan).
Proof.
  induction xs as [|x xs IH]; intros st w.
  - cbn [for_each flushed pending chunk_puts existsb]. unfold ret. cbv zeta.
    rewrite app_nil_r. destruct st as [t i n b]. cbn.
    now rewrite !Z.add_0_r.
  - cbn [for_each]. unfold bind. rewrite add_any.
    cbn [flushed pending]. cbv zeta.
    destruct (C <=? len (triples st ++ [x])).
    + cbn [chunk_puts existsb until_crash].
      destruct (is_crashed
                  (chunk_put env name (chunk_index st) (triples st ++ [x]))).
      * reflexivity.
      * cbn [orb]. rewrite IH. cbv zeta.
        cbn [triples chunk_index total_triples total_bytes].
        destruct (existsb is_crashed
                    (chunk_puts env name (chunk_index st + 1)
                       (flushed C [] xs))).
        -- now rewrite <- app_assoc.
        -- rewrite <- app_assoc. cbn [app].
           rewrite !len_cons, bytes_of_cons, !Z.add_assoc. reflexivity.
    + rewrite IH. cbv zeta.
      cbn [triples chunk_index total_triples total_bytes].
      destruct (existsb is_crashed
                  (chunk_puts env name (chunk_index st)
                     (flushed C (triples st ++ [x]) xs))); [reflexivity|].
      rewrite !len_cons, !Z.add_assoc. reflexivity.
Qed.

(** What [load_subset] does in every environment: nothing when the
    dataset is not available; otherwise the uploads of the run one after
    the other, up to the first that cannot start. *)
Lemma load_subset_any (w : World) :
  load_subset C env name w
  = match dataset env with
    | Raise e => (Raise e, w)
    | Ok ds =>
        let plan := run_puts C env name ds in
        if existsb is_crashed plan
        then (Raise OSError, w ++ until_crash plan)
        else (Ok (run_stats C env ds), w ++ plan)
    end.
Proof.
  unfold load_subset. unfold bind at 1. unfold lift at 1.
  destruct (dataset env) as [ds|e]; [|reflexivity].
  set (tx := generate_ulid (clock_ulid env) (entropy env)).
  set (E := map (edge_triple tx (clock_ts env)) (get_edges ds)).
  set (Lb := map (label_triple tx (clock_ts env))
               match get_labels ds with Some l => l | None => [] end).
  set (st0 := {| triples := []; chunk_index := 0;
                 total_triples := 0; total_bytes := 0 |}).
  assert (Hloops :
            forall k : Loader -> M Stats.t,
              (st <- for_each (get_edges ds)
                       (fun e st => add C env name
                                      (edge_triple tx (clock_ts env) e) st)
                       st0 ;;
               st <- for_each
                       match get_labels ds with Some l => l | None => [] end
                       (fun l st => add C env name
                                      (label_triple tx (clock_ts env) l) st)
                       st ;;
               k st) w
              = (st <- for_each (E ++ Lb) (add C env name) st0 ;; k st) w).
  { intros k. unfold bind. rewrite for_each_app. unfold bind.
    rewrite for_each_map. fold E.
    destruct (for_each E (add C env name) st0 w) as [[st1|e] w1];
      [|reflexivity].
    rewrite for_each_map. reflexivity. }
  rewrite Hloops. clear Hloops.
  unfold bind at 1. rewrite adds_any. cbv zeta.
  change (E ++ Lb) with (run_triples env ds).
  set (all := run_triples env ds).
  unfold run_puts, run_stats, run_manifest, chunks_of. fold all.
  cbn [triples chunk_index st0]. rewrite !Z.add_0_l.
  rewrite chunk_puts_app, Z.add_0_l.
  rewrite !existsb_app, <- !app_assoc, until_crash_app.
  destruct (existsb is_crashed (chunk_puts env name 0 (flushed C [] all)))
    eqn:Hcrash; [reflexivity|].
  cbn [orb].
  destruct (pending C [] all) as [|y r] eqn:Hp.
  - unfold bind at 1. rewrite flush_chunk_empty by reflexivity.
    unfold bind at 1. unfold lift. rewrite manifest_bytes_ok.
    unfold bind. rewrite upload_to_r2_any. cbv zeta. unfold ret.
    cbn [chunk_puts app existsb until_crash orb].
    unfold build_manifest.
    cbn [triples chunk_index total_triples total_bytes].
    rewrite !app_nil_r.
    fold (manifest_put env name
            {| Manifest.version := 1;
               Manifest.namespace := NAMESPACE;
               Manifest.dataset := str "wikidata/" ++ name;
               Manifest.stats_ :=
                 {| Manifest.totalTriples := len all;
                    Manifest.totalChunks := len (flushed C [] all);
                    Manifest.totalSizeBytes := bytes_of (flushed C [] all) |};
               Manifest.createdAt := clock_created env |}).
    destruct (is_crashed _); cbn [orb]; rewrite <- ?app_assoc; reflexivity.
  - unfold bind at 1. rewrite flush_chunk_any by (cbn [triples]; discriminate).
    cbv zeta. cbn [triples chunk_index total_triples total_bytes].
    cbn [chunk_puts app existsb until_crash].
    destruct (is_crashed
                (chunk_put env name (len (flushed C [] all)) (y :: r)));
      [cbn [orb]; rewrite <- ?app_assoc; reflexivity|].
    cbn [orb].
    unfold bind at 1. unfold lift. rewrite manifest_bytes_ok.
    unfold bind. rewrite upload_to_r2_any. cbv zeta. unfold ret.
    unfold build_manifest.
    cbn [triples chunk_index total_triples total_bytes].
    rewrite len_app, bytes_of_app, <- !app_assoc. cbn [app].
    change (len [y :: r]) with 1.
    change (bytes_of [y :: r]) with (len (chunk_body (y :: r)) + 0).
    rewrite Z.add_0_r.
    fold (manifest_put env name
            {| Manifest.version := 1;
               Manifest.namespace := NAMESPACE;
               Manifest.dataset := str "wikidata/" ++ name;
               Manifest.stats_ :=
                 {| Manifest.totalTriples := len all;
                    Manifest.totalChunks := len (flushed C [] all) + 1;
                    Manifest.totalSizeBytes :=
                      bytes_of (flushed C [] all)
                      + len (chunk_body (y :: r)) |};
               Manifest.createdAt := clock_created env |}).
    destruct (is_crashed _); cbn [orb]; rewrite <- ?app_assoc; reflexivity.
Qed.

End AnyRun.

(** ** Failures of a run *)

Lemma chunk_path_not_manifest (name : pystr) (i : Z) :
  chunk_path name i <> manifest_path name.
Proof.
  unfold chunk_path, manifest_path. intros H.
  apply app_inv_head in H. apply app_inv_head in H.
  discriminate H.
Qed.

Lemma chunk_puts_are_chunks (env : RunEnv) (name : pystr)
  (cs : list (list Triple.t)) :
  forall i,
    Forall (fun ev => exists k, put_path ev = chunk_path name k)
           (chunk_puts env name i cs).
Proof.
  induction cs as [|c cs IH]; intros i; constructor; [|apply IH].
  now exists i.
Qed.

Lemma until_crash_Forall (P : PutEvent -> Prop) (w : World) :
  Forall P w -> Forall P (until_crash w).
Proof.
  induction 1 as [|e w He Hw IH]; [constructor|].
  cbn [until_crash]. destruct (is_crashed e); constructor; trivial.
Qed.

Lemma not_crashed_Forall (w : World) :
  existsb is_crashed w = false ->
  Forall (fun ev => put_result ev <> Crashed) w.
Proof.
  induction w as [|e w IH]; [constructor|].
  cbn [existsb]. intros H. apply orb_false_iff in H. destruct H as [He Hw].
  constructor; [|now apply IH].
  unfold is_crashed in He. now destruct (put_result e).
Qed.

(** The uploads up to the first crash: those before it did start, the
    last one did not, and nothing after it was attempted. *)
Lemma until_crash_split (w : World) :
  existsb is_crashed w = true ->
  exists pre ev post,
    w = pre ++ ev :: post
    /\ Forall (fun e => put_result e <> Crashed) pre
    /\ put_result ev = Crashed
    /\ until_crash w = pre ++ [ev].
Proof.
  induction w as [|e w IH]; [discriminate|].
  cbn [existsb until_crash]. destruct (is_crashed e) eqn:He.
  - intros _. exists [], e, w. repeat split; [constructor|].
    unfold is_crashed in He. now destruct (put_result e).
  - cbn [orb]. intros H. destruct (IH H) as (pre & ev & post & -> & Hpre & Hev & Hu).
    exists (e :: pre), ev, post. repeat split; trivial.
    + constructor; [|exact Hpre].
      unfold is_crashed in He. now destruct (put_result e).
    + cbn [app]. now rewrite Hu.
Qed.

(** X4: flushing twice is flushing once, in any environment. A flush of
    an empty buffer uploads nothing and changes nothing. A flush of a
    buffer that holds something makes one upload, that of the buffer as
    the chunk of the current index; when the upload command starts, the
    flush returns with an empty buffer, the index advanced by one, the
    bytes of the payload counted and the triple count untouched, and
    otherwise it raises. So a flush that returns leaves the buffer
    empty. *)
Theorem flush_chunk_idempotent (env : RunEnv) (name : pystr) (st : Loader)
  (w : World) :
  (st' <- flush_chunk env name st ;; flush_chunk env name st') w
  = flush_chunk env name st w
  /\ (triples st = [] -> flush_chunk env name st w = (Ok st, w))
  /\ (triples st <> [] ->
      snd (flush_chunk env name st w)
      = w ++ [chunk_put env name (chunk_index st) (triples st)]
      /\ fst (flush_chunk env name st w)
         = if is_crashed (chunk_put env name (chunk_index st) (triples st))
           then Raise OSError
           else Ok {| triples := [];
                      chunk_index := chunk_index st + 1;
                      total_triples := total_triples st;
                      total_bytes :=
                        total_bytes st + len (chunk_body (triples st)) |})
  /\ (forall st' w',
        flush_chunk env name st w = (Ok st', w') -> triples st' = []).
Proof.
  split; [|split; [apply flush_chunk_empty|split]].
  - unfold bind. destruct (triples st) as [|x l] eqn:E.
    + now rewrite !flush_chunk_empty.
    + rewrite flush_chunk_any by (rewrite E; discriminate). cbv zeta.
      destruct (is_crashed _); [reflexivity|].
      now rewrite flush_chunk_empty.
  - intros Hne. rewrite flush_chunk_any by exact Hne. cbv zeta.
    split; reflexivity.
  - intros st' w' H. destruct (triples st) as [|x l] eqn:E.
    + rewrite flush_chunk_empty in H by exact E.
      inversion H; subst. exact E.
    + rewrite flush_chunk_any in H by (rewrite E; discriminate).
      cbv zeta in H. destruct (is_crashed _); [discriminate|].
      inversion H; subst. reflexivity.
Qed.

(** X5: in any environment, a run of the accumulator loop that returns
    keeps its books: the buffer stays below the chunk size, the chunk
    counter has advanced by the number of uploads made, every triple is
    counted, and the triples received are those of the full chunks
    flushed plus those left in the buffer. *)
Theorem accumulator_invariant (C : Z) (env : RunEnv) (name : pystr)
  (xs : list Triple.t) (st st' : Loader) (w w' : World) :
  0 < C -> len (triples st) < C ->
  for_each xs (add C env name) st w = (Ok st', w') ->
  len (triples st') < C
  /\ total_triples st' = total_triples st + len xs
  /\ exists new,
       w' = w ++ new
       /\ chunk_index st' = chunk_index st + len new
       /\ len (triples st) + len xs = C * len new + len (triples st').
Proof.
  intros HC Hbuf Hrun. rewrite adds_any in Hrun. cbv zeta in Hrun.
  destruct (existsb is_crashed _); [discriminate|].
  inversion Hrun; subst; clear Hrun.
  cbn [triples chunk_index total_triples].
  destruct (flushed_full C xs (triples st) HC Hbuf) as (_ & Hpend & Hsum).
  split; [exact Hpend|]. split; [reflexivity|].
  eexists. split; [reflexivity|].
  rewrite chunk_puts_len. split; [reflexivity|exact Hsum].
Qed.

Lemma accumulator_invariant_witness :
  exists st' w',
    (0 < 2 /\ len (triples example_state) < 2
     /\ for_each [label_example; q42_triple; label_example]
          (add 2 (example_env second_rejected) (str "humans"))
          example_state []
        = (Ok st', w'))
    /\ len (triples st') < 2
    /\ total_triples st' = total_triples example_state + 3
    /\ exists new,
         w' = [] ++ new
         /\ chunk_index st' = chunk_index example_state + len new
         /\ len (triples example_state) + 3
            = 2 * len new + len (triples st').
Proof.
  assert (H1 : 0 < 2) by lia.
  assert (H2 : len (triples example_state) < 2) by (vm_compute; reflexivity).
  destruct (for_each [label_example; q42_triple; label_example]
              (add 2 (example_env second_rejected) (str "humans"))
              example_state []) as [[st'|e] w'] eqn:H3.
  - exists st', w'. split; [repeat split; assumption|].
    exact (accumulator_invariant 2 (example_env second_rejected)
             (str "humans") _ _ _ _ _ H1 H2 H3).
  - exfalso. vm_compute in H3. discriminate H3.
Defined.

(** X6: a run that returns has done everything: the dataset was
    available, no upload failed to start, the uploads are those of all
    the chunks followed by the manifest, and the totals returned are
    those of the run. *)
Theorem completed_run (C : Z) (env : RunEnv) (name : pystr)
  (stats : Stats.t) (w : World) :
  load_subset C env name [] = (Ok stats, w) ->
  exists ds,
    dataset env = Ok ds
    /\ stats = run_stats C env ds
    /\ w = chunk_puts env name 0 (chunks_of C (run_triples env ds))
           ++ [manifest_put env name (run_manifest C env name ds)]
    /\ Forall (fun ev => put_result ev <> Crashed) w.
Proof.
  intros Hrun. rewrite load_subset_any in Hrun.
  destruct (dataset env) as [ds|e]; [|discriminate].
  cbv zeta in Hrun.
  destruct (existsb is_crashed (run_puts C env name ds)) eqn:Hc;
    [discriminate|].
  inversion Hrun; subst; clear Hrun.
  exists ds. repeat split. now apply not_crashed_Forall.
Qed.

Lemma completed_run_witness :
  load_subset 2 (example_env second_rejected) (str "humans") []
  = (Ok (run_stats 2 (example_env second_rejected) example_subset),
     run_puts 2 (example_env second_rejected) (str "humans") example_subset)
  /\ exists ds,
       dataset (example_env second_rejected) = Ok ds
       /\ run_stats 2 (example_env second_rejected) example_subset
          = run_stats 2 (example_env second_rejected) ds
       /\ run_puts 2 (example_env second_rejected) (str "humans")
            example_subset
          = chunk_puts (example_env second_rejected) (str "humans") 0
              (chunks_of 2 (run_triples (example_env second_rejected) ds))
            ++ [manifest_put (example_env second_rejected) (str "humans")
                  (run_manifest 2 (example_env second_rejected)
                     (str "humans") ds)]
       /\ Forall (fun ev => put_result ev <> Crashed)
            (run_puts 2 (example_env second_rejected) (str "humans")
               example_subset).
Proof.
  assert (H : load_subset 2 (example_env second_rejected) (str "humans") []
              = (Ok (run_stats 2 (example_env second_rejected)
                       example_subset),
                 run_puts 2 (example_env second_rejected) (str "humans")
                   example_subset))
    by (vm_compute; reflexivity).
  split; [exact H|].
  exact (completed_run 2 (example_env second_rejected) (str "humans") _ _ H).
Defined.

(** X7: when the upload command cannot start for one of the uploads of a
    run, the run raises at the first such upload: the uploads before it
    were made and stay, and nothing after it is attempted. *)
Theorem crash_stops_the_run (C : Z) (env : RunEnv) (name : pystr)
  (ds : Subset) :
  dataset env = Ok ds ->
  existsb is_crashed (run_puts C env name ds) = true ->
  exists pre ev post,
    run_puts C env name ds = pre ++ ev :: post
    /\ Forall (fun e => put_result e <> Crashed) pre
    /\ put_result ev = Crashed
    /\ load_subset C env name [] = (Raise OSError, pre ++ [ev]).
Proof.
  intros Hds Hcrash.
  destruct (until_crash_split _ Hcrash) as (pre & ev & post & Hw & Hpre & Hev & Hu).
  exists pre, ev, post. repeat split; trivial.
  rewrite load_subset_any, Hds. cbv zeta. rewrite Hcrash, Hu. reflexivity.
Qed.

Lemma crash_stops_the_run_witness :
  (dataset (example_env second_crashed) = Ok example_subset
   /\ existsb is_crashed
        (run_puts 2 (example_env second_crashed) (str "humans")
           example_subset) = true)
  /\ exists pre ev post,
       run_puts 2 (example_env second_crashed) (str "humans") example_subset
       = pre ++ ev :: post
       /\ Forall (fun e => put_result e <> Crashed) pre
       /\ put_result ev = Crashed
       /\ load_subset 2 (example_env second_crashed) (str "humans") []
          = (Raise OSError, pre ++ [ev]).
Proof.
  split; [split; [reflexivity|vm_compute; reflexivity]|].
  apply (crash_stops_the_run 2 (example_env second_crashed) (str "humans")
           example_subset); [reflexivity|vm_compute; reflexivity].
Defined.

(** X8: a run that raises has stored no manifest: the dataset keeps no
    index, whatever chunks were uploaded before the failure. *)
Theorem failed_run_stores_no_manifest (C : Z) (env : RunEnv) (name : pystr)
  (e : exn) (w : World) :
  load_subset C env name [] = (Raise e, w) ->
  Forall (fun ev => put_path ev = manifest_path name ->
                    put_result ev = Crashed) w.
Proof.
  intros Hrun. rewrite load_subset_any in Hrun.
  destruct (dataset env) as [ds|e'].
  - cbv zeta in Hrun.
    destruct (existsb is_crashed (run_puts C env name ds)) eqn:Hc;
      [|discriminate].
    inversion Hrun; subst; clear Hrun. cbn [app].
    unfold run_puts in *. rewrite until_crash_app.
    assert (Hchunks :
              Forall (fun ev => put_path ev = manifest_path name ->
                                put_result ev = Crashed)
                     (chunk_puts env name 0
                        (chunks_of C (run_triples env ds)))).
    { eapply Forall_impl; [|apply chunk_puts_are_chunks].
      intros ev (k & Hk) Hm. rewrite Hk in Hm.
      now apply chunk_path_not_manifest in Hm. }
    rewrite existsb_app in Hc.
    destruct (existsb is_crashed
                (chunk_puts env name 0 (chunks_of C (run_triples env ds)))).
    + now apply until_crash_Forall.
    + apply Forall_app. split; [exact Hchunks|].
      cbn [orb existsb] in Hc. rewrite orb_false_r in Hc.
      cbn [until_crash]. rewrite Hc.
      constructor; [|constructor]. intros _.
      unfold is_crashed in Hc. now destruct (put_result _).
  - inversion Hrun; subst. constructor.
Qed.

Lemma failed_run_stores_no_manifest_witness :
  load_subset 2 (example_env second_crashed) (str "humans") []
  = (Raise OSError,
     until_crash
       (run_puts 2 (example_env second_crashed) (str "humans")
          example_subset))
  /\ Forall (fun ev => put_path ev = manifest_path (str "humans") ->
                       put_result ev = Crashed)
       (until_crash
          (run_puts 2 (example_env second_crashed) (str "humans")
             example_subset)).
Proof.
  assert (H : load_subset 2 (example_env second_crashed) (str "humans") []
              = (Raise OSError,
                 until_crash
                   (run_puts 2 (example_env second_crashed) (str "humans")
                      example_subset)))
    by (vm_compute; reflexivity).
  split; [exact H|].
  exact (failed_run_stores_no_manifest 2 (example_env second_crashed)
           (str "humans") _ _ H).
Defined.

(** ** Object paths *)

Lemma chunk_path_injective (name : pystr) (i j : Z) :
  0 <= i -> 0 <= j -> chunk_path name i = chunk_path name j -> i = j.
Proof.
  intros Hi Hj H. unfold chunk_path, chunk_id in H.
  do 3 apply app_inv_head in H. apply app_inv_tail in H.
  apply app_inv_head in H.
  apply (f_equal decimal_value) in H.
  rewrite !format_06d_value in H by assumption. lia.
Qed.

Lemma chunk_puts_paths_nodup (env : RunEnv) (name : pystr)
  (cs : list (list Triple.t)) :
  NoDup (map put_path (chunk_puts env name 0 cs)).
Proof.
  change 0 with (Z.of_nat 0). rewrite (chunk_puts_paths env name cs 0).
  apply NoDup_map_NoDup_ForallPairs; [|apply seq_NoDup].
  intros a b _ _ H. apply chunk_path_injective in H; lia.
Qed.

Lemma run_puts_paths_nodup (C : Z) (env : RunEnv) (name : pystr)
  (ds : Subset) :
  NoDup (map put_path (run_puts C env name ds)).
Proof.
  unfold run_puts. rewrite map_app. apply NoDup_app.
  - apply chunk_puts_paths_nodup.
  - cbn [map]. constructor; [intros []|constructor].
  - intros p Hp [Hm|[]].
    apply in_map_iff in Hp. destruct Hp as (ev & Hev & Hin).
    pose proof (chunk_puts_are_chunks env name
                  (chunks_of C (run_triples env ds)) 0) as Hall.
    rewrite Forall_forall in Hall. destruct (Hall ev Hin) as (k & Hk).
    cbn [manifest_put put_path] in Hm.
    rewrite <- Hev, Hk in Hm. symmetry in Hm.
    now apply chunk_path_not_manifest in Hm.
Qed.

Lemma until_crash_prefix (w : World) :
  exists post, w = until_crash w ++ post.
Proof.
  induction w as [|e w [post IH]]; [now exists []|].
  cbn [until_crash]. destruct (is_crashed e).
  - now exists w.
  - exists post. cbn [app]. now rewrite <- IH.
Qed.

Lemma load_subset_uploads_prefix (C : Z) (env : RunEnv) (name : pystr) :
  exists ds_puts post,
    ds_puts = snd (load_subset C env name []) ++ post
    /\ NoDup (map put_path ds_puts)
    /\ Forall (fun ev => under (subset_prefix name) (put_path ev)) ds_puts.
Proof.
  rewrite load_subset_any.
  destruct (dataset env) as [ds|e].
  - assert (Hunder : Forall (fun ev => under (subset_prefix name)
                                         (put_path ev))
                            (run_puts C env name ds)).
    { unfold run_puts. apply Forall_app. split.
      - eapply Forall_impl; [|apply chunk_puts_are_chunks].
        intros ev (k & Hk). rewrite Hk.
        exists (str "chunks/" ++ chunk_id k ++ str ".graphcol").
        unfold chunk_path, subset_prefix.
        change (str "/chunks/") with (str "/" ++ str "chunks/").
        now rewrite <- !app_assoc.
      - constructor; [|constructor].
        exists (str "index.json").
        cbn [manifest_put put_path]. unfold manifest_path, subset_prefix.
        change (str "/index.json") with (str "/" ++ str "index.json").
        now rewrite <- !app_assoc. }
    cbv zeta.
    destruct (existsb is_crashed (run_puts C env name ds)).
    + destruct (until_crash_prefix (run_puts C env name ds)) as [post Hpost].
      exists (run_puts C env name ds), post. cbn [snd app].
      split; [exact Hpost|]. split; [apply run_puts_paths_nodup|exact Hunder].
    + exists (run_puts C env name ds), []. cbn [snd app].
      rewrite app_nil_r.
      split; [reflexivity|].
      split; [apply run_puts_paths_nodup|exact Hunder].
  - exists [], []. cbn. repeat split; constructor.
Qed.

Lemma uploads_facts (C : Z) (env : RunEnv) (name : pystr) :
  NoDup (map put_path (snd (load_subset C env name [])))
  /\ Forall (fun ev => under (subset_prefix name) (put_path ev))
            (snd (load_subset C env name [])).
Proof.
  destruct (load_subset_uploads_prefix C env name)
    as (puts & post & -> & Hnd & Hunder).
  rewrite map_app in Hnd. apply NoDup_app_remove_r in Hnd.
  apply Forall_app in Hunder. now split.
Qed.

(** X9: a run never writes the same object twice: the paths of its
    uploads are pairwise distinct, in any environment and whether it
    completes or not; and all of them lie under
    [datasets/wikidata/<subset>/]. *)
Theorem run_never_overwrites (C : Z) (env : RunEnv) (name : pystr) :
  NoDup (map put_path (snd (load_subset C env name [])))
  /\ Forall (fun ev => under (subset_prefix name) (put_path ev))
            (snd (load_subset C env name [])).
Proof. apply uploads_facts. Qed.

Lemma subsets_prefix_disjoint (s s' : pystr) (p : pystr) :
  In s subsets -> In s' subsets -> s <> s' ->
  under (subset_prefix s) p -> ~ under (subset_prefix s') p.
Proof.
  intros Hs Hs' Hne [t ->] [t' H].
  unfold subset_prefix in H. rewrite <- !app_assoc in H.
  apply app_inv_head in H.
  unfold subsets in Hs, Hs'. cbn [In] in Hs, Hs'.
  repeat (destruct Hs as [Hs|Hs]; [subst s|]); try contradiction;
    repeat (destruct Hs' as [Hs'|Hs']; [subst s'|]); try contradiction;
    try (now apply Hne); cbn in H; discriminate H.
Qed.

Lemma flat_map_paths_nodup (f : pystr -> World) (l : list pystr) :
  NoDup l ->
  (forall s, In s l -> NoDup (map put_path (f s))) ->
  (forall s s' p, In s l -> In s' l -> s <> s' ->
                  In p (map put_path (f s)) ->
                  ~ In p (map put_path (f s'))) ->
  NoDup (map put_path (flat_map f l)).
Proof.
  induction 1 as [|s l Hs Hnd IH]; intros Hown Hdisj; [constructor|].
  cbn [flat_map]. rewrite map_app. apply NoDup_app.
  - apply Hown. now left.
  - apply IH.
    + intros x Hx. apply Hown. now right.
    + intros x y p Hx Hy. apply Hdisj; now right.
  - intros p Hp Hin.
    rewrite flat_map_concat_map, concat_map, map_map in Hin.
    apply in_concat in Hin. destruct Hin as (ps & Hps & Hpin).
    apply in_map_iff in Hps. destruct Hps as (s' & <- & Hs').
    apply (Hdisj s s' p); trivial; [now left|now right|].
    intros ->. contradiction.
Qed.

Lemma uploads_under (envs : pystr -> RunEnv) (s p : pystr) :
  In p (map put_path (uploads envs s)) -> under (subset_prefix s) p.
Proof.
  intros Hp. apply in_map_iff in Hp. destruct Hp as (ev & <- & Hin).
  destruct (uploads_facts CHUNK_SIZE (envs s) s) as [_ Hunder].
  rewrite Forall_forall in Hunder. now apply Hunder.
Qed.

Lemma main_all_uploads (envs : pystr -> RunEnv) (prog : pystr)
  (rest : list pystr) :
  snd (main envs (prog :: str "all" :: rest) [])
  = flat_map (uploads envs) subsets.
Proof.
  unfold main.
  change (str_eqb (str "all") (str "all")) with true. cbv iota.
  unfold bind. rewrite guarded_loop; [reflexivity|exact subsets_nodup|tauto].
Qed.

(** X10: a run over all the datasets never writes the same object twice:
    the paths of all its uploads, over all the datasets, are pairwise
    distinct, whichever datasets fail. *)
Theorem all_run_never_overwrites (envs : pystr -> RunEnv) (prog : pystr)
  (rest : list pystr) :
  NoDup (map put_path (snd (main envs (prog :: str "all" :: rest) []))).
Proof.
  rewrite main_all_uploads. apply flat_map_paths_nodup.
  - exact subsets_nodup.
  - intros s _. apply (uploads_facts CHUNK_SIZE (envs s) s).
  - intros s s' p Hs Hs' Hne Hp Hp'.
    apply (uploads_under envs) in Hp, Hp'.
    now apply (subsets_prefix_disjoint s s' p).
Qed.

(** X11: whatever its arguments, [main] writes only under the prefixes
    [datasets/wikidata/<subset>/] of the five known subsets; with an
    argument that is neither [all] nor a known subset it uploads nothing
    and exits with status 1. *)
Theorem main_writes_under_known_subsets (envs : pystr -> RunEnv)
  (argv : list pystr) :
  Forall (fun ev => exists s, In s subsets
                              /\ under (subset_prefix s) (put_path ev))
         (snd (main envs argv []))
  /\ forall prog a rest,
       str_eqb a (str "all") = false ->
       existsb (str_eqb a) subsets = false ->
       main envs (prog :: a :: rest) [] = (Ok (Exit 1), []).
Proof.
  split.
  - unfold main.
    set (subset := match argv with _ :: a :: _ => a | _ => str "all" end).
    destruct (str_eqb subset (str "all")).
    + unfold bind. rewrite guarded_loop; [|exact subsets_nodup|tauto].
      cbn [snd app ret]. apply Forall_forall. intros ev Hev.
      apply in_flat_map in Hev. destruct Hev as (s & Hs & Hin).
      exists s. split; [exact Hs|].
      apply (uploads_under envs), in_map. exact Hin.
    + destruct (existsb (str_eqb subset) subsets) eqn:Hknown.
      * apply existsb_exists in Hknown.
        destruct Hknown as (s & Hs & Heq). apply str_eqb_eq in Heq.
        subst s.
        destruct (uploads_facts CHUNK_SIZE (envs subset) subset)
          as [_ Hunder].
        unfold bind.
        destruct (load_subset CHUNK_SIZE (envs subset) subset [])
          as [[stats|e] w]; cbn [snd ret] in *;
          (eapply Forall_impl; [|exact Hunder]);
          intros ev Hev; exists subset; now split.
      * constructor.
  - intros prog a rest Hall Hknown. unfold main. now rewrite Hall, Hknown.
Qed.

(** ** Identifiers of entities and predicates *)

Lemma Z_of_str_str_of_Z (z : Z) : Z_of_str (str_of_Z z) = z.
Proof.
  unfold str_of_Z, Z_of_str.
  destruct (Z.ltb_spec z 0) as [Hz|Hz].
  - change (45 =? 45)%N with true. cbv iota.
    rewrite decimal_value_str_of_N, N2Z.inj_abs_N. lia.
  - destruct (str_of_N_head (Z.abs_N z)) as (c & ds & Heq & Hc).
    pose proof (decimal_value_str_of_N (Z.abs_N z)) as Hv.
    rewrite Heq in *.
    rewrite (proj2 (N.eqb_neq c 45)) by lia.
    rewrite Hv, N2Z.inj_abs_N. lia.
Qed.

(** X12: the identifiers built from integer ids read back: the digits
    after [https://wikidata.org/entity/Q], and after [P], are the id in
    decimal, so that distinct integer ids give distinct entity IRIs and
    distinct predicate codes. *)
Theorem integer_ids_read_back (a b : Z) :
  Z_of_str (skipn 29 (entity_iri (PyInt a))) = a
  /\ Z_of_str (skipn 1 (predicate_code (PyInt a))) = a
  /\ (entity_iri (PyInt a) = entity_iri (PyInt b) <-> a = b)
  /\ (predicate_code (PyInt a) = predicate_code (PyInt b) <-> a = b).
Proof.
  assert (He : forall z, Z_of_str (skipn 29 (entity_iri (PyInt z))) = z).
  { intros z. cbn [entity_iri].
    rewrite skipn_length_app by reflexivity. apply Z_of_str_str_of_Z. }
  assert (Hp : forall z, Z_of_str (skipn 1 (predicate_code (PyInt z))) = z).
  { intros z. cbn [predicate_code].
    rewrite skipn_length_app by reflexivity. apply Z_of_str_str_of_Z. }
  split; [apply He|]. split; [apply Hp|]. split; split.
  - intros H. rewrite <- (He a), <- (He b). now rewrite H.
  - now intros ->.
  - intros H. rewrite <- (Hp a), <- (Hp b). now rewrite H.
  - now intros ->.
Qed.

(** ** The encoder is injective *)

Lemma triple_json_injective (l l' : list Triple.t) :
  map triple_json l = map triple_json l' -> l = l'.
Proof.
  intros H. apply (f_equal Decode.triples_of_json) in H.
  rewrite !triples_of_json_map in H. now inversion H.
Qed.

(** X13: on unambiguous strings the encoder is injective: two chunks
    with the same payload have the same namespace and the same triples,
    field for field. *)
Theorem encode_graphcol_injective (ts ts' : list Triple.t) (ns ns' : pystr) :
  unambiguous ns -> unambiguous ns' ->
  Forall triple_ok ts -> Forall triple_ok ts' ->
  encode_graphcol ts ns = encode_graphcol ts' ns' ->
  ts = ts' /\ ns = ns'.
Proof.
  intros Hns Hns' Hts Hts' H.
  rewrite !encode_graphcol_ok in H.
  assert (Hd : Json.dumps (graphcol_json ts ns)
               = Json.dumps (graphcol_json ts' ns')) by congruence.
  clear H. apply (f_equal Decode.loads) in Hd.
  rewrite !loads_dumps in Hd by now apply graphcol_json_ok.
  unfold graphcol_json in Hd. injection Hd as Hn Ht.
  split; [now apply triple_json_injective|exact Hn].
Qed.

Lemma encode_graphcol_injective_witness :
  (unambiguous NAMESPACE /\ unambiguous NAMESPACE
   /\ Forall triple_ok [q42_triple; label_example]
   /\ Forall triple_ok [q42_triple; label_example]
   /\ encode_graphcol [q42_triple; label_example] NAMESPACE
      = encode_graphcol [q42_triple; label_example] NAMESPACE)
  /\ [q42_triple; label_example] = [q42_triple; label_example]
  /\ NAMESPACE = NAMESPACE.
Proof.
  assert (H1 : unambiguous NAMESPACE)
    by (apply ascii_unambiguous; ascii_literal).
  assert (H2 : Forall triple_ok [q42_triple; label_example])
    by (constructor; [apply q42_triple_ok|];
        constructor; [apply label_example_ok|constructor]).
  split; [repeat split; assumption|].
  exact (encode_graphcol_injective _ _ _ _ H1 H1 H2 H2 eq_refl).
Defined.

(** ** Order of the chunk files *)

Lemma fold_decimal_acc (x : pystr) :
  forall acc : N,
    fold_left (fun a c => (10 * a + (c - 48))%N) x acc
    = (acc * 10 ^ N.of_nat (length x) + decimal_value x)%N.
Proof.
  unfold decimal_value.
  induction x as [|c x IH]; intros acc.
  - cbn [fold_left length]. change (10 ^ N.of_nat 0)%N with 1%N. lia.
  - cbn [fold_left length]. rewrite IH, (IH (10 * 0 + (c - 48))%N).
    rewrite Nat2N.inj_succ, N.pow_succ_r'. ring.
Qed.

Lemma decimal_value_cons (c : N) (x : pystr) :
  decimal_value (c :: x)
  = ((c - 48) * 10 ^ N.of_nat (length x) + decimal_value x)%N.
Proof.
  unfold decimal_value at 1. cbn [fold_left].
  rewrite fold_decimal_acc.
  now replace (10 * 0 + (c - 48))%N with (c - 48)%N by lia.
Qed.

Lemma decimal_value_bound (x : pystr) :
  is_decimal x -> (decimal_value x < 10 ^ N.of_nat (length x))%N.
Proof.
  induction 1 as [|c x Hc Hx IH].
  - cbn. lia.
  - rewrite decimal_value_cons. cbn [length].
    rewrite Nat2N.inj_succ, N.pow_succ_r'.
    generalize dependent (10 ^ N.of_nat (length x))%N. intros P IH. nia.
Qed.

(** Decimal texts of one length compare as the numbers they write. *)
Lemma decimal_lt (x : pystr) :
  forall y,
    is_decimal x -> is_decimal y -> length x = length y ->
    (decimal_value x < decimal_value y)%N -> str_lt x y.
Proof.
  unfold str_lt. induction x as [|a x IH]; intros [|b y] Hx Hy Hlen Hlt;
    cbn [length] in Hlen; try discriminate Hlen.
  - exfalso. revert Hlt. apply N.lt_irrefl.
  - inversion Hx as [|? ? Ha Hx']; inversion Hy as [|? ? Hb Hy']; subst.
    cbn [length] in Hlen. injection Hlen as Hlen.
    rewrite !decimal_value_cons, <- Hlen in Hlt.
    pose proof (decimal_value_bound x Hx') as Bx.
    pose proof (decimal_value_bound y Hy') as By.
    rewrite <- Hlen in By.
    cbn [str_compare].
    destruct (N.compare_spec a b) as [Heq|Hab|Hba]; [|reflexivity|].
    + subst b. apply IH; trivial. lia.
    + exfalso. generalize dependent (10 ^ N.of_nat (length x))%N.
      intros P Hlt Bx By. nia.
Qed.

(** X14: below a million chunks the object paths of the chunks of a
    dataset sort, as strings, in the order of their indices; at a million
    the index takes a seventh digit and the order breaks. *)
Theorem chunk_paths_sorted (name : pystr) (i j : Z) :
  0 <= i -> i < j -> j < 1000000 ->
  str_lt (chunk_path name i) (chunk_path name j)
  /\ str_lt (chunk_path name 1000000) (chunk_path name 999999).
Proof.
  intros Hi Hij Hj.
  assert (Hshape : forall k,
             chunk_path name k
             = (str "datasets/wikidata/" ++ name ++ str "/chunks/chunk_")
               ++ format_06d k ++ str ".graphcol").
  { intros k. unfold chunk_path, chunk_id.
    change (str "/chunks/chunk_") with (str "/chunks/" ++ str "chunk_").
    now rewrite <- !app_assoc. }
  rewrite !Hshape. unfold str_lt. rewrite !str_compare_app_same.
  split; [|reflexivity].
  destruct (format_06d_six i) as (Li & Di & Vi); [lia|].
  destruct (format_06d_six j) as (Lj & Dj & Vj); [lia|].
  apply str_lt_app; [congruence|].
  apply decimal_lt; trivial; [congruence|]. rewrite Vi, Vj. lia.
Qed.

Lemma chunk_paths_sorted_witness :
  (0 <= 9 /\ 9 < 10 /\ 10 < 1000000)
  /\ str_lt (chunk_path (str "humans") 9) (chunk_path (str "humans") 10)
  /\ str_lt (chunk_path (str "humans") 1000000)
            (chunk_path (str "humans") 999999).
Proof.
  split; [lia|].
  apply (chunk_paths_sorted (str "humans") 9 10); lia.
Defined.

(** ** A single subset *)

(** X15: with the name of one subset as argument, [main] runs that
    subset alone and does not catch its exception: it returns the totals
    of the run, or raises what the run raised, and its uploads are those
    of the run. *)
Theorem main_single_subset (envs : pystr -> RunEnv) (prog s : pystr)
  (rest : list pystr) :
  In s subsets ->
  main envs (prog :: s :: rest) []
  = (match outcome envs s with
     | Ok stats => Ok (Loaded stats)
     | Raise e => Raise e
     end, uploads envs s).
Proof.
  intros Hs. unfold main, outcome, uploads.
  assert (Hall : str_eqb s (str "all") = false).
  { unfold subsets in Hs. cbn [In] in Hs.
    repeat (destruct Hs as [Hs|Hs]; [subst s; reflexivity|]).
    contradiction. }
  assert (Hknown : existsb (str_eqb s) subsets = true).
  { apply existsb_exists. exists s. split; [exact Hs|]. now apply str_eqb_eq. }
  rewrite Hall, Hknown. unfold bind.
  destruct (load_subset CHUNK_SIZE (envs s) s []) as [[stats|e] w];
    reflexivity.
Qed.

Lemma main_single_subset_witness :
  In (str "films") subsets
  /\ main flaky_envs [str "loader"; str "films"] []
     = (match outcome flaky_envs (str "films") with
        | Ok stats => Ok (Loaded stats)
        | Raise e => Raise e
        end, uploads flaky_envs (str "films")).
Proof.
  assert (H : In (str "films") subsets) by (right; left; reflexivity).
  split; [exact H|].
  exact (main_single_subset flaky_envs (str "loader") (str "films") [] H).
Defined.

(** ** The text of the manifest *)

Section Indent.

Import Decode.

Lemma skip_ws_app_ws (ws s : pystr) :
  all_ws ws -> skip_ws (ws ++ s) = skip_ws s.
Proof.
  induction 1 as [|c ws Hc Hws IH]; [reflexivity|].
  cbn [app skip_ws]. now rewrite Hc.
Qed.

Lemma newline_indent_ws (indent level : nat) :
  all_ws (Json.newline_indent indent level).
Proof.
  unfold all_ws, Json.newline_indent. constructor; [reflexivity|].
  apply Forall_forall. intros c Hc. apply repeat_spec in Hc. now subst c.
Qed.

Lemma parse_value_ws (fuel : nat) (ws s : pystr) :
  all_ws ws -> parse_value fuel (ws ++ s) = parse_value fuel s.
Proof.
  intros Hws. destruct fuel as [|f]; [reflexivity|].
  cbn [parse_value]. now rewrite skip_ws_app_ws.
Qed.

Lemma parse_elems_ws (fuel : nat) (ws s : pystr) :
  all_ws ws -> parse_elems fuel (ws ++ s) = parse_elems fuel s.
Proof.
  intros Hws. destruct fuel as [|f]; [reflexivity|].
  cbn [parse_elems]. now rewrite parse_value_ws.
Qed.

Lemma parse_members_ws (fuel : nat) (ws s : pystr) :
  all_ws ws -> parse_members fuel (ws ++ s) = parse_members fuel s.
Proof.
  intros Hws. destruct fuel as [|f]; [reflexivity|].
  cbn [parse_members]. now rewrite skip_ws_app_ws.
Qed.

Lemma skip_ws_head (c : N) (t : pystr) :
  is_ws c = false -> skip_ws (c :: t) = c :: t.
Proof. intros H. cbn [skip_ws]. now rewrite H. Qed.

Lemma parse_value_array_ws (f : nat) (r : pystr) (c : N) (t : pystr) :
  skip_ws r = c :: t -> c <> 93%N ->
  parse_value (S f) (91%N :: r)
  = match parse_elems f r with
    | Some (l, r') => Some (JArr l, r')
    | None => None
    end.
Proof.
  intros Hr Hc.
  change (parse_value (S f) (91%N :: r))
    with (match skip_ws r with
          | c' :: r' =>
              if (c' =? 93)%N then Some (JArr [], r')
              else match parse_elems f r with
                   | Some (l, r'') => Some (JArr l, r'')
                   | None => None
                   end
          | [] => None
          end).
  rewrite Hr. now rewrite (proj2 (N.eqb_neq c 93)).
Qed.

Lemma parse_value_object_ws (f : nat) (r : pystr) (c : N) (t : pystr) :
  skip_ws r = c :: t -> c <> 125%N ->
  parse_value (S f) (123%N :: r)
  = match parse_members f r with
    | Some (m, r') => Some (JObj m, r')
    | None => None
    end.
Proof.
  intros Hr Hc.
  change (parse_value (S f) (123%N :: r))
    with (match skip_ws r with
          | c' :: r' =>
              if (c' =? 125)%N then Some (JObj [], r')
              else match parse_members f r with
                   | Some (m, r'') => Some (JObj m, r'')
                   | None => None
                   end
          | [] => None
          end).
  rewrite Hr. now rewrite (proj2 (N.eqb_neq c 125)).
Qed.

Lemma parse_elems_comma_ws (f : nat) (s : pystr) (x : json) (R T : pystr) :
  parse_value f s = Some (x, R) -> skip_ws R = 44%N :: T ->
  parse_elems (S f) s
  = match parse_elems f T with
    | Some (l, r) => Some (x :: l, r)
    | None => None
    end.
Proof. intros H HR. cbn [parse_elems]. rewrite H, HR. reflexivity. Qed.

Lemma parse_elems_last_ws (f : nat) (s : pystr) (x : json) (R T : pystr) :
  parse_value f s = Some (x, R) -> skip_ws R = 93%N :: T ->
  parse_elems (S f) s = Some ([x], T).
Proof. intros H HR. cbn [parse_elems]. rewrite H, HR. reflexivity. Qed.

Lemma parse_members_step (f : nat) (R k V : pystr) (x : json) (R3 : pystr) :
  scanstring f R = Some (k, 58%N :: V) ->
  parse_value f V = Some (x, R3) ->
  parse_members (S f) (34%N :: R)
  = match skip_ws R3 with
    | c3 :: r4 =>
        if (c3 =? 44)%N then
          match parse_members f r4 with
          | Some (m, r5) => Some ((k, x) :: m, r5)
          | None => None
          end
        else if (c3 =? 125)%N then Some ([(k, x)], r4)
        else None
    | [] => None
    end.
Proof.
  intros Hk Hv.
  change (parse_members (S f) (34%N :: R))
    with (match scanstring f R with
          | Some (k, r1) =>
              match skip_ws r1 with
              | c1 :: r2 =>
                  if (c1 =? 58)%N then
                    match parse_value f r2 with
                    | Some (x, r3) =>
                        match skip_ws r3 with
                        | c3 :: r4 =>
                            if (c3 =? 44)%N then
                              match parse_members f r4 with
                              | Some (m, r5) => Some ((k, x) :: m, r5)
                              | None => None
                              end
                            else if (c3 =? 125)%N then Some ([(k, x)], r4)
                            else None
                        | [] => None
                        end
                    | None => None
                    end
                  else None
              | [] => None
              end
          | None => None
          end).
  rewrite Hk. change (skip_ws (58%N :: V)) with (58%N :: V).
  change (58 =? 58)%N with true. cbv iota. now rewrite Hv.
Qed.

Lemma dumps_indent_head (indent level : nat) (j : json) :
  exists c t,
    Json.dumps_indent indent level j = c :: t
    /\ is_ws c = false /\ c <> 93%N.
Proof.
  destruct j as [z|s|l|m].
  - apply (dumps_head (JInt z)).
  - apply (dumps_head (JStr s)).
  - cbn [Json.dumps_indent]. destruct l;
      eexists _, _; (split; [reflexivity|]); split;
      (reflexivity || discriminate).
  - cbn [Json.dumps_indent]. destruct m;
      eexists _, _; (split; [reflexivity|]); split;
      (reflexivity || discriminate).
Qed.

Lemma follow_ok_newline (indent level : nat) (s : pystr) :
  follow_ok (Json.newline_indent indent level ++ s).
Proof. reflexivity. Qed.

Variable indent : nat.

Lemma parse_elems_join_indent (l : list json) :
  Forall (fun x => json_ok x -> reads_back_indent indent x) l ->
  l <> [] ->
  fold_right (fun x acc => json_ok x /\ acc) True l ->
  forall (level outer fuel : nat) (rest : pystr),
    (fold_right (fun x acc => 1 + json_size x + acc) 0 l <= fuel)%nat ->
    parse_elems fuel
      (Json.join (44%N :: Json.newline_indent indent level)
         (map (Json.dumps_indent indent level) l)
       ++ Json.newline_indent indent outer ++ 93%N :: rest)
    = Some (l, rest).
Proof.
  induction 1 as [|x l Hx Hl IH]; intros Hne Hok level outer fuel rest Hfuel;
    [contradiction|].
  cbn [fold_right] in Hok, Hfuel. destruct Hok as [Hokx Hokl].
  destruct fuel as [|f]; [lia|].
  destruct l as [|y l'].
  - cbn [map Json.join].
    apply parse_elems_last_ws
      with (R := Json.newline_indent indent outer ++ 93%N :: rest).
    + apply (Hx Hokx); [cbn [fold_right] in Hfuel; lia|].
      apply follow_ok_newline.
    + rewrite skip_ws_app_ws by apply newline_indent_ws. reflexivity.
  - cbn [map]. rewrite join_two, <- !app_assoc. cbn [app].
    rewrite (parse_elems_comma_ws f _ x
               (44%N :: Json.newline_indent indent level
                ++ Json.join (44%N :: Json.newline_indent indent level)
                     (map (Json.dumps_indent indent level) (y :: l'))
                ++ Json.newline_indent indent outer ++ 93%N :: rest)
               (Json.newline_indent indent level
                ++ Json.join (44%N :: Json.newline_indent indent level)
                     (map (Json.dumps_indent indent level) (y :: l'))
                ++ Json.newline_indent indent outer ++ 93%N :: rest)).
    + rewrite parse_elems_ws by apply newline_indent_ws.
      rewrite IH; [reflexivity|discriminate|assumption|lia].
    + apply (Hx Hokx); [lia|reflexivity].
    + reflexivity.
Qed.

Lemma member_text_indent_app (level : nat) (k : pystr) (x : json)
  (T : pystr) :
  member_text_indent indent level (k, x) ++ T
  = 34%N :: flat_map Json.escape_char k
    ++ 34%N :: 58%N :: 32%N :: Json.dumps_indent indent level x ++ T.
Proof.
  unfold member_text_indent, Json.encode_basestring_ascii. cbn [fst snd].
  change (str ": ") with [58%N; 32%N].
  cbn [app]. rewrite <- !app_assoc. reflexivity.
Qed.

Lemma parse_members_join_indent (m : list (pystr * json)) :
  Forall (fun kv => json_ok (snd kv) -> reads_back_indent indent (snd kv))
         m ->
  m <> [] ->
  fold_right
    (fun kv acc => unambiguous (fst kv) /\ json_ok (snd kv) /\ acc) True m ->
  forall (level outer fuel : nat) (rest : pystr),
    (fold_right
       (fun kv acc => 2 + length (fst kv) + json_size (snd kv) + acc)
       0 m <= fuel)%nat ->
    parse_members fuel
      (Json.join (44%N :: Json.newline_indent indent level)
         (map (member_text_indent indent level) m)
       ++ Json.newline_indent indent outer ++ 125%N :: rest)
    = Some (m, rest).
Proof.
  induction 1 as [|[k x] m Hx Hm IH];
    intros Hne Hok level outer fuel rest Hfuel; [contradiction|].
  cbn [fold_right fst snd] in Hok, Hfuel, Hx.
  destruct Hok as (Hokk & Hokx & Hokm).
  destruct fuel as [|f]; [lia|].
  destruct m as [|kv m'].
  - cbn [map Json.join]. rewrite member_text_indent_app.
    rewrite (parse_members_step f _ k
               (32%N :: Json.dumps_indent indent level x
                ++ Json.newline_indent indent outer ++ 125%N :: rest) x
               (Json.newline_indent indent outer ++ 125%N :: rest)).
    + rewrite skip_ws_app_ws by apply newline_indent_ws. reflexivity.
    + apply scanstring_escaped; [assumption|cbn [fold_right] in Hfuel; lia].
    + rewrite parse_value_space.
      apply (Hx Hokx); [cbn [fold_right] in Hfuel; lia|].
      apply follow_ok_newline.
  - cbn [map]. rewrite join_two, <- !app_assoc.
    rewrite member_text_indent_app. cbn [app].
    rewrite (parse_members_step f _ k
               (32%N :: Json.dumps_indent indent level x
                ++ 44%N :: Json.newline_indent indent level
                ++ Json.join (44%N :: Json.newline_indent indent level)
                     (map (member_text_indent indent level) (kv :: m'))
                ++ Json.newline_indent indent outer ++ 125%N :: rest) x
               (44%N :: Json.newline_indent indent level
                ++ Json.join (44%N :: Json.newline_indent indent level)
                     (map (member_text_indent indent level) (kv :: m'))
                ++ Json.newline_indent indent outer ++ 125%N :: rest)).
    + change (skip_ws (44%N :: ?t)) with (44%N :: t).
      cbn [skip_ws is_ws]. change (44 =? 44)%N with true. cbv iota.
      rewrite parse_members_ws by apply newline_indent_ws.
      rewrite IH; [reflexivity|discriminate|assumption|lia].
    + apply scanstring_escaped; [assumption|lia].
    + rewrite parse_value_space.
      apply (Hx Hokx); [lia|reflexivity].
Qed.

End Indent.

Section IndentReadBack.

Import Decode.

Variable indent : nat.

Lemma dumps_indent_reads_back (j : json) :
  json_ok j -> reads_back_indent indent j.
Proof.
  induction j as [z|s|l IH|m IH] using json_ind';
    intros Hok level fuel rest Hfuel Hrest.
  - destruct fuel as [|f]; [simpl in Hfuel; lia|].
    now apply parse_value_int.
  - apply (dumps_reads_back (JStr s) Hok); assumption.
  - cbn [json_size] in Hfuel. destruct fuel as [|f]; [lia|].
    cbn [json_ok] in Hok. cbn [Json.dumps_indent].
    destruct l as [|x l]; [reflexivity|].
    cbn [app]. rewrite <- !app_assoc.
    destruct (dumps_indent_head indent (S level) x)
      as (c & t & Hhead & Hws & Hc).
    destruct (join_head (44%N :: Json.newline_indent indent (S level))
                (Json.dumps_indent indent (S level) x)
                (map (Json.dumps_indent indent (S level)) l))
      as (t' & Hjoin).
    rewrite (parse_value_array_ws f _ c
               (t ++ t' ++ Json.newline_indent indent level
                ++ [93%N] ++ rest)).
    + rewrite parse_elems_ws by apply newline_indent_ws.
      cbn [app].
      rewrite parse_elems_join_indent;
        [reflexivity|assumption|discriminate|assumption|lia].
    + rewrite skip_ws_app_ws by apply newline_indent_ws.
      cbn [map]. rewrite Hjoin, Hhead, <- !app_assoc. cbn [app].
      now apply skip_ws_head.
    + exact Hc.
  - cbn [json_size] in Hfuel. destruct fuel as [|f]; [lia|].
    cbn [json_ok] in Hok. cbn [Json.dumps_indent].
    destruct m as [|[k x] m]; [reflexivity|].
    cbn [app]. rewrite <- !app_assoc.
    change (fun kv : pystr * json =>
              Json.encode_basestring_ascii (fst kv) ++ str ": "
              ++ Json.dumps_indent indent (S level) (snd kv))
      with (member_text_indent indent (S level)).
    destruct (join_head (44%N :: Json.newline_indent indent (S level))
                (member_text_indent indent (S level) (k, x))
                (map (member_text_indent indent (S level)) m))
      as (t' & Hjoin).
    rewrite (parse_value_object_ws f _ 34%N
               (flat_map Json.escape_char k
                ++ 34%N :: 58%N :: 32%N
                   :: Json.dumps_indent indent (S level) x
                ++ t' ++ Json.newline_indent indent level
                ++ [125%N] ++ rest)).
    + rewrite parse_members_ws by apply newline_indent_ws.
      cbn [app].
      rewrite parse_members_join_indent;
        [reflexivity|assumption|discriminate|assumption|lia].
    + rewrite skip_ws_app_ws by apply newline_indent_ws.
      cbn [map]. rewrite Hjoin, <- !app_assoc.
      rewrite member_text_indent_app. reflexivity.
    + discriminate.
Qed.

Lemma join_size_le {A : Type} (size : A -> nat) (text : A -> pystr)
  (sep : pystr) (l : list A) :
  (2 <= length sep)%nat ->
  Forall (fun x => (size x <= length (text x))%nat) l ->
  (fold_right (fun x acc => 1 + size x + acc) 0 l
   <= 1 + length (Json.join sep (map text l)))%nat.
Proof.
  intros Hsep. induction 1 as [|x l Hx Hl IHl]; [simpl; lia|].
  cbn [fold_right map].
  destruct l as [|y l].
  - cbn [fold_right Json.join map]. lia.
  - cbn [map] in *. rewrite join_two, !length_app. lia.
Qed.

Lemma json_size_le_indent (j : json) :
  forall level,
    (json_size j <= length (Json.dumps_indent indent level j))%nat.
Proof.
  induction j as [z|s|l IH|m IH] using json_ind'; intros level.
  - apply str_of_Z_length_pos.
  - apply (json_size_le (JStr s)).
  - cbn [json_size Json.dumps_indent].
    destruct l as [|x l]; [simpl; lia|].
    cbn [length]. rewrite !length_app. apply le_n_S.
    pose proof (join_size_le json_size
                  (Json.dumps_indent indent (S level))
                  (44%N :: Json.newline_indent indent (S level)) (x :: l))
      as H.
    eapply Nat.le_trans; [apply H|].
    + cbn [length Json.newline_indent]. lia.
    + eapply Forall_impl; [|exact IH]. intros y Hy. apply Hy.
    + cbn [length Json.newline_indent]. lia.
  - cbn [json_size Json.dumps_indent].
    destruct m as [|kv m]; [simpl; lia|].
    cbn [length]. rewrite !length_app. apply le_n_S.
    change (fun kv : pystr * json =>
              Json.encode_basestring_ascii (fst kv) ++ str ": "
              ++ Json.dumps_indent indent (S level) (snd kv))
      with (member_text_indent indent (S level)).
    pose proof (join_size_le
                  (fun kv : pystr * json =>
                     1 + length (fst kv) + json_size (snd kv))%nat
                  (member_text_indent indent (S level))
                  (44%N :: Json.newline_indent indent (S level)) (kv :: m))
      as H.
    eapply Nat.le_trans; [|eapply Nat.le_trans; [apply H|]].
    + apply Nat.le_refl.
    + cbn [length Json.newline_indent]. lia.
    + eapply Forall_impl; [|exact IH]. intros y Hy. cbv beta.
      unfold member_text_indent, Json.encode_basestring_ascii.
      cbn [length app]. rewrite !length_app.
      pose proof (flat_map_escape_length (fst y)).
      specialize (Hy (S level)).
      change (length (str ": ")) with 2%nat. cbn [length]. lia.
    + cbn [length Json.newline_indent]. lia.
Qed.

(** [loads] inverts the indented [dumps] on unambiguous values. *)
Lemma loads_dumps_indent (level : nat) (j : json) :
  json_ok j -> loads (Json.dumps_indent indent level j) = Some j.
Proof.
  intros Hok. unfold loads.
  rewrite <- (app_nil_r (Json.dumps_indent indent level j)) at 2.
  rewrite (dumps_indent_reads_back j Hok); [reflexivity| |exact I].
  pose proof (json_size_le_indent j level). lia.
Qed.

End IndentReadBack.

Lemma manifest_json_ok (m : Manifest.t) :
  manifest_ok m -> json_ok (manifest_json m).
Proof.
  intros (Hn & Hd & Hc). unfold manifest_json.
  cbn [json_ok fold_right fst snd].
  repeat split; trivial; apply ascii_unambiguous; ascii_literal.
Qed.

(** X16: the text of a manifest determines the manifest: two manifests
    with unambiguous strings and the same [index.json] bytes have the
    same version, namespace, dataset, totals and [createdAt]. *)
Theorem manifest_bytes_injective (m m' : Manifest.t) :
  manifest_ok m -> manifest_ok m' ->
  manifest_bytes m = manifest_bytes m' -> m = m'.
Proof.
  intros Hm Hm' H. rewrite !manifest_bytes_ok in H.
  assert (Hd : Json.dumps_indent 2 0 (manifest_json m)
               = Json.dumps_indent 2 0 (manifest_json m')) by congruence.
  clear H. apply (f_equal Decode.loads) in Hd.
  rewrite !loads_dumps_indent in Hd by now apply manifest_json_ok.
  unfold manifest_json in Hd.
  destruct m as [v n d [tt tc tb] c], m' as [v' n' d' [tt' tc' tb'] c'].
  cbn in Hd. injection Hd as -> -> -> -> -> -> ->. reflexivity.
Qed.

Lemma manifest_bytes_injective_witness :
  (manifest_ok (run_manifest 2 (example_env all_stored) (str "humans")
                  example_subset)
   /\ manifest_ok (run_manifest 2 (example_env second_rejected)
                     (str "humans") example_subset)
   /\ manifest_bytes (run_manifest 2 (example_env all_stored) (str "humans")
                        example_subset)
      = manifest_bytes (run_manifest 2 (example_env second_rejected)
                          (str "humans") example_subset))
  /\ run_manifest 2 (example_env all_stored) (str "humans") example_subset
     = run_manifest 2 (example_env second_rejected) (str "humans")
         example_subset.
Proof.
  assert (H1 : manifest_ok (run_manifest 2 (example_env all_stored)
                              (str "humans") example_subset))
    by (repeat split; apply ascii_unambiguous; ascii_literal).
  assert (H2 : manifest_ok (run_manifest 2 (example_env second_rejected)
                              (str "humans") example_subset))
    by (repeat split; apply ascii_unambiguous; ascii_literal).
  assert (H3 : manifest_bytes (run_manifest 2 (example_env all_stored)
                                 (str "humans") example_subset)
               = manifest_bytes (run_manifest 2 (example_env second_rejected)
                                   (str "humans") example_subset))
    by reflexivity.
  split; [repeat split; assumption|].
  exact (manifest_bytes_injective _ _ H1 H2 H3).
Defined.

(** ** Empty and exactly filled runs *)

(** X17: a dataset without edges and labels gives no chunk at all: the
    run uploads the manifest alone, with all three totals at zero, and
    returns these totals unless the upload of the manifest cannot start. *)
Theorem empty_dataset_run (C : Z) (env : RunEnv) (name : pystr)
  (ds : Subset) :
  dataset env = Ok ds ->
  get_edges ds = [] ->
  match get_labels ds with Some l => l | None => [] end = [] ->
  exists m,
    Manifest.stats_ m
    = {| Manifest.totalTriples := 0; Manifest.totalChunks := 0;
         Manifest.totalSizeBytes := 0 |}
    /\ load_subset C env name []
       = (match wrangler env (manifest_path name) with
          | Crashed => Raise OSError
          | _ => Ok (Stats.mk 0 0 0)
          end, [manifest_put env name m]).
Proof.
  intros Hds He Hl.
  exists (run_manifest C env name ds).
  assert (Hall : run_triples env ds = []).
  { unfold run_triples. now rewrite He, Hl. }
  split.
  - unfold run_manifest. now rewrite Hall.
  - rewrite load_subset_any, Hds. cbv zeta.
    unfold run_puts, run_stats. rewrite Hall.
    cbn [chunks_of flushed pending app chunk_puts existsb until_crash].
    unfold is_crashed. cbn [manifest_put put_result orb].
    destruct (wrangler env (manifest_path name)); reflexivity.
Qed.

Lemma empty_dataset_run_witness :
  (dataset empty_env = Ok empty_subset
   /\ get_edges empty_subset = []
   /\ match get_labels empty_subset with Some l => l | None => [] end = [])
  /\ exists m,
       Manifest.stats_ m
       = {| Manifest.totalTriples := 0; Manifest.totalChunks := 0;
            Manifest.totalSizeBytes := 0 |}
       /\ load_subset 2 empty_env (str "humans") []
          = (match wrangler empty_env (manifest_path (str "humans")) with
             | Crashed => Raise OSError
             | _ => Ok (Stats.mk 0 0 0)
             end, [manifest_put empty_env (str "humans") m]).
Proof.
  split; [repeat split|].
  apply (empty_dataset_run 2 empty_env (str "humans") empty_subset);
    reflexivity.
Defined.

(** X18: when the number of triples is an exact multiple [k * C] of the
    chunk size, the run uploads exactly [k] chunks of [C] triples each:
    the last flush of the loop empties the buffer and the final flush
    adds no short chunk. *)
Theorem exact_multiple_run (C k : Z) (env : RunEnv) (name : pystr)
  (ds : Subset) :
  0 < C -> dataset env = Ok ds -> starts env ->
  len (run_triples env ds) = k * C ->
  exists chunks stats m,
    load_subset C env name []
    = (Ok stats, chunk_puts env name 0 chunks ++ [manifest_put env name m])
    /\ len chunks = k
    /\ Forall (fun c => len c = C) chunks
    /\ Stats.chunks stats = k.
Proof.
  intros HC Hds Hstarts Hlen.
  exists (chunks_of C (run_triples env ds)), (run_stats C env ds),
         (run_manifest C env name ds).
  split; [now rewrite (load_subset_run C env name Hstarts ds)|].
  destruct (flushed_full C (run_triples env ds) [] HC)
    as (Hall & Hpend & Hsum); [unfold len; simpl; lia|].
  change (len (@nil Triple.t)) with 0 in Hsum.
  pose proof (len_nonneg (pending C [] (run_triples env ds))) as Hp0.
  pose proof (len_nonneg (flushed C [] (run_triples env ds))) as Hf0.
  assert (Hk : len (flushed C [] (run_triples env ds)) = k).
  { rewrite Hlen in Hsum.
    generalize dependent (len (flushed C [] (run_triples env ds))).
    generalize dependent (len (pending C [] (run_triples env ds))).
    intros p Hpend Hp0 n Hsum Hf0.
    destruct (Z.lt_trichotomy n k) as [H|[H|H]];
      [exfalso; nia|exact H|exfalso; nia]. }
  assert (Hzero : len (pending C [] (run_triples env ds)) = 0).
  { rewrite Hlen, Hk in Hsum. lia. }
  unfold run_stats, chunks_of. cbn [Stats.chunks].
  destruct (pending C [] (run_triples env ds)) as [|y r].
  - rewrite app_nil_r. repeat split; assumption.
  - rewrite len_cons in Hzero. pose proof (len_nonneg r). lia.
Qed.

Lemma exact_multiple_run_witness :
  (0 < 2 /\ dataset even_env = Ok even_subset /\ starts even_env
   /\ len (run_triples even_env even_subset) = 2 * 2)
  /\ exists chunks stats m,
       load_subset 2 even_env (str "humans") []
       = (Ok stats,
          chunk_puts even_env (str "humans") 0 chunks
          ++ [manifest_put even_env (str "humans") m])
       /\ len chunks = 2
       /\ Forall (fun c => len c = 2) chunks
       /\ Stats.chunks stats = 2.
Proof.
  assert (Hs : starts even_env) by (intros path; discriminate).
  split; [split; [lia|split; [reflexivity|split; [exact Hs|reflexivity]]]|].
  apply (exact_multiple_run 2 2 even_env (str "humans") even_subset);
    [lia|reflexivity|exact Hs|reflexivity].
Defined.
